(** * form-data-parser: flat-key normalisation and path accessors

    A shallow embedding of [src/utils/formUtils.ts] (the flat-key
    normaliser [processFormData] and its helpers) and of
    [src/utils/data.ts] (the path accessors [getValue], [setValue],
    [hasValue], [deleteValue], and [createFromPath]), followed by the
    properties of the specification that concern them and by further
    properties of the code.  Two earlier versions of [formUtils.ts] are
    embedded as far as they are compared with the final one: the key
    parser and the local [processNestedArrays] of the bracket-only
    version, and the version with local helpers.

    Conventions of the embedding.
    - JavaScript strings are modelled by [string]: sequences of code
      units below 256.  The white space recognised by [trim] and
      [parseInt] is the ECMAScript white space in that range (the ASCII
      white space and the no-break space U+00A0).
    - Numbers only occur as integers (array lengths, the result of
      [parseInt]); they are modelled by [Z], which is exact, where
      JavaScript rounds above 2^53.  [parseInt] returns [None] for NaN.
      Properties that tell two indices apart assume them exact
      ([exact_segment]).
    - An object is its list of own enumerable string-keyed properties in
      the order of [Object.keys] (array-index keys ascending, then the
      other keys in creation order), tagged with its kind: plain object,
      array (with its [length]) or [File].  Property reads and writes act
      on own properties, with two exceptions that are modelled: the
      [length] of an array, and the test [fieldGroups[baseName]] of
      [processFormData], which reads the members inherited from
      [Object.prototype] ([Obj.inherited]).  Elsewhere the members that an
      object inherits are outside the embedding, and the properties below
      say so in their hypotheses: a key "__proto__" reaches the prototype
      ([proto_free]), the attributes of a [File] are inherited and cannot
      be assigned ([file_free]), [normalizeStructure] calls the [map] of
      an array ([plain_arrays], [ordinary_key]), and a read of a missing
      property finds the inherited member, if any ([own_walk]).  The
      runtime is taken as it starts: [Object.prototype] and
      [Array.prototype] hold their standard members only.
    - The accessors mutate the structure they are given and return it.
      The structures are trees: no object is held at two places, so the
      mutation is modelled by rebuilding the path from the root.
    - A [throw] is the [Throw] outcome.  The limits of the runtime (the
      depth of the call stack, the memory) are not modelled. *)

From Stdlib Require Import List String Ascii ZArith NArith Bool Lia.
From Stdlib Require Import Numbers.DecimalString Numbers.DecimalPos.
From Stdlib Require Import Sorting.Permutation Sorting.Sorted.
Import ListNotations.

Local Open Scope string_scope.
Local Open Scope list_scope.

(** ** Outcomes *)

(** The two [Error]s thrown by [data.ts] are told apart by their message:
    [InvalidPath] is 'Path cannot be empty' and 'Invalid path: consecutive
    dots are not allowed', [InvalidTarget] is 'Cannot ... null or undefined
    object'.  [RangeError] and [TypeError] are raised by the language
    itself (an invalid array length, a property of a primitive or a
    non-configurable property in strict mode). *)
Inductive error : Type :=
| InvalidPath
| InvalidTarget
| RangeError
| TypeError.

Inductive outcome (A : Type) : Type :=
| Ok (a : A)
| Throw (e : error).

Arguments Ok {A} a.
Arguments Throw {A} e.

Definition bind {A B : Type} (m : outcome A) (f : A -> outcome B) : outcome B :=
  match m with
  | Ok a => f a
  | Throw e => Throw e
  end.

Notation "x <- m ;; k" := (bind m (fun x => k))
  (at level 61, m at next level, right associativity).

(** ** Strings *)

Module Str.

(** The separators of the regular expression [/[.[\]]/]. *)
Definition is_separator (c : ascii) : bool :=
  (c =? ".")%char || (c =? "[")%char || (c =? "]")%char.

(** ECMAScript WhiteSpace and LineTerminator among the code units below
    256: tab, line feed, vertical tab, form feed, carriage return, space
    and the no-break space U+00A0. *)
Definition is_space (c : ascii) : bool :=
  let n := nat_of_ascii c in
  (Nat.eqb n 9 || Nat.eqb n 10 || Nat.eqb n 11 || Nat.eqb n 12
   || Nat.eqb n 13 || Nat.eqb n 32 || Nat.eqb n 160)%bool.

Fixpoint trim_start (s : string) : string :=
  match s with
  | String c s' => if is_space c then trim_start s' else s
  | EmptyString => EmptyString
  end.

Fixpoint all_space (s : string) : bool :=
  match s with
  | EmptyString => true
  | String c s' => is_space c && all_space s'
  end.

(** [s.trim() === ''] *)
Definition trim_is_empty (s : string) : bool := all_space s.

(** [s.includes(c)] for a one-character needle. *)
Fixpoint includes_char (c : ascii) (s : string) : bool :=
  match s with
  | EmptyString => false
  | String d s' => (c =? d)%char || includes_char c s'
  end.

(** [s.includes('..')] *)
Fixpoint includes_dotdot (s : string) : bool :=
  match s with
  | String "." (String "." _ as s') => true
  | String _ s' => includes_dotdot s'
  | EmptyString => false
  end.

(** [s.split(/[.[\]]/)]: the fragments between separators, the empty
    ones included; [cur] is the fragment being read. *)
Fixpoint split_aux (s : string) (cur : string) : list string :=
  match s with
  | EmptyString => [cur]
  | String c s' =>
      if is_separator c then cur :: split_aux s' EmptyString
      else split_aux s' (cur ++ String c EmptyString)
  end.

Definition split (s : string) : list string := split_aux s EmptyString.

(** [Boolean(s)] for a string. *)
Definition nonempty (s : string) : bool :=
  match s with EmptyString => false | _ => true end.

(** [s.split(/[.[\]]/).filter(Boolean)] *)
Definition fragments (s : string) : list string := filter nonempty (split s).

End Str.

(** ** Numbers *)

Module Num.

Definition digit (c : ascii) : option Z :=
  let n := nat_of_ascii c in
  if (Nat.leb 48 n && Nat.leb n 57)%bool then Some (Z.of_nat (n - 48)) else None.

Definition hex_digit (c : ascii) : option Z :=
  let n := nat_of_ascii c in
  if (Nat.leb 48 n && Nat.leb n 57)%bool then Some (Z.of_nat (n - 48))
  else if (Nat.leb 97 n && Nat.leb n 102)%bool then Some (Z.of_nat (n - 87))
  else if (Nat.leb 65 n && Nat.leb n 70)%bool then Some (Z.of_nat (n - 55))
  else None.

(** The longest prefix of digits of [s] in the given radix, read with
    accumulator [acc]; [seen] tells whether a digit was read. *)
Fixpoint read_digits (dig : ascii -> option Z) (radix : Z) (s : string)
         (acc : Z) (seen : bool) : option Z :=
  match s with
  | EmptyString => if seen then Some acc else None
  | String c s' =>
      match dig c with
      | Some d => read_digits dig radix s' (radix * acc + d) true
      | None => if seen then Some acc else None
      end
  end.

(** [parseInt(s)] with no radix argument: leading white space is
    skipped, then an optional sign, then an optional [0x]/[0X] prefix
    selecting radix 16, then the longest prefix of digits; [None] is
    NaN. *)
Definition parseInt (s : string) : option Z :=
  let s1 := Str.trim_start s in
  let '(sign, s2) :=
    match s1 with
    | String "-" r => ((-1)%Z, r)
    | String "+" r => (1%Z, r)
    | _ => (1%Z, s1)
    end in
  let r :=
    match s2 with
    | String "0" (String "x" r) => read_digits hex_digit 16 r 0 false
    | String "0" (String "X" r) => read_digits hex_digit 16 r 0 false
    | _ => read_digits digit 10 s2 0 false
    end in
  option_map (Z.mul sign) r.

(** [String(n)] for an integer [n]. *)
Definition to_string (z : Z) : string :=
  NilEmpty.string_of_int (Z.to_int z).

(** An array index is a property key that is the canonical decimal
    form of an integer in [0, 2^32 - 2]. *)
Definition array_index (k : string) : option Z :=
  match read_digits digit 10 k 0 false with
  | Some n =>
      if (String.eqb (to_string n) k && (n <? 4294967295)%Z)%bool
      then Some n else None
  | None => None
  end.

End Num.

(** ** Values *)

Inductive kind : Type :=
| KPlain
| KArray (len : Z)
| KFile (name : string).

Local Set Warnings "-register-all".

(** [SimpleFormValue | NestedObject | Array<...>], with [undefined] and
    the numbers that reading [length] produces. *)
Inductive Value : Type :=
| VUndefined
| VNull
| VString (s : string)
| VNumber (z : Z)
| VObject (k : kind) (props : list (string * Value)).

Definition props := list (string * Value).

(** [Boolean(v)] *)
Definition truthy (v : Value) : bool :=
  match v with
  | VUndefined | VNull => false
  | VString s => Str.nonempty s
  | VNumber z => negb (z =? 0)%Z
  | VObject _ _ => true
  end.

(** [typeof v === 'object'] (true of [null]) *)
Definition typeof_object (v : Value) : bool :=
  match v with
  | VNull | VObject _ _ => true
  | _ => false
  end.

(** [Array.isArray(v)] *)
Definition isArray (v : Value) : bool :=
  match v with
  | VObject (KArray _) _ => true
  | _ => false
  end.

Definition is_undefined (v : Value) : bool :=
  match v with VUndefined => true | _ => false end.

Definition is_null (v : Value) : bool :=
  match v with VNull => true | _ => false end.

Definition empty_object : Value := VObject KPlain [].
Definition empty_array : Value := VObject (KArray 0) [].

(** ** Own properties, in the order of [Object.keys] *)

Module Obj.

Section Properties.
Context {A : Type}.

Fixpoint lookup (k : string) (ps : list (string * A)) : option A :=
  match ps with
  | [] => None
  | (k', v) :: ps' => if String.eqb k k' then Some v else lookup k ps'
  end.

(** A new key [k] is listed before an existing key [k'] when [k] is
    an array index and [k'] is a larger one or not one at all. *)
Definition comes_before (k k' : string) : bool :=
  match Num.array_index k, Num.array_index k' with
  | Some i, Some j => (i <? j)%Z
  | Some _, None => true
  | None, _ => false
  end.

(** [o[k] = v] on the own properties: an existing key keeps its place,
    a new one is listed at its place in the key order. *)
Fixpoint replace (k : string) (v : A) (ps : list (string * A)) : list (string * A) :=
  match ps with
  | [] => []
  | (k', v') :: ps' =>
      if String.eqb k k' then (k, v) :: ps' else (k', v') :: replace k v ps'
  end.

Fixpoint insert (k : string) (v : A) (ps : list (string * A)) : list (string * A) :=
  match ps with
  | [] => [(k, v)]
  | (k', v') :: ps' =>
      if comes_before k k' then (k, v) :: (k', v') :: ps'
      else (k', v') :: insert k v ps'
  end.

Definition put (k : string) (v : A) (ps : list (string * A)) : list (string * A) :=
  match lookup k ps with
  | Some _ => replace k v ps
  | None => insert k v ps
  end.

(** [delete o[k]] *)
Fixpoint remove (k : string) (ps : list (string * A)) : list (string * A) :=
  match ps with
  | [] => []
  | (k', v') :: ps' =>
      if String.eqb k k' then ps' else (k', v') :: remove k ps'
  end.

Definition keys (ps : list (string * A)) : list string := map fst ps.
Definition values (ps : list (string * A)) : list A := map snd ps.

End Properties.

(** The elements of an array of length [len], holes skipped, in index
    order: what [map], [filter] and [forEach] visit. *)
Definition elements (len : Z) (ps : props) : list Value :=
  values (filter (fun kv => match Num.array_index (fst kv) with
                            | Some i => (i <? len)%Z
                            | None => false
                            end) ps).

(** The dense array holding [vs]. *)
Fixpoint index_from (i : Z) (vs : list Value) : props :=
  match vs with
  | [] => []
  | v :: vs' => (Num.to_string i, v) :: index_from (i + 1) vs'
  end.

Definition of_list (vs : list Value) : Value :=
  VObject (KArray (Z.of_nat (List.length vs))) (index_from 0 vs).

(** [ToNumber(v)] as far as an array length needs it: [null], the empty
    array and blank strings are 0 and a string of decimal digits is its
    value; every other string or object is taken for NaN. *)
Definition to_length (v : Value) : option Z :=
  let n :=
    match v with
    | VNull => Some 0%Z
    | VNumber z => Some z
    | VString s =>
        if Str.all_space s then Some 0%Z
        else if forallb (fun c => match Num.digit c with Some _ => true | None => false end)
                        (list_ascii_of_string s)
             then Num.read_digits Num.digit 10 s 0 false else None
    | VObject (KArray _) [] => Some 0%Z
    | _ => None
    end in
  match n with
  | Some z => if ((0 <=? z) && (z <? 4294967296))%Z then Some z else None
  | None => None
  end.

(** Truncation of an array to length [n]. *)
Definition truncate (n : Z) (ps : props) : props :=
  filter (fun kv => match Num.array_index (fst kv) with
                    | Some i => (i <? n)%Z
                    | None => true
                    end) ps.

(** The names of the members that every object inherits from
    [Object.prototype]: [o[k]] for such a [k] that [o] does not own is the
    inherited member, a function (for ["__proto__"], the prototype
    itself). *)
Definition inherited (k : string) : bool :=
  existsb (String.eqb k)
    ["__defineGetter__"; "__defineSetter__"; "__lookupGetter__"; "__lookupSetter__";
     "__proto__"; "constructor"; "hasOwnProperty"; "isPrototypeOf";
     "propertyIsEnumerable"; "toLocaleString"; "toString"; "valueOf"].

(** [o[k]] on the own properties of [o]. *)
Definition get (o : Value) (k : string) : Value :=
  match o with
  | VObject kd ps =>
      match kd, String.eqb k "length" with
      | KArray len, true => VNumber len
      | _, _ => match lookup k ps with Some v => v | None => VUndefined end
      end
  | _ => VUndefined
  end.

(** [o[k] = v] for an object [o] and a key other than the [length] of
    an array: writing an element at or beyond the length of an array
    extends it. *)
Definition assign (kd : kind) (ps : props) (k : string) (v : Value) : Value :=
  match kd, Num.array_index k with
  | KArray len, Some i => VObject (KArray (Z.max len (i + 1))) (put k v ps)
  | _, _ => VObject kd (put k v ps)
  end.

(** [o[k] = v] in strict mode. *)
Definition set (o : Value) (k : string) (v : Value) : outcome Value :=
  match o with
  | VObject kd ps =>
      match kd, String.eqb k "length" with
      | KArray len, true =>
          match to_length v with
          | Some n => Ok (VObject (KArray n) (truncate n ps))
          | None => Throw RangeError
          end
      | _, _ => Ok (assign kd ps k v)
      end
  | _ => Throw TypeError
  end.

(** [delete o[k]] in strict mode. *)
Definition delete (o : Value) (k : string) : outcome Value :=
  match o with
  | VObject (KArray len) ps =>
      if String.eqb k "length" then Throw TypeError
      else Ok (VObject (KArray len) (remove k ps))
  | VObject kd ps => Ok (VObject kd (remove k ps))
  | _ => Ok o
  end.

(** The state of [o] after the object held at its key [k] has been
    mutated into [child]. *)
Definition write_back (o : Value) (k : string) (child : Value) : Value :=
  match o with
  | VObject kd ps => VObject kd (put k child ps)
  | _ => o
  end.

End Obj.

(** ** formUtils.ts: the flat-key normaliser *)

Record FieldGroup : Type := { path : list string; value : Value }.

Definition FieldGroups := list (string * list FieldGroup).

Definition ProcessedFormData := props.

(** [typeof value === 'string' && value.trim() === ''] *)
Definition isEmptyValue (value : Value) : bool :=
  match value with
  | VString s => Str.trim_is_empty s
  | _ => false
  end.

(** [!isNaN(parseInt(key))] *)
Definition isNumericKey (key : string) : bool :=
  match Num.parseInt key with
  | Some _ => true
  | None => false
  end.

(** The comparison [(a, b) => parseInt(a) - parseInt(b)]; [sort] reads a
    NaN result as 0. *)
Definition compare_keys (a b : string) : Z :=
  match Num.parseInt a, Num.parseInt b with
  | Some x, Some y => (x - y)%Z
  | _, _ => 0%Z
  end.

(** [keys.sort(compare_keys)], a stable sort. *)
Fixpoint insert_key (a : string) (l : list string) : list string :=
  match l with
  | [] => [a]
  | b :: l' =>
      if (0 <? compare_keys a b)%Z then b :: insert_key a l' else a :: b :: l'
  end.

Fixpoint sort_keys (l : list string) : list string :=
  match l with
  | [] => []
  | a :: l' => insert_key a (sort_keys l')
  end.

(** [String(parseInt(key))], the property key of [array[parseInt(key)]]. *)
Definition index_key (key : string) : string :=
  match Num.parseInt key with
  | Some z => Num.to_string z
  | None => "NaN"
  end.

(** The body of [convertToArray] once the value of every key has been
    normalised: [nobj] holds [normalizeStructure(obj[key])] at [key]. *)
Definition convert_normalized (nobj : props) : Value :=
  let array :=
    fold_left
      (fun array key =>
         match array with
         | VObject kd ps => Obj.assign kd ps (index_key key) (Obj.get (VObject KPlain nobj) key)
         | _ => array
         end)
      (sort_keys (Obj.keys nobj)) empty_array in
  match array with
  | VObject (KArray len) ps =>
      Obj.of_list (filter (fun val => negb (is_undefined val)) (Obj.elements len ps))
  | _ => array
  end.

(** [keys.length > 0 && keys.every(isNumericKey)] *)
Definition allNumericKeys (keys : list string) : bool :=
  match keys with
  | [] => false
  | _ => forallb isNumericKey keys
  end.

(** The loop of [normalizeStructure] over [Object.entries(obj)], the
    values already normalised. *)
Definition collect_defined (nobj : props) : Value :=
  VObject KPlain
    (fold_left
       (fun resultObj kv =>
          if is_undefined (snd kv) then resultObj
          else Obj.put (fst kv) (snd kv) resultObj)
       nobj []).

(** [normalizeStructure]; its mutual recursion with [convertToArray] is
    through the values of the properties, which are normalised by the
    local [normalize_values]. *)
Fixpoint normalizeStructure (item : Value) : Value :=
  match item with
  | VObject kd obj =>
      let nobj :=
        (fix normalize_values (ps : props) : props :=
           match ps with
           | [] => []
           | (key, val) :: ps' => (key, normalizeStructure val) :: normalize_values ps'
           end) obj in
      match kd with
      | KArray len => Obj.of_list (filter truthy (Obj.elements len nobj))
      | _ =>
          if allNumericKeys (Obj.keys obj) then convert_normalized nobj
          else collect_defined nobj
      end
  | _ => item
  end.

Definition normalize_values (ps : props) : props :=
  map (fun kv => (fst kv, normalizeStructure (snd kv))) ps.

Definition convertToArray (obj : props) : Value :=
  convert_normalized (normalize_values obj).

Definition props_of (v : Value) : props :=
  match v with
  | VObject _ ps => ps
  | _ => []
  end.

(** [!v || typeof v !== 'object'] *)
Definition not_a_container (v : Value) : bool :=
  negb (truthy v) || negb (typeof_object v).

(** The [for] loop of [setNestedValue] and the final assignment, from
    position [i] of [path] on; [current] is the object reached. *)
Fixpoint setNestedValue_from (current : Value) (path : list string) (value : Value)
  : outcome Value :=
  match path with
  | [] => Ok current
  | [last] => Obj.set current last value
  | key :: ((nextKey :: _) as rest) =>
      let isNextKeyNumeric := isNumericKey nextKey in
      current' <-
        (if not_a_container (Obj.get current key) then
           Obj.set current key (if isNextKeyNumeric then empty_array else empty_object)
         else if isNextKeyNumeric && negb (isArray (Obj.get current key)) then
           Obj.set current key (convertToArray (props_of (Obj.get current key)))
         else Ok current) ;;
      child <- setNestedValue_from (Obj.get current' key) rest value ;;
      Ok (Obj.write_back current' key child)
  end.

Definition setNestedValue (obj : Value) (path : list string) (value : Value)
  : outcome Value :=
  match path with
  | [] => Ok obj
  | _ => if isEmptyValue value then Ok obj else setNestedValue_from obj path value
  end.

(** The test of the filter of [processFieldGroups] on an element. *)
Definition keep_item (item : Value) : bool :=
  match item with
  | VObject (KArray _) _ => true
  | VObject _ ps =>
      existsb
        (fun val =>
           negb (is_null val)
           && match val with
              | VString s => negb (Str.trim_is_empty s)
              | _ => true
              end)
        (Obj.values ps)
  | _ => negb (is_undefined item)
  end.

Definition process_group (fields : list FieldGroup) : outcome Value :=
  let isArrayStructure :=
    forallb (fun field =>
               match path field with
               | [] => false
               | first :: _ => isNumericKey first
               end) fields in
  tempObj <-
    fold_left
      (fun acc field => tempObj <- acc ;; setNestedValue tempObj (path field) (value field))
      fields (Ok empty_object) ;;
  let normalized := normalizeStructure tempObj in
  match normalized with
  | VObject (KArray len) ps =>
      if isArrayStructure then Ok (Obj.of_list (filter keep_item (Obj.elements len ps)))
      else Ok normalized
  | _ => Ok normalized
  end.

Definition processFieldGroups (fieldGroups : FieldGroups) : outcome ProcessedFormData :=
  fold_left
    (fun acc group =>
       result <- acc ;;
       v <- process_group (snd group) ;;
       Ok (Obj.put (fst group) v result))
    fieldGroups (Ok []).

(** [!key.includes('.') && !key.includes('[')] *)
Definition is_simple_key (key : string) : bool :=
  negb (Str.includes_char "." key) && negb (Str.includes_char "[" key).

(** The key [parts[0]] of the group of an entry: the first fragment, or
    ['undefined'] when there is none. *)
Definition base_name (parts : list string) : string :=
  match parts with
  | [] => "undefined"
  | p :: _ => p
  end.

(** The loop that groups the path-bearing entries by base name.  The
    test [!fieldGroups[baseName]] reads through the prototype of
    [fieldGroups]: for a base name that [Object.prototype] defines and no
    entry has created, the value read is the inherited member, which is
    truthy, so no list is created, and which has no [push], so the call
    raises a TypeError. *)
Definition group_entries (nestedEntries : list (string * Value)) : outcome FieldGroups :=
  fold_left
    (fun acc kv =>
       fieldGroups <- acc ;;
       let parts := Str.fragments (fst kv) in
       let baseName := base_name parts in
       match Obj.lookup baseName fieldGroups with
       | Some fields =>
           Ok (Obj.put baseName (fields ++ [{| path := tl parts; value := snd kv |}])
                       fieldGroups)
       | None =>
           if Obj.inherited baseName then Throw TypeError
           else Ok (Obj.put baseName [{| path := tl parts; value := snd kv |}] fieldGroups)
       end)
    nestedEntries (Ok []).

(** [{ ...a, ...b }] *)
Definition spread (a b : props) : props :=
  fold_left (fun acc kv => Obj.put (fst kv) (snd kv) acc) (a ++ b) [].

Definition processFormData (entries : list (string * Value)) : outcome ProcessedFormData :=
  let result :=
    fold_left
      (fun result kv =>
         if is_simple_key (fst kv) then Obj.put (fst kv) (snd kv) result else result)
      entries [] in
  let nestedEntries := filter (fun kv => negb (is_simple_key (fst kv))) entries in
  fieldGroups <- group_entries nestedEntries ;;
  groups <- processFieldGroups fieldGroups ;;
  Ok (spread result groups).

(** ** data.ts: the path accessors *)

(** [type PathSegment = string | number] *)
Inductive PathSegment : Type :=
| SegName (s : string)
| SegIndex (z : Z).

(** The property key a segment denotes when it indexes an object. *)
Definition property_key (segment : PathSegment) : string :=
  match segment with
  | SegName s => s
  | SegIndex z => Num.to_string z
  end.

(** [typeof segment === 'number'] *)
Definition is_number (segment : PathSegment) : bool :=
  match segment with
  | SegIndex _ => true
  | SegName _ => false
  end.

Definition classify (segment : string) : PathSegment :=
  match Num.parseInt segment with
  | Some num => SegIndex num
  | None => SegName segment
  end.

Definition parsePath (path : string) : outcome (list PathSegment) :=
  if negb (Str.nonempty path) then Throw InvalidPath
  else if Str.includes_dotdot path then Throw InvalidPath
  else Ok (map classify (Str.fragments path)).

(** [a ?? b] *)
Definition nullish (a b : Value) : Value :=
  match a with
  | VUndefined | VNull => b
  | _ => a
  end.

Fixpoint getValue_walk (current : Value) (segments : list PathSegment)
         (defaultValue : Value) : Value :=
  match segments with
  | [] => nullish current defaultValue
  | segment :: rest =>
      if is_null current || negb (typeof_object current) then defaultValue
      else getValue_walk (Obj.get current (property_key segment)) rest defaultValue
  end.

(** [getValue(obj, path, defaultValue)]; an omitted [defaultValue] is
    [VUndefined]. *)
Definition getValue (obj : Value) (path : string) (defaultValue : Value) : outcome Value :=
  if negb (truthy obj) then Throw InvalidTarget
  else
    segments <- parsePath path ;;
    Ok (getValue_walk obj segments defaultValue).

(** The loop of [setValue] and the final assignment; with no segment at
    all the last segment is [segments[-1]], that is [undefined]. *)
Fixpoint setValue_from (current : Value) (segments : list PathSegment) (value : Value)
  : outcome Value :=
  match segments with
  | [] => Obj.set current "undefined" value
  | [lastSegment] => Obj.set current (property_key lastSegment) value
  | segment :: ((nextSegment :: _) as rest) =>
      let isNextNumeric := is_number nextSegment in
      current' <-
        (if not_a_container (Obj.get current (property_key segment)) then
           Obj.set current (property_key segment)
                   (if isNextNumeric then empty_array else empty_object)
         else Ok current) ;;
      child <- setValue_from (Obj.get current' (property_key segment)) rest value ;;
      Ok (Obj.write_back current' (property_key segment) child)
  end.

Definition setValue (obj : Value) (path : string) (value : Value) : outcome Value :=
  if negb (truthy obj) then Throw InvalidTarget
  else
    segments <- parsePath path ;;
    setValue_from obj segments value.

Fixpoint hasValue_walk (current : Value) (segments : list PathSegment) : bool :=
  match segments with
  | [] => negb (is_undefined current) && negb (is_null current)
  | segment :: rest =>
      if is_null current || negb (typeof_object current) then false
      else hasValue_walk (Obj.get current (property_key segment)) rest
  end.

Definition hasValue (obj : Value) (path : string) : outcome bool :=
  if negb (truthy obj) then Throw InvalidTarget
  else
    segments <- parsePath path ;;
    Ok (hasValue_walk obj segments).

(** The tail of [deleteValue] on the parent [current] of the target. *)
Definition delete_last (current : Value) (lastSegment : option PathSegment)
  : outcome Value :=
  let key := match lastSegment with Some s => property_key s | None => "undefined" end in
  current' <- Obj.delete current key ;;
  match current', lastSegment with
  | VObject (KArray _) ps, Some (SegIndex lastIndex) =>
      let hasOtherProperties :=
        existsb (fun key => match Num.parseInt key with
                            | Some numKey => (lastIndex <? numKey)%Z
                            | None => false
                            end) (Obj.keys ps) in
      if hasOtherProperties then Ok current'
      else Obj.set current' "length" (VNumber lastIndex)
  | _, _ => Ok current'
  end.

Fixpoint deleteValue_from (current : Value) (segments : list PathSegment) : outcome Value :=
  match segments with
  | [] => delete_last current None
  | [lastSegment] => delete_last current (Some lastSegment)
  | segment :: rest =>
      if not_a_container (Obj.get current (property_key segment)) then Ok current
      else
        child <- deleteValue_from (Obj.get current (property_key segment)) rest ;;
        Ok (Obj.write_back current (property_key segment) child)
  end.

Definition deleteValue (obj : Value) (path : string) : outcome Value :=
  if negb (truthy obj) then Throw InvalidTarget
  else
    segments <- parsePath path ;;
    deleteValue_from obj segments.

(** ** Building test data *)

Definition str_entries (l : list (string * string)) : list (string * Value) :=
  map (fun kv => (fst kv, VString (snd kv))) l.

Definition array_of_strings (l : list string) : Value :=
  Obj.of_list (map VString l).


(** A key made of separator characters only. *)
Definition only_separators (key : string) : bool :=
  forallb Str.is_separator (list_ascii_of_string key).

(** The fragment bears a minus sign where [parseInt] reads one. *)
Definition has_minus_sign (fragment : string) : bool :=
  match Str.trim_start fragment with
  | String "-" _ => true
  | _ => false
  end.

(** What [parsePath] makes of a fragment. *)
Definition classified (fragment : string) (segment : PathSegment) : Prop :=
  match segment with
  | SegIndex z =>
      Num.parseInt fragment = Some z /\ (has_minus_sign fragment = false -> (0 <= z)%Z)
  | SegName s => s = fragment /\ Num.parseInt fragment = None
  end.

(** The outcome is a result or one of the two errors of [data.ts]. *)
Definition accessor_error_only {A : Type} (o : outcome A) : Prop :=
  match o with
  | Ok _ => True
  | Throw e => e = InvalidPath \/ e = InvalidTarget
  end.


(** A fragment that [parseInt] reads as a number is a possible array
    length. *)
Definition index_in_range (fragment : string) : Prop :=
  match Num.parseInt fragment with
  | Some z => (0 <= z < 4294967296)%Z
  | None => True
  end.

Definition segment_in_range (segment : PathSegment) : Prop :=
  match segment with
  | SegIndex z => (0 <= z < 4294967296)%Z
  | SegName _ => True
  end.

(** The field an entry contributes to its group. *)
Definition to_field (kv : string * Value) : FieldGroup :=
  {| path := tl (Str.fragments (fst kv)); value := snd kv |}.

(** The path-bearing entries whose root key is [baseName], in order. *)
Definition in_group (baseName : string) (kv : string * Value) : bool :=
  negb (is_simple_key (fst kv))
  && String.eqb (base_name (Str.fragments (fst kv))) baseName.

(** [setNestedValue] returns at once on the field: its path is empty or
    its value is an empty string after trimming. *)
Definition skipped (field : FieldGroup) : bool :=
  match path field with
  | [] => true
  | _ => isEmptyValue (value field)
  end.

(** No fragment after the root key is the name "length". *)
Definition safe_field (field : FieldGroup) : Prop := ~ In "length" (path field).

Definition safe_entry (kv : string * Value) : Prop := safe_field (to_field kv).

(** The steps of the loops of [process_group] and [processFieldGroups]. *)
Definition place_field (acc : outcome Value) (field : FieldGroup) : outcome Value :=
  tempObj <- acc ;; setNestedValue tempObj (path field) (value field).

Definition emit_group (acc : outcome ProcessedFormData) (group : string * list FieldGroup)
  : outcome ProcessedFormData :=
  result <- acc ;;
  v <- process_group (snd group) ;;
  Ok (Obj.put (fst group) v result).

(** The step of the loop of [group_entries]. *)
Definition add_to_group (fieldGroups : FieldGroups) (kv : string * Value) : FieldGroups :=
  let baseName := base_name (Str.fragments (fst kv)) in
  let fields :=
    match Obj.lookup baseName fieldGroups with
    | Some fs => fs
    | None => []
    end in
  Obj.put baseName (fields ++ [to_field kv]) fieldGroups.

(** The groups of entries none of which has an inherited base name. *)
Definition grouped (nestedEntries : list (string * Value)) : FieldGroups :=
  fold_left add_to_group nestedEntries [].

(** The step of the loop of [group_entries], with its failure. *)
Definition add_entry (acc : outcome FieldGroups) (kv : string * Value)
  : outcome FieldGroups :=
  fieldGroups <- acc ;;
  let parts := Str.fragments (fst kv) in
  let baseName := base_name parts in
  match Obj.lookup baseName fieldGroups with
  | Some fields =>
      Ok (Obj.put baseName (fields ++ [{| path := tl parts; value := snd kv |}]) fieldGroups)
  | None =>
      if Obj.inherited baseName then Throw TypeError
      else Ok (Obj.put baseName [{| path := tl parts; value := snd kv |}] fieldGroups)
  end.

(** The base name of the entry is a name that [Object.prototype] defines. *)
Definition inherited_base (kv : string * Value) : bool :=
  Obj.inherited (base_name (Str.fragments (fst kv))).

(** A key that an object or an array of the temporary structure can be
    given without leaving the embedding: it names no member of
    [Object.prototype], and it is neither [length] nor the [map] that
    [normalizeStructure] calls on an array. *)
Definition ordinary_key (k : string) : bool :=
  negb (Obj.inherited k) && negb (String.eqb k "length") && negb (String.eqb k "map").

(** [typeof v !== 'object' || v === null] *)
Definition primitive (v : Value) : bool :=
  match v with
  | VObject _ _ => false
  | _ => true
  end.

(** An entry that a batch can hold without harm to the others: a simple
    field is not named ["__proto__"]; a path-bearing entry has a base name
    that [Object.prototype] does not define, ordinary keys after it, and a
    value that is not an object. *)
Definition regular_entry (kv : string * Value) : bool :=
  if is_simple_key (fst kv) then negb (String.eqb (fst kv) "__proto__")
  else negb (inherited_base kv)
       && forallb ordinary_key (tl (Str.fragments (fst kv)))
       && primitive (snd kv).

Definition same_base (baseName : string) (kv : string * Value) : bool :=
  String.eqb (base_name (Str.fragments (fst kv))) baseName.

(** The key does not address the [length] of an array of kind [kd]. *)
Definition key_ok (kd : kind) (k : string) : Prop :=
  match kd with
  | KArray _ => String.eqb k "length" = false
  | _ => True
  end.

(** The kind of the container [setValue] creates before a segment. *)
Definition fresh_kind (nextSegment : PathSegment) : kind :=
  if is_number nextSegment then KArray 0 else KPlain.

Definition array_kind (kd : kind) : bool :=
  match kd with
  | KArray _ => true
  | _ => false
  end.

(** A raw value that is not a string: null or a file. *)
Definition not_a_string (v : Value) : Prop := forall s, v <> VString s.

(** The step of the loop of [collect_defined]. *)
Definition keep_defined (resultObj : props) (kv : string * Value) : props :=
  if is_undefined (snd kv) then resultObj else Obj.put (fst kv) (snd kv) resultObj.

(** The value [read_digits] gives to a sequence of decimal digits read
    after [acc]. *)
Fixpoint uint_value (d : Decimal.uint) (acc : Z) : Z :=
  match d with
  | Decimal.Nil => acc
  | Decimal.D0 l => uint_value l (10 * acc + 0)
  | Decimal.D1 l => uint_value l (10 * acc + 1)
  | Decimal.D2 l => uint_value l (10 * acc + 2)
  | Decimal.D3 l => uint_value l (10 * acc + 3)
  | Decimal.D4 l => uint_value l (10 * acc + 4)
  | Decimal.D5 l => uint_value l (10 * acc + 5)
  | Decimal.D6 l => uint_value l (10 * acc + 6)
  | Decimal.D7 l => uint_value l (10 * acc + 7)
  | Decimal.D8 l => uint_value l (10 * acc + 8)
  | Decimal.D9 l => uint_value l (10 * acc + 9)
  end.

Definition is_digit (c : ascii) : bool :=
  match Num.digit c with
  | Some _ => true
  | None => false
  end.

Fixpoint all_digits (s : string) : bool :=
  match s with
  | EmptyString => true
  | String c s' => is_digit c && all_digits s'
  end.

Fixpoint no_separators (s : string) : bool :=
  match s with
  | EmptyString => true
  | String c s' => negb (Str.is_separator c) && no_separators s'
  end.

(** The entry [root[n] = s] of a list group, the field it contributes
    to the group and the property it sets in the temporary object. *)
Definition item_entry (root : string) (item : Z * string) : string * Value :=
  ((root ++ "[" ++ Num.to_string (fst item) ++ "]")%string, VString (snd item)).

Definition item_field (item : Z * string) : FieldGroup :=
  {| path := [Num.to_string (fst item)]; value := VString (snd item) |}.

Definition item_prop (item : Z * string) : string * Value :=
  (Num.to_string (fst item), VString (snd item)).

(** Insertion by ascending index, and the items sorted by it. *)
Fixpoint insert_item (item : Z * string) (l : list (Z * string)) : list (Z * string) :=
  match l with
  | [] => [item]
  | item' :: l' =>
      if (fst item <? fst item')%Z then item :: item' :: l'
      else item' :: insert_item item l'
  end.

Definition sort_items (items : list (Z * string)) : list (Z * string) :=
  fold_left (fun acc item => insert_item item acc) items [].

(** An item has an array index and a value that is not blank. *)
Definition valid_item (item : Z * string) : Prop :=
  (0 <= fst item < 4294967295)%Z /\ Str.trim_is_empty (snd item) = false.

Definition lt_item (a b : Z * string) : Prop := (fst a < fst b)%Z.

(** The step of the loop that places the fields of a list group. *)
Definition put_item (ps : props) (item : Z * string) : props :=
  Obj.put (fst (item_prop item)) (snd (item_prop item)) ps.

(** The step of the loop of [convertToArray]. *)
Definition place_index (nobj : props) (array : Value) (key : string) : Value :=
  match array with
  | VObject kd ps => Obj.assign kd ps (index_key key) (Obj.get (VObject KPlain nobj) key)
  | _ => array
  end.

Definition item_key (item : Z * string) : string := Num.to_string (fst item).

Definition item_value (item : Z * string) : Value := VString (snd item).

(** A tree whose leaves are all truthy (no null, no undefined, no empty
    string) and in which no object lists a key twice. *)
Fixpoint clean (v : Value) : Prop :=
  match v with
  | VUndefined | VNull => False
  | VString s => Str.nonempty s = true
  | VNumber z => z <> 0%Z
  | VObject _ ps =>
      NoDup (Obj.keys ps)
      /\ (fix all_clean (ps : props) : Prop :=
            match ps with
            | [] => True
            | (_, v) :: ps' => clean v /\ all_clean ps'
            end) ps
  end.


(** The keys are listed in the order of [Object.keys]. *)
Definition ordered {A : Type} (ps : list (string * A)) : Prop :=
  StronglySorted (fun a b => Obj.comes_before b a = false) (Obj.keys ps).

(** ** data.ts: creating a structure from a path *)

(** The loop of [createNestedStructure] and the final assignment: every
    intermediate container is created, none is looked for. *)
Fixpoint createNestedStructure_from (current : Value) (segments : list PathSegment)
         (value : Value) : outcome Value :=
  match segments with
  | [] => Obj.set current "undefined" value
  | [lastSegment] => Obj.set current (property_key lastSegment) value
  | segment :: ((nextSegment :: _) as rest) =>
      let isNextNumeric := is_number nextSegment in
      current' <-
        Obj.set current (property_key segment)
                (if isNextNumeric then empty_array else empty_object) ;;
      child <- createNestedStructure_from (Obj.get current' (property_key segment))
                                           rest value ;;
      Ok (Obj.write_back current' (property_key segment) child)
  end.

Definition createNestedStructure (segments : list PathSegment) (value : Value)
  : outcome Value :=
  createNestedStructure_from empty_object segments value.

Definition createFromPath (path : string) (value : Value) : outcome Value :=
  segments <- parsePath path ;;
  createNestedStructure segments value.

(** ** formUtils.ts, the bracket-only version of [processFormData] *)

(** [s.indexOf('[')] decides both substrings: with no bracket the index
    is -1, the base name is empty and the path string is the whole key. *)
Fixpoint before_bracket (s : string) : string :=
  match s with
  | EmptyString => EmptyString
  | String c s' => if (c =? "[")%char then EmptyString else String c (before_bracket s')
  end.

Fixpoint from_bracket (s : string) : string :=
  match s with
  | EmptyString => EmptyString
  | String c s' => if (c =? "[")%char then s else from_bracket s'
  end.

(** [key.substring(0, key.indexOf('['))] *)
Definition bracket_base_name (key : string) : string :=
  if Str.includes_char "[" key then before_bracket key else EmptyString.

(** [key.substring(key.indexOf('['))] *)
Definition bracket_path_string (key : string) : string :=
  if Str.includes_char "[" key then from_bracket key else key.

(** The loop over the characters of [pathStr], from position [i] on. *)
Fixpoint bracket_parts_from (pathStr : string) (currentPart : string) (inBracket : bool)
         (pathParts : list string) : list string :=
  match pathStr with
  | EmptyString => pathParts
  | String char rest =>
      if (char =? "[")%char then bracket_parts_from rest currentPart true pathParts
      else if (char =? "]")%char then
        bracket_parts_from rest EmptyString false (pathParts ++ [currentPart])
      else if inBracket then
        bracket_parts_from rest (currentPart ++ String char EmptyString) inBracket pathParts
      else bracket_parts_from rest currentPart inBracket pathParts
  end.

Definition bracket_path_parts (pathStr : string) : list string :=
  bracket_parts_from pathStr EmptyString false [].

(** The local function [processNestedArrays] of that version: the test
    on the keys comes before the test for an array, both conversions
    filter with [Boolean], and an object keeps every property. *)
Definition convert_processed (nobj : props) : Value :=
  let result :=
    fold_left
      (fun result key =>
         match result with
         | VObject kd ps => Obj.assign kd ps (index_key key) (Obj.get (VObject KPlain nobj) key)
         | _ => result
         end)
      (sort_keys (Obj.keys nobj)) empty_array in
  match result with
  | VObject (KArray len) ps => Obj.of_list (filter truthy (Obj.elements len ps))
  | _ => result
  end.

Fixpoint processNestedArrays (item : Value) : Value :=
  match item with
  | VObject kd itemObj =>
      let nobj :=
        (fix process_values (ps : props) : props :=
           match ps with
           | [] => []
           | (key, val) :: ps' => (key, processNestedArrays val) :: process_values ps'
           end) itemObj in
      if allNumericKeys (Obj.keys itemObj) then convert_processed nobj
      else
        match kd with
        | KArray len => Obj.of_list (filter truthy (Obj.elements len nobj))
        | _ =>
            VObject KPlain
              (fold_left (fun result kv => Obj.put (fst kv) (snd kv) result) nobj [])
        end
  | _ => item
  end.

Definition process_values (ps : props) : props :=
  map (fun kv => (fst kv, processNestedArrays (snd kv))) ps.

(** ** formUtils.ts, the version with local helpers *)

(** [Object.keys(tempObj).map(k => tempObj[k])] *)
Definition keys_to_array (tempObj : Value) : Value :=
  Obj.of_list (map (fun k => Obj.get tempObj k) (Obj.keys (props_of tempObj))).

(** The local [setNestedValue]: the containers of the path are made even
    for a blank value, which is only not assigned at the end, and an
    object found where an array is wanted is replaced by the array of
    its values. *)
Fixpoint setNestedValue_inline_from (current : Value) (path : list string) (value : Value)
  : outcome Value :=
  match path with
  | [] => Ok current
  | [finalKey] =>
      if negb (isEmptyValue value) then Obj.set current finalKey value else Ok current
  | key :: ((nextKey :: _) as rest) =>
      let isNextKeyNumeric := isNumericKey nextKey in
      current' <-
        (if not_a_container (Obj.get current key) then
           Obj.set current key (if isNextKeyNumeric then empty_array else empty_object)
         else if isNextKeyNumeric && negb (isArray (Obj.get current key)) then
           Obj.set current key (keys_to_array (Obj.get current key))
         else Ok current) ;;
      child <- setNestedValue_inline_from (Obj.get current' key) rest value ;;
      Ok (Obj.write_back current' key child)
  end.

Definition setNestedValue_inline (obj : Value) (path : list string) (value : Value)
  : outcome Value :=
  match path with
  | [] => Ok obj
  | _ => setNestedValue_inline_from obj path value
  end.

(** The body of the loop over the groups; the local [normalizeStructure]
    is the algorithm of the module-level one, [convertToArray] written in
    line. *)
Definition process_group_inline (fields : list FieldGroup) : outcome Value :=
  let isArrayStructure :=
    forallb (fun field =>
               match path field with
               | [] => false
               | first :: _ => isNumericKey first
               end) fields in
  if isArrayStructure then
    tempObj <-
      fold_left
        (fun acc field =>
           tempObj <- acc ;; setNestedValue_inline tempObj (path field) (value field))
        fields (Ok empty_object) ;;
    let normalized := normalizeStructure tempObj in
    match normalized with
    | VObject (KArray len) ps => Ok (Obj.of_list (filter keep_item (Obj.elements len ps)))
    | _ => Ok normalized
    end
  else
    obj <-
      fold_left
        (fun acc field =>
           obj <- acc ;; setNestedValue_inline obj (path field) (value field))
        fields (Ok empty_object) ;;
    Ok (normalizeStructure obj).

(** That version writes the value of each group into the object that
    already holds the simple fields. *)
Definition processFormData_inline (entries : list (string * Value))
  : outcome ProcessedFormData :=
  let result :=
    fold_left
      (fun result kv =>
         if is_simple_key (fst kv) then Obj.put (fst kv) (snd kv) result else result)
      entries [] in
  let nestedEntries := filter (fun kv => negb (is_simple_key (fst kv))) entries in
  fieldGroups <- group_entries nestedEntries ;;
  fold_left
    (fun acc group =>
       result <- acc ;;
       v <- process_group_inline (snd group) ;;
       Ok (Obj.put (fst group) v result))
    fieldGroups (Ok result).

(** ** Predicates of the further properties *)

(** Nothing that [current] holds is a container. *)
Definition bare (current : Value) : Prop :=
  forall k, not_a_container (Obj.get current k) = true.

(** No object of the tree lists a key twice. *)
Fixpoint unique_keys (v : Value) : Prop :=
  match v with
  | VObject _ ps =>
      NoDup (Obj.keys ps)
      /\ (fix all_unique (ps : props) : Prop :=
            match ps with
            | [] => True
            | (_, w) :: ps' => unique_keys w /\ all_unique ps'
            end) ps
  | _ => True
  end.

(** The walk of [deleteValue] to the parent of the target finds a
    container at every intermediate segment. *)
Fixpoint reaches_parent (current : Value) (segments : list PathSegment) : bool :=
  match segments with
  | [] => true
  | [_] => true
  | segment :: rest =>
      if not_a_container (Obj.get current (property_key segment)) then false
      else reaches_parent (Obj.get current (property_key segment)) rest
  end.


(** A segment that is a name is not empty and holds no separator. *)
Definition proper_segment (segment : PathSegment) : Prop :=
  match segment with
  | SegName s => s <> EmptyString /\ no_separators s = true
  | SegIndex _ => True
  end.

(** An item of a list group whose index is an array index. *)
Definition indexed_item (item : Z * string) : Prop :=
  (0 <= fst item < 4294967295)%Z.

Definition not_blank (item : Z * string) : bool :=
  negb (Str.trim_is_empty (snd item)).

(** [isArrayStructure] of [processFieldGroups]. *)
Definition isArrayStructure (fields : list FieldGroup) : bool :=
  forallb (fun field => match path field with
                        | [] => false
                        | first :: _ => isNumericKey first
                        end) fields.

(** The simple fields of the entries. *)
Definition simple_entries (entries : list (string * Value)) : list (string * Value) :=
  filter (fun kv => is_simple_key (fst kv)) entries.

(** The path with its separators removed, and the fragments of a path
    written one after the other. *)
Fixpoint strip_separators (s : string) : string :=
  match s with
  | EmptyString => EmptyString
  | String c s' => if Str.is_separator c then strip_separators s' else String c (strip_separators s')
  end.

Definition join (l : list string) : string := fold_right append EmptyString l.

(** A fragment of a path: not empty, and free of separators. *)
Definition proper_fragment (fragment : string) : Prop :=
  fragment <> EmptyString /\ no_separators fragment = true.


(** The value found by following the keys of [path] from [current]. *)
Definition read_path (current : Value) (path : list string) : Value :=
  fold_left Obj.get path current.

(** A key written [root[d1]...[dn]]. *)
Definition bracket_chain (parts : list string) : string :=
  fold_right (fun d acc => ("[" ++ d ++ "]" ++ acc)%string) EmptyString parts.

Definition bracket_key (root : string) (parts : list string) : string :=
  (root ++ bracket_chain parts)%string.

Fixpoint no_brackets (s : string) : bool :=
  match s with
  | EmptyString => true
  | String c s' => negb ((c =? "[")%char || (c =? "]")%char) && no_brackets s'
  end.

(** No array anywhere in the tree. *)
Fixpoint array_free (v : Value) : Prop :=
  match v with
  | VObject kd ps =>
      array_kind kd = false
      /\ (fix all_free (ps : props) : Prop :=
            match ps with
            | [] => True
            | (_, w) :: ps' => array_free w /\ all_free ps'
            end) ps
  | _ => True
  end.





(** The entry [root.name = s] of an object group, the field it
    contributes to the group and the property it sets. *)
Definition named_entry (root : string) (item : string * string) : string * Value :=
  ((root ++ "." ++ fst item)%string, VString (snd item)).

Definition named_field (item : string * string) : FieldGroup :=
  {| path := [fst item]; value := VString (snd item) |}.

Definition named_prop (item : string * string) : string * Value :=
  (fst item, VString (snd item)).

Definition has_text (item : string * string) : bool :=
  negb (Str.trim_is_empty (snd item)).

(** The name of an item is a fragment that is not numeric. *)
Definition proper_name (item : string * string) : Prop :=
  proper_fragment (fst item) /\ isNumericKey (fst item) = false.

(** Values with an index: the property each sets in an object, and the
    values sorted by ascending index. *)
Definition idx_prop (x : Z * Value) : string * Value := (Num.to_string (fst x), snd x).

Fixpoint insert_idx (x : Z * Value) (l : list (Z * Value)) : list (Z * Value) :=
  match l with
  | [] => [x]
  | y :: l' =>
      if (fst x <? fst y)%Z then x :: y :: l'
      else y :: insert_idx x l'
  end.

Definition sort_idx (l : list (Z * Value)) : list (Z * Value) :=
  fold_left (fun acc x => insert_idx x acc) l [].

Definition lt_idx (a b : Z * Value) : Prop := (fst a < fst b)%Z.

Definition in_range (x : Z * Value) : Prop := (0 <= fst x < 4294967295)%Z.

(** A record of a list group: its index and its named fields; the
    entries [root[n].name = s] it stands for, the fields they contribute
    to the group, and the object made of the fields that are not blank. *)
Definition record : Type := Z * list (string * string).

Definition record_entry (root : string) (n : Z) (item : string * string) : string * Value :=
  ((root ++ "[" ++ Num.to_string n ++ "]." ++ fst item)%string, VString (snd item)).

Definition record_entries (root : string) (r : record) : list (string * Value) :=
  map (record_entry root (fst r)) (snd r).

Definition record_field (n : Z) (item : string * string) : FieldGroup :=
  {| path := [Num.to_string n; fst item]; value := VString (snd item) |}.

Definition record_fields (r : record) : list FieldGroup :=
  map (record_field (fst r)) (snd r).

Definition record_object (r : record) : Value :=
  VObject KPlain (map named_prop (filter has_text (snd r))).

Definition has_fields (r : record) : bool :=
  match filter has_text (snd r) with
  | [] => false
  | _ => true
  end.

Definition record_value (r : record) : Z * Value := (fst r, record_object r).

Definition proper_record (r : record) : Prop :=
  (0 <= fst r < 4294967295)%Z
  /\ Forall proper_name (snd r)
  /\ NoDup (map fst (filter has_text (snd r))).

(** The step of the loop that places the records of a list group. *)
Definition keep_record (acc : list (Z * Value)) (r : record) : list (Z * Value) :=
  if has_fields r then insert_idx (record_value r) acc else acc.

(** A path written with dots, and the chain of objects it stands for. *)
Fixpoint dotted (fragments : list string) : string :=
  match fragments with
  | [] => EmptyString
  | [f] => f
  | f :: fragments' => (f ++ "." ++ dotted fragments')%string
  end.

Definition nest (fragments : list string) (v : Value) : Value :=
  fold_right (fun f acc => VObject KPlain [(f, acc)]) v fragments.

(** A fragment that is a name: not numeric. *)
Definition name_fragment (f : string) : Prop :=
  proper_fragment f /\ isNumericKey f = false.

(** An item of a list group as its key writes it: the fragment between
    the brackets and the value.  The entry [root[d] = s] it stands for,
    the field it contributes to the group, the property it sets, the index
    that [parseInt] reads from the fragment, and the item with that
    index. *)
Definition written_entry (root : string) (item : string * string) : string * Value :=
  ((root ++ "[" ++ fst item ++ "]")%string, VString (snd item)).

Definition written_field (item : string * string) : FieldGroup :=
  {| path := [fst item]; value := VString (snd item) |}.

Definition written_prop (item : string * string) : string * Value :=
  (fst item, VString (snd item)).

Definition index_of (fragment : string) : Z :=
  match Num.parseInt fragment with
  | Some n => n
  | None => 0%Z
  end.

Definition read_item (item : string * string) : Z * string :=
  (index_of (fst item), snd item).

(** The fragment of the item is one that [parseInt] reads as an array
    index, and its value is not blank. *)
Definition written_item (item : string * string) : Prop :=
  proper_fragment (fst item)
  /\ isNumericKey (fst item) = true
  /\ valid_item (read_item item).

(** No object of the tree is a [File], whose attributes ([name], [size],
    ...) are read through [File.prototype] and cannot be assigned. *)
Fixpoint file_free (v : Value) : bool :=
  match v with
  | VObject kd ps =>
      match kd with KFile _ => false | _ => true end
      && (fix all_file_free (ps : props) : bool :=
            match ps with
            | [] => true
            | (_, w) :: ps' => file_free w && all_file_free ps'
            end) ps
  | _ => true
  end.

(** No array of the tree owns a property named [map] or [constructor],
    the two members that [Array.prototype.map] looks up on the array it
    is called on. *)
Fixpoint plain_arrays (v : Value) : bool :=
  match v with
  | VObject kd ps =>
      match kd with
      | KArray _ =>
          negb (existsb (fun k => String.eqb k "map" || String.eqb k "constructor")
                        (Obj.keys ps))
      | _ => true
      end
      && (fix all_plain (ps : props) : bool :=
            match ps with
            | [] => true
            | (_, w) :: ps' => plain_arrays w && all_plain ps'
            end) ps
  | _ => true
  end.

(** An index that [parseInt] returns exactly and that is the property
    key written with the same digits: an integer of magnitude at most
    2^53. *)
Definition exact_segment (segment : PathSegment) : bool :=
  match segment with
  | SegIndex z => (Z.abs z <=? 9007199254740992)%Z
  | SegName _ => true
  end.

(** The walk along the segments reads own properties only: on a plain
    object no segment is a name that [Object.prototype] defines, an array
    is indexed by numbers only, and no [File] is met. *)
Fixpoint own_walk (current : Value) (segments : list PathSegment) : bool :=
  match segments with
  | [] => true
  | segment :: rest =>
      match current with
      | VObject kd _ =>
          match kd, segment with
          | KFile _, _ => false
          | KArray _, SegName _ => false
          | _, SegName s => negb (Obj.inherited s)
          | _, SegIndex _ => true
          end
          && own_walk (Obj.get current (property_key segment)) rest
      | _ => true
      end
  end.

(** No fragment of the key is the name ["__proto__"], through which an
    assignment reaches the prototype of an object instead of the
    object. *)
Definition proto_free (key : string) : bool :=
  negb (existsb (String.eqb "__proto__") (Str.fragments key)).

(** * Properties *)

(** ** Evaluation on the examples of the test suites *)

Example parseInt_decimal : Num.parseInt "12" = Some 12%Z.
Proof. reflexivity. Qed.

Example parseInt_signed : Num.parseInt "-1" = Some (-1)%Z.
Proof. reflexivity. Qed.

Example parseInt_name : Num.parseInt "name" = None.
Proof. reflexivity. Qed.

Example parseInt_prefix : Num.parseInt " 7px" = Some 7%Z.
Proof. reflexivity. Qed.

Example parseInt_hex : Num.parseInt "0x1f" = Some 31%Z.
Proof. reflexivity. Qed.

Example fragments_mixed :
  Str.fragments "user.address[0].street" = ["user"; "address"; "0"; "street"].
Proof. reflexivity. Qed.

Example split_keeps_empty : Str.split "a[0]" = ["a"; "0"; EmptyString].
Proof. reflexivity. Qed.

Example array_index_canonical :
  Num.array_index "10" = Some 10%Z /\ Num.array_index "01" = None
  /\ Num.array_index "4294967295" = None.
Proof. repeat split. Qed.

Example parsePath_mixed :
  parsePath "user.address[0].street"
  = Ok [SegName "user"; SegName "address"; SegIndex 0; SegName "street"].
Proof. reflexivity. Qed.

Example build_deep_paths :
  processFormData
    (str_entries [("data[0].items[0].name", "Item 1"); ("data[0].items[1].name", "Item 2");
                  ("data[1].items[0].name", "Item 3")])
  = Ok [("data",
         Obj.of_list
           [VObject KPlain
              [("items", Obj.of_list [VObject KPlain [("name", VString "Item 1")];
                                      VObject KPlain [("name", VString "Item 2")]])];
            VObject KPlain
              [("items", Obj.of_list [VObject KPlain [("name", VString "Item 3")]])]])].
Proof. vm_compute. reflexivity. Qed.

Example build_simple_fields_unchanged :
  processFormData (str_entries [("name", "John"); ("note", EmptyString)])
  = Ok [("name", VString "John"); ("note", VString EmptyString)].
Proof. vm_compute. reflexivity. Qed.

Example delete_missing_intermediate :
  deleteValue (VObject KPlain [("user", VObject KPlain [("name", VString "A")])])
              "user.addresses[0].street"
  = Ok (VObject KPlain [("user", VObject KPlain [("name", VString "A")])]).
Proof. vm_compute. reflexivity. Qed.

Example build_sparse_items :
  processFormData
    (str_entries [("items[0]", "First"); ("items[2]", "Third"); ("items[5]", "Sixth")])
  = Ok [("items", array_of_strings ["First"; "Third"; "Sixth"])].
Proof. vm_compute. reflexivity. Qed.

Example build_filters_empty_tags :
  processFormData (str_entries [("tags[0]", "a"); ("tags[1]", EmptyString); ("tags[2]", "b")])
  = Ok [("tags", array_of_strings ["a"; "b"])].
Proof. vm_compute. reflexivity. Qed.

Example build_drops_empty_profile :
  processFormData
    (str_entries [("profile[0].name", "A"); ("profile[0].email", "a@x.com");
                  ("profile[1].name", EmptyString); ("profile[1].email", EmptyString)])
  = Ok [("profile",
         Obj.of_list [VObject KPlain [("name", VString "A"); ("email", VString "a@x.com")]])].
Proof. vm_compute. reflexivity. Qed.

Example build_empty : processFormData [] = Ok [].
Proof. reflexivity. Qed.

Example delete_last_element :
  deleteValue
    (VObject KPlain
       [("user", VObject KPlain
                   [("addresses", Obj.of_list [VObject KPlain [("street", VString "s")]])])])
    "user.addresses[0]"
  = Ok (VObject KPlain [("user", VObject KPlain [("addresses", empty_array)])]).
Proof. vm_compute. reflexivity. Qed.

(** ** Splitting keys *)

Lemma split_aux_only_separators (s : string) :
  only_separators s = true ->
  filter Str.nonempty (Str.split_aux s EmptyString) = [].
Proof.
  induction s as [|c s IH]; simpl; intros H.
  - reflexivity.
  - apply andb_true_iff in H as [Hc Hs].
    unfold only_separators in IH. rewrite Hc. simpl. auto.
Qed.

Lemma fragments_only_separators (key : string) :
  only_separators key = true -> Str.fragments key = [].
Proof. apply split_aux_only_separators. Qed.

(** ** Classification of fragments *)

Lemma digit_nonneg (c : ascii) (d : Z) : Num.digit c = Some d -> (0 <= d)%Z.
Proof.
  unfold Num.digit. destruct (_ && _)%bool; intros H; inversion H. lia.
Qed.

Lemma hex_digit_nonneg (c : ascii) (d : Z) : Num.hex_digit c = Some d -> (0 <= d)%Z.
Proof.
  unfold Num.hex_digit.
  repeat destruct (_ && _)%bool; intros H; inversion H; lia.
Qed.

Lemma read_digits_nonneg (dig : ascii -> option Z) (radix : Z) :
  (forall c d, dig c = Some d -> (0 <= d)%Z) ->
  (0 <= radix)%Z ->
  forall s acc seen z,
    (0 <= acc)%Z -> Num.read_digits dig radix s acc seen = Some z -> (0 <= z)%Z.
Proof.
  intros Hdig Hradix. induction s as [|c s IH]; simpl; intros acc seen z Hacc H.
  - destruct seen; inversion H; subst; assumption.
  - destruct (dig c) as [d|] eqn:Hd.
    + apply (IH (radix * acc + d)%Z true z); [|exact H].
      specialize (Hdig c d Hd).
      apply Z.add_nonneg_nonneg; [apply Z.mul_nonneg_nonneg|]; assumption.
    + destruct seen; inversion H; subst; assumption.
Qed.

Lemma parseInt_unsigned_nonneg (fragment : string) (z : Z) :
  Num.parseInt fragment = Some z -> has_minus_sign fragment = false -> (0 <= z)%Z.
Proof.
  unfold Num.parseInt, has_minus_sign.
  set (s1 := Str.trim_start fragment). clearbody s1.
  assert (Hread : forall s r, match s with
            | String "0" (String "x" r) => Num.read_digits Num.hex_digit 16 r 0 false
            | String "0" (String "X" r) => Num.read_digits Num.hex_digit 16 r 0 false
            | _ => Num.read_digits Num.digit 10 s 0 false
            end = Some r -> (0 <= r)%Z).
  { intros s r Hs.
    assert (H10 : Num.read_digits Num.digit 10 s 0 false = Some r -> (0 <= r)%Z)
      by (apply read_digits_nonneg; [exact digit_nonneg | lia | lia]).
    assert (H16 : forall t, Num.read_digits Num.hex_digit 16 t 0 false = Some r -> (0 <= r)%Z)
      by (intros t; apply read_digits_nonneg; [exact hex_digit_nonneg | lia | lia]).
    destruct s as [|a s]; [auto|].
    destruct a as [[] [] [] [] [] [] [] []]; try (apply H10; exact Hs).
    destruct s as [|b s]; [apply H10; exact Hs|].
    destruct b as [[] [] [] [] [] [] [] []];
      try (apply H10; exact Hs); apply (H16 s); exact Hs. }
  remember (match s1 with
            | String "-" r => ((-1)%Z, r)
            | String "+" r => (1%Z, r)
            | _ => (1%Z, s1)
            end) as p eqn:Hp.
  destruct p as [sign s2].
  assert (Hsign : match s1 with String "-" _ => true | _ => false end = false -> sign = 1%Z).
  { destruct s1 as [|a s]; [inversion Hp; reflexivity|].
    destruct a as [[] [] [] [] [] [] [] []];
      inversion Hp; subst; first [reflexivity | discriminate]. }
  intros H Hminus. rewrite (Hsign Hminus) in H.
  match type of H with
  | option_map _ ?e = _ => destruct e as [r|] eqn:He; [|discriminate]
  end.
  simpl in H. inversion H; subst. apply Hread in He. destruct r; lia.
Qed.

Lemma classify_classified (fragment : string) : classified fragment (classify fragment).
Proof.
  unfold classify, classified.
  destruct (Num.parseInt fragment) as [z|] eqn:H.
  - split; [reflexivity|]. apply parseInt_unsigned_nonneg. exact H.
  - split; reflexivity.
Qed.

(** C8, as amended: for every path string accepted by [parsePath], the
    segments are the fragments of the path in order; a segment classified
    as an index carries the integer [parseInt] reads from its fragment,
    which is non-negative whenever the fragment bears no minus sign, and a
    segment classified as a name is its fragment unchanged, one on which
    [parseInt] yields NaN. *)
Theorem C8_segments_classified_by_parseInt (path : string) (segments : list PathSegment) :
  parsePath path = Ok segments ->
  Forall2 classified (Str.fragments path) segments.
Proof.
  unfold parsePath.
  destruct (negb (Str.nonempty path)); [discriminate|].
  destruct (Str.includes_dotdot path); [discriminate|].
  intros H. inversion H; subst. clear H.
  induction (Str.fragments path) as [|f fs IH]; simpl; constructor.
  - apply classify_classified.
  - exact IH.
Qed.

Lemma C8_segments_classified_by_parseInt_witness :
  Forall2 classified (Str.fragments "user.address[0].street")
          [SegName "user"; SegName "address"; SegIndex 0; SegName "street"].
Proof.
  apply (C8_segments_classified_by_parseInt "user.address[0].street"). reflexivity.
Defined.

(** C8, as stated, fails on the path "a[-1]": the fragment "-1" bears a
    sign and is classified as the index -1, not as a name. *)
Lemma C8_counterexample :
  parsePath "a[-1]" = Ok [SegName "a"; SegIndex (-1)]
  /\ Str.fragments "a[-1]" = ["a"; "-1"]
  /\ has_minus_sign "-1" = true.
Proof. repeat split. Qed.

(** ** Own properties *)

Section OwnProperties.
Context {A : Type}.
Implicit Types (k : string) (v : A) (ps : list (string * A)).

Lemma lookup_replace_same k v ps :
  Obj.lookup k ps <> None -> Obj.lookup k (Obj.replace k v ps) = Some v.
Proof.
  induction ps as [|[k' v'] ps IH]; simpl; intros H.
  - congruence.
  - destruct (String.eqb k k') eqn:E; simpl.
    + rewrite String.eqb_refl. reflexivity.
    + rewrite E. apply IH. exact H.
Qed.

Lemma lookup_insert_same k v ps :
  Obj.lookup k ps = None -> Obj.lookup k (Obj.insert k v ps) = Some v.
Proof.
  induction ps as [|[k' v'] ps IH]; simpl; intros H.
  - rewrite String.eqb_refl. reflexivity.
  - destruct (String.eqb k k') eqn:E; [discriminate|].
    destruct (Obj.comes_before k k'); simpl.
    + rewrite String.eqb_refl. reflexivity.
    + rewrite E. apply IH. exact H.
Qed.

Lemma lookup_put_same k v ps : Obj.lookup k (Obj.put k v ps) = Some v.
Proof.
  unfold Obj.put. destruct (Obj.lookup k ps) eqn:E.
  - apply lookup_replace_same. congruence.
  - apply lookup_insert_same. exact E.
Qed.

Lemma lookup_replace_other k k' v ps :
  k <> k' -> Obj.lookup k (Obj.replace k' v ps) = Obj.lookup k ps.
Proof.
  intros Hne. induction ps as [|[k0 v0] ps IH]; simpl; [reflexivity|].
  destruct (String.eqb k' k0) eqn:E; simpl.
  - apply String.eqb_eq in E. subst k0.
    apply String.eqb_neq in Hne. rewrite Hne. reflexivity.
  - rewrite IH. reflexivity.
Qed.

Lemma lookup_insert_other k k' v ps :
  k <> k' -> Obj.lookup k (Obj.insert k' v ps) = Obj.lookup k ps.
Proof.
  intros Hne. pose proof Hne as Hb. apply String.eqb_neq in Hb.
  induction ps as [|[k0 v0] ps IH]; simpl.
  - rewrite Hb. reflexivity.
  - destruct (Obj.comes_before k' k0); simpl.
    + rewrite Hb. reflexivity.
    + rewrite IH. reflexivity.
Qed.

Lemma lookup_put_other k k' v ps :
  k <> k' -> Obj.lookup k (Obj.put k' v ps) = Obj.lookup k ps.
Proof.
  intros Hne. unfold Obj.put. destruct (Obj.lookup k' ps).
  - apply lookup_replace_other. exact Hne.
  - apply lookup_insert_other. exact Hne.
Qed.

Lemma keys_replace k v ps :
  Obj.lookup k ps <> None -> Obj.keys (Obj.replace k v ps) = Obj.keys ps.
Proof.
  induction ps as [|[k' v'] ps IH]; simpl; intros H; [reflexivity|].
  destruct (String.eqb k k') eqn:E; simpl.
  - apply String.eqb_eq in E. subst. reflexivity.
  - f_equal. apply IH. exact H.
Qed.

Lemma lookup_None_keys k ps : Obj.lookup k ps = None <-> ~ In k (Obj.keys ps).
Proof.
  induction ps as [|[k' v'] ps IH]; simpl.
  - tauto.
  - destruct (String.eqb k k') eqn:E.
    + apply String.eqb_eq in E. subst. split; [discriminate | tauto].
    + apply String.eqb_neq in E. rewrite IH. intuition congruence.
Qed.

Lemma in_keys_insert k0 k v ps :
  In k0 (Obj.keys (Obj.insert k v ps)) <-> k0 = k \/ In k0 (Obj.keys ps).
Proof.
  induction ps as [|[k' v'] ps IH]; simpl.
  - intuition.
  - destruct (Obj.comes_before k k'); simpl; [intuition|].
    rewrite IH. intuition.
Qed.

Lemma NoDup_keys_insert k v ps :
  ~ In k (Obj.keys ps) -> NoDup (Obj.keys ps) -> NoDup (Obj.keys (Obj.insert k v ps)).
Proof.
  induction ps as [|[k' v'] ps IH]; simpl; intros Hk Hnd.
  - constructor; [intros []|constructor].
  - inversion Hnd as [|? ? Hk' Hnd']; subst.
    destruct (Obj.comes_before k k'); simpl.
    + constructor; [exact Hk | exact Hnd].
    + constructor.
      * rewrite in_keys_insert. intuition.
      * apply IH; intuition.
Qed.

Lemma NoDup_keys_put k v ps :
  NoDup (Obj.keys ps) -> NoDup (Obj.keys (Obj.put k v ps)).
Proof.
  intros Hnd. unfold Obj.put. destruct (Obj.lookup k ps) eqn:E.
  - rewrite keys_replace; [exact Hnd | congruence].
  - apply NoDup_keys_insert; [apply lookup_None_keys; exact E | exact Hnd].
Qed.

Lemma lookup_Some_In k v ps : Obj.lookup k ps = Some v -> In (k, v) ps.
Proof.
  induction ps as [|[k' v'] ps IH]; simpl; [discriminate|].
  destruct (String.eqb k k') eqn:E.
  - apply String.eqb_eq in E. intros H. inversion H; subst. left. reflexivity.
  - intros H. right. apply IH. exact H.
Qed.

Lemma In_lookup_Some k v ps :
  NoDup (Obj.keys ps) -> In (k, v) ps -> Obj.lookup k ps = Some v.
Proof.
  induction ps as [|[k' v'] ps IH]; simpl; intros Hnd Hin; [contradiction|].
  inversion Hnd as [|? ? Hk' Hnd']; subst.
  destruct Hin as [Heq | Hin].
  - inversion Heq; subst. rewrite String.eqb_refl. reflexivity.
  - destruct (String.eqb k k') eqn:E.
    + apply String.eqb_eq in E. subst k'. exfalso. apply Hk'.
      change k with (fst (k, v)). apply in_map. exact Hin.
    + apply IH; assumption.
Qed.

Lemma lookup_rev k ps :
  NoDup (Obj.keys ps) -> Obj.lookup k (rev ps) = Obj.lookup k ps.
Proof.
  intros Hnd.
  assert (Hrev : NoDup (Obj.keys (rev ps)))
    by (unfold Obj.keys; rewrite map_rev; apply NoDup_rev; exact Hnd).
  destruct (Obj.lookup k ps) as [v|] eqn:E.
  - apply In_lookup_Some; [exact Hrev|]. apply in_rev. rewrite rev_involutive.
    apply lookup_Some_In. exact E.
  - apply lookup_None_keys. apply lookup_None_keys in E.
    unfold Obj.keys in *. rewrite map_rev, <- in_rev. exact E.
Qed.

Lemma lookup_app k ps qs :
  Obj.lookup k (ps ++ qs) =
  match Obj.lookup k ps with
  | Some v => Some v
  | None => Obj.lookup k qs
  end.
Proof.
  induction ps as [|[k' v'] ps IH]; simpl; [reflexivity|].
  destruct (String.eqb k k'); [reflexivity | exact IH].
Qed.

(** The fold of [put] over a list of entries keeps, for each key, the
    last value written. *)
Lemma lookup_fold_put k (l acc : list (string * A)) :
  Obj.lookup k (fold_left (fun acc kv => Obj.put (fst kv) (snd kv) acc) l acc) =
  match Obj.lookup k (rev l) with
  | Some v => Some v
  | None => Obj.lookup k acc
  end.
Proof.
  revert acc. induction l as [|[k' v'] l IH]; intros acc; simpl; [reflexivity|].
  rewrite IH, lookup_app. destruct (Obj.lookup k (rev l)); [reflexivity|].
  simpl. destruct (String.eqb k k') eqn:E.
  - apply String.eqb_eq in E. subst. apply lookup_put_same.
  - apply lookup_put_other. apply String.eqb_neq. exact E.
Qed.

Lemma NoDup_keys_fold_put (l acc : list (string * A)) :
  NoDup (Obj.keys acc) ->
  NoDup (Obj.keys (fold_left (fun acc kv => Obj.put (fst kv) (snd kv) acc) l acc)).
Proof.
  revert acc. induction l as [|kv l IH]; intros acc Hnd; simpl; [exact Hnd|].
  apply IH, NoDup_keys_put, Hnd.
Qed.

Lemma Forall_replace (P : string * A -> Prop) k v ps :
  Forall P ps -> P (k, v) -> Forall P (Obj.replace k v ps).
Proof.
  induction 1 as [|[k' v'] ps Hp Hps IH]; simpl; intros Hkv; [constructor|].
  destruct (String.eqb k k'); constructor; auto.
Qed.

Lemma Forall_insert (P : string * A -> Prop) k v ps :
  Forall P ps -> P (k, v) -> Forall P (Obj.insert k v ps).
Proof.
  induction 1 as [|[k' v'] ps Hp Hps IH]; simpl; intros Hkv; [repeat constructor; exact Hkv|].
  destruct (Obj.comes_before k k'); repeat constructor; auto.
Qed.

Lemma Forall_put (P : string * A -> Prop) k v ps :
  Forall P ps -> P (k, v) -> Forall P (Obj.put k v ps).
Proof.
  intros Hps Hkv. unfold Obj.put.
  destruct (Obj.lookup k ps); [apply Forall_replace | apply Forall_insert]; assumption.
Qed.

End OwnProperties.

Lemma to_string_not_length (z : Z) : Num.to_string z <> "length".
Proof.
  unfold Num.to_string. destruct z as [|p|p]; simpl; try discriminate.
  destruct (Pos.to_uint p); simpl; discriminate.
Qed.

Lemma to_string_eqb_length (z : Z) : String.eqb (Num.to_string z) "length" = false.
Proof. apply String.eqb_neq, to_string_not_length. Qed.

Lemma set_object_ok (kd : kind) (ps : props) (k : string) (v : Value) :
  String.eqb k "length" = false ->
  Obj.set (VObject kd ps) k v = Ok (Obj.assign kd ps k v).
Proof. intros H. simpl. rewrite H. destruct kd; reflexivity. Qed.

Lemma assign_is_object (kd : kind) (ps : props) (k : string) (v : Value) :
  exists kd' ps', Obj.assign kd ps k v = VObject kd' ps'.
Proof.
  unfold Obj.assign. destruct kd; try (eexists; eexists; reflexivity).
  destruct (Num.array_index k); eexists; eexists; reflexivity.
Qed.

Lemma get_assign_same (kd : kind) (ps : props) (k : string) (v : Value) :
  String.eqb k "length" = false ->
  Obj.get (Obj.assign kd ps k v) k = v.
Proof.
  intros H. unfold Obj.assign.
  destruct kd; try destruct (Num.array_index k); simpl;
    rewrite ?H, lookup_put_same; reflexivity.
Qed.

Lemma container_is_object (v : Value) :
  not_a_container v = false -> exists kd ps, v = VObject kd ps.
Proof.
  destruct v; unfold not_a_container; simpl; rewrite ?orb_true_r; try discriminate.
  intros _. eexists; eexists; reflexivity.
Qed.

(** ** The errors of the accessors *)

Lemma property_key_classify_not_length (fragment : string) :
  fragment <> "length" ->
  String.eqb (property_key (classify fragment)) "length" = false.
Proof.
  intros H. unfold classify. destruct (Num.parseInt fragment); simpl.
  - apply to_string_eqb_length.
  - apply String.eqb_neq. exact H.
Qed.

Lemma keys_not_length (fragments : list string) :
  ~ In "length" fragments ->
  Forall (fun s => String.eqb (property_key s) "length" = false) (map classify fragments).
Proof.
  induction fragments as [|f fs IH]; simpl; intros H; constructor.
  - apply property_key_classify_not_length. intros ->. apply H. left. reflexivity.
  - apply IH. intros Hin. apply H. right. exact Hin.
Qed.

Lemma setValue_from_step (current : Value) (segment nextSegment : PathSegment)
      (rest : list PathSegment) (value : Value) :
  setValue_from current (segment :: nextSegment :: rest) value =
  (current' <-
     (if not_a_container (Obj.get current (property_key segment)) then
        Obj.set current (property_key segment)
                (if is_number nextSegment then empty_array else empty_object)
      else Ok current) ;;
   child <- setValue_from (Obj.get current' (property_key segment))
                          (nextSegment :: rest) value ;;
   Ok (Obj.write_back current' (property_key segment) child)).
Proof. reflexivity. Qed.

Lemma setValue_from_object (segments : list PathSegment) (value : Value) :
  Forall (fun s => String.eqb (property_key s) "length" = false) segments ->
  forall kd ps, exists kd' ps',
    setValue_from (VObject kd ps) segments value = Ok (VObject kd' ps').
Proof.
  induction segments as [|segment rest IH]; intros Hkeys kd ps.
  - simpl. destruct kd; eexists; eexists; reflexivity.
  - inversion Hkeys as [|? ? Hk Hrest]; subst.
    destruct rest as [|nextSegment rest'].
    + cbn [setValue_from]. rewrite (set_object_ok _ _ _ _ Hk).
      destruct (assign_is_object kd ps (property_key segment) value) as (kd' & ps' & ->).
      eexists; eexists; reflexivity.
    + rewrite setValue_from_step.
      destruct (not_a_container (Obj.get (VObject kd ps) (property_key segment))) eqn:Hc.
      * rewrite (set_object_ok _ _ _ _ Hk). cbn [bind].
        rewrite (get_assign_same _ _ _ _ Hk).
        destruct (assign_is_object kd ps (property_key segment)
                    (if is_number nextSegment then empty_array else empty_object))
          as (kd1 & ps1 & ->).
        assert (Hfresh : exists kd0, (if is_number nextSegment then empty_array else empty_object)
                                     = VObject kd0 [])
          by (destruct (is_number nextSegment); eexists; reflexivity).
        destruct Hfresh as (kd0 & ->).
        destruct (IH Hrest kd0 []) as (kd' & ps' & ->).
        cbn. eexists; eexists; reflexivity.
      * cbn [bind].
        destruct (container_is_object _ Hc) as (kd0 & ps0 & ->).
        destruct (IH Hrest kd0 ps0) as (kd' & ps' & ->).
        cbn. eexists; eexists; reflexivity.
Qed.

Lemma segments_in_range (fragments : list string) :
  Forall index_in_range fragments -> Forall segment_in_range (map classify fragments).
Proof.
  induction 1 as [|f fs Hf _ IH]; simpl; constructor; [|exact IH].
  unfold index_in_range in Hf. unfold classify.
  destruct (Num.parseInt f); simpl; auto.
Qed.

Lemma set_length_number (len z : Z) (ps : props) :
  (0 <= z < 4294967296)%Z ->
  Obj.set (VObject (KArray len) ps) "length" (VNumber z)
  = Ok (VObject (KArray z) (Obj.truncate z ps)).
Proof.
  intros Hz. unfold Obj.set, Obj.to_length.
  assert (Hr : ((0 <=? z) && (z <? 4294967296))%Z = true)
    by (apply andb_true_iff; split; [apply Z.leb_le | apply Z.ltb_lt]; lia).
  rewrite Hr. reflexivity.
Qed.

Lemma delete_last_object (kd : kind) (ps : props) (lastSegment : option PathSegment) :
  match lastSegment with
  | Some s => String.eqb (property_key s) "length" = false /\ segment_in_range s
  | None => True
  end ->
  exists kd' ps', delete_last (VObject kd ps) lastSegment = Ok (VObject kd' ps').
Proof.
  intros H. unfold delete_last.
  set (key := match lastSegment with Some s => property_key s | None => "undefined" end).
  assert (Hkey : String.eqb key "length" = false)
    by (subst key; destruct lastSegment as [s|]; [apply H | reflexivity]).
  assert (Hdel : Obj.delete (VObject kd ps) key = Ok (VObject kd (Obj.remove key ps)))
    by (simpl; destruct kd; rewrite ?Hkey; reflexivity).
  rewrite Hdel. cbn [bind].
  destruct kd as [|len|name]; try (eexists; eexists; reflexivity).
  destruct lastSegment as [[s|z]|]; try (eexists; eexists; reflexivity).
  destruct (existsb _ _); [eexists; eexists; reflexivity|].
  destruct H as [_ Hz]. simpl in Hz.
  rewrite (set_length_number _ _ _ Hz). eexists; eexists; reflexivity.
Qed.

Lemma deleteValue_from_step (current : Value) (segment nextSegment : PathSegment)
      (rest : list PathSegment) :
  deleteValue_from current (segment :: nextSegment :: rest) =
  if not_a_container (Obj.get current (property_key segment)) then Ok current
  else
    child <- deleteValue_from (Obj.get current (property_key segment)) (nextSegment :: rest) ;;
    Ok (Obj.write_back current (property_key segment) child).
Proof. reflexivity. Qed.

Lemma deleteValue_from_object (segments : list PathSegment) :
  Forall (fun s => String.eqb (property_key s) "length" = false) segments ->
  Forall segment_in_range segments ->
  forall kd ps, exists kd' ps',
    deleteValue_from (VObject kd ps) segments = Ok (VObject kd' ps').
Proof.
  induction segments as [|segment rest IH]; intros Hkeys Hrange kd ps.
  - apply (delete_last_object kd ps None). exact I.
  - inversion Hkeys as [|? ? Hk Hkrest]; subst.
    inversion Hrange as [|? ? Hr Hrrest]; subst.
    destruct rest as [|nextSegment rest'].
    + apply (delete_last_object kd ps (Some segment)). split; assumption.
    + rewrite deleteValue_from_step.
      destruct (not_a_container (Obj.get (VObject kd ps) (property_key segment))) eqn:Hc.
      * eexists; eexists; reflexivity.
      * destruct (container_is_object _ Hc) as (kd0 & ps0 & ->).
        destruct (IH Hkrest Hrrest kd0 ps0) as (kd' & ps' & ->).
        cbn. eexists; eexists; reflexivity.
Qed.

Lemma parsePath_cases (path : string) :
  parsePath path = Throw InvalidPath
  \/ parsePath path = Ok (map classify (Str.fragments path)).
Proof.
  unfold parsePath.
  destruct (negb (Str.nonempty path)); [left; reflexivity|].
  destruct (Str.includes_dotdot path); [left | right]; reflexivity.
Qed.

(** On a root object, [setValue] raises none but the two errors of the
    module when no fragment of the path is the name "length", and neither
    does [deleteValue] when moreover every numeric fragment lies in
    0 .. 2^32 - 1. *)
Lemma accessor_errors_on_plain_paths :
  (forall kd ps path value,
      ~ In "length" (Str.fragments path) ->
      accessor_error_only (setValue (VObject kd ps) path value))
  /\ (forall kd ps path,
         ~ In "length" (Str.fragments path) ->
         Forall index_in_range (Str.fragments path) ->
         accessor_error_only (deleteValue (VObject kd ps) path)).
Proof.
  split.
  - intros kd ps path value Hlen. unfold setValue. cbn [truthy negb].
    destruct (parsePath_cases path) as [-> | ->]; [simpl; auto|]. cbn [bind].
    destruct (setValue_from_object _ value (keys_not_length _ Hlen) kd ps)
      as (kd' & ps' & ->).
    exact I.
  - intros kd ps path Hlen Hrange. unfold deleteValue. cbn [truthy negb].
    destruct (parsePath_cases path) as [-> | ->]; [simpl; auto|]. cbn [bind].
    destruct (deleteValue_from_object _ (keys_not_length _ Hlen)
                (segments_in_range _ Hrange) kd ps) as (kd' & ps' & ->).
    exact I.
Qed.


(** ** [processFormData] returns *)

Lemma assign_array (len : Z) (ps : props) (k : string) (v : Value) :
  exists len' ps', Obj.assign (KArray len) ps k v = VObject (KArray len') ps'.
Proof.
  unfold Obj.assign. destruct (Num.array_index k); eexists; eexists; reflexivity.
Qed.

Lemma convert_normalized_is_array (nobj : props) :
  exists len ps, convert_normalized nobj = VObject (KArray len) ps.
Proof.
  unfold convert_normalized.
  set (step := fun (array : Value) (key : string) => _).
  assert (Hfold : forall keys array,
             (exists len ps, array = VObject (KArray len) ps) ->
             exists len ps, fold_left step keys array = VObject (KArray len) ps).
  { induction keys as [|key keys IH]; intros array Harr; [exact Harr|].
    simpl. apply IH. destruct Harr as (len & ps & ->). subst step. cbv beta.
    apply assign_array. }
  destruct (Hfold (sort_keys (Obj.keys nobj)) empty_array) as (len & ps & ->).
  - eexists; eexists; reflexivity.
  - unfold Obj.of_list. eexists; eexists; reflexivity.
Qed.

Lemma convertToArray_is_array (obj : props) :
  exists len ps, convertToArray obj = VObject (KArray len) ps.
Proof. apply convert_normalized_is_array. Qed.

Lemma setNestedValue_from_step (current : Value) (key nextKey : string)
      (rest : list string) (value : Value) :
  setNestedValue_from current (key :: nextKey :: rest) value =
  (current' <-
     (if not_a_container (Obj.get current key) then
        Obj.set current key (if isNumericKey nextKey then empty_array else empty_object)
      else if isNumericKey nextKey && negb (isArray (Obj.get current key)) then
        Obj.set current key (convertToArray (props_of (Obj.get current key)))
      else Ok current) ;;
   child <- setNestedValue_from (Obj.get current' key) (nextKey :: rest) value ;;
   Ok (Obj.write_back current' key child)).
Proof. reflexivity. Qed.

Lemma setNestedValue_from_object (path : list string) (value : Value) :
  ~ In "length" path ->
  forall kd ps, exists kd' ps',
    setNestedValue_from (VObject kd ps) path value = Ok (VObject kd' ps').
Proof.
  induction path as [|key rest IH]; intros Hlen kd ps.
  - eexists; eexists; reflexivity.
  - assert (Hk : String.eqb key "length" = false)
      by (apply String.eqb_neq; intros ->; apply Hlen; left; reflexivity).
    assert (Hrest : ~ In "length" rest) by (intros Hin; apply Hlen; right; exact Hin).
    destruct rest as [|nextKey rest'].
    + cbn [setNestedValue_from]. rewrite (set_object_ok _ _ _ _ Hk).
      destruct (assign_is_object kd ps key value) as (kd' & ps' & ->).
      eexists; eexists; reflexivity.
    + rewrite setNestedValue_from_step.
      destruct (not_a_container (Obj.get (VObject kd ps) key)) eqn:Hc.
      * rewrite (set_object_ok _ _ _ _ Hk). cbn [bind].
        rewrite (get_assign_same _ _ _ _ Hk).
        destruct (assign_is_object kd ps key
                    (if isNumericKey nextKey then empty_array else empty_object))
          as (kd1 & ps1 & ->).
        assert (Hfresh : exists kd0, (if isNumericKey nextKey then empty_array else empty_object)
                                     = VObject kd0 [])
          by (destruct (isNumericKey nextKey); eexists; reflexivity).
        destruct Hfresh as (kd0 & ->).
        destruct (IH Hrest kd0 []) as (kd' & ps' & ->).
        cbn. eexists; eexists; reflexivity.
      * destruct (isNumericKey nextKey && negb (isArray (Obj.get (VObject kd ps) key))).
        -- rewrite (set_object_ok _ _ _ _ Hk). cbn [bind].
           rewrite (get_assign_same _ _ _ _ Hk).
           destruct (convertToArray_is_array (props_of (Obj.get (VObject kd ps) key)))
             as (len0 & ps0 & ->).
           destruct (assign_is_object kd ps key (VObject (KArray len0) ps0))
             as (kd1 & ps1 & ->).
           destruct (IH Hrest (KArray len0) ps0) as (kd' & ps' & ->).
           cbn. eexists; eexists; reflexivity.
        -- cbn [bind].
           destruct (container_is_object _ Hc) as (kd0 & ps0 & ->).
           destruct (IH Hrest kd0 ps0) as (kd' & ps' & ->).
           cbn. eexists; eexists; reflexivity.
Qed.

Lemma setNestedValue_object (path : list string) (value : Value) (kd : kind) (ps : props) :
  ~ In "length" path ->
  exists kd' ps', setNestedValue (VObject kd ps) path value = Ok (VObject kd' ps').
Proof.
  intros Hlen. unfold setNestedValue.
  destruct path as [|key rest]; [eexists; eexists; reflexivity|].
  destruct (isEmptyValue value); [eexists; eexists; reflexivity|].
  apply setNestedValue_from_object. exact Hlen.
Qed.

Lemma fold_place_field_object (fields : list FieldGroup) :
  Forall safe_field fields ->
  forall kd ps, exists kd' ps',
    fold_left place_field fields (Ok (VObject kd ps)) = Ok (VObject kd' ps').
Proof.
  induction 1 as [|field fields Hf _ IH]; intros kd ps.
  - eexists; eexists; reflexivity.
  - simpl.
    destruct (setNestedValue_object (path field) (value field) kd ps Hf)
      as (kd1 & ps1 & ->).
    apply IH.
Qed.

Lemma fold_place_field_skipped (fields : list FieldGroup) (tempObj : Value) :
  Forall (fun field => skipped field = true) fields ->
  fold_left place_field fields (Ok tempObj) = Ok tempObj.
Proof.
  induction 1 as [|field fields Hf _ IH]; [reflexivity|].
  simpl. unfold setNestedValue, skipped in *.
  destruct (path field); [exact IH|]. rewrite Hf. exact IH.
Qed.

Lemma process_group_unfold (fields : list FieldGroup) :
  process_group fields =
  (tempObj <- fold_left place_field fields (Ok empty_object) ;;
   match normalizeStructure tempObj with
   | VObject (KArray len) ps =>
       if forallb (fun field => match path field with
                                | [] => false
                                | first :: _ => isNumericKey first
                                end) fields
       then Ok (Obj.of_list (filter keep_item (Obj.elements len ps)))
       else Ok (normalizeStructure tempObj)
   | _ => Ok (normalizeStructure tempObj)
   end).
Proof. reflexivity. Qed.

Lemma process_group_returns (fields : list FieldGroup) :
  Forall safe_field fields -> exists v, process_group fields = Ok v.
Proof.
  intros Hsafe. rewrite process_group_unfold. unfold empty_object.
  destruct (fold_place_field_object fields Hsafe KPlain []) as (kd & ps & ->).
  cbn [bind]. destruct (normalizeStructure (VObject kd ps)) as [| | | |[|len|name] ps'];
    try (eexists; reflexivity).
  destruct (forallb _ fields); eexists; reflexivity.
Qed.

Lemma process_group_all_skipped (fields : list FieldGroup) :
  Forall (fun field => skipped field = true) fields ->
  process_group fields = Ok empty_object.
Proof.
  intros H. rewrite process_group_unfold, (fold_place_field_skipped _ _ H). reflexivity.
Qed.

Lemma processFieldGroups_unfold (fieldGroups : FieldGroups) :
  processFieldGroups fieldGroups = fold_left emit_group fieldGroups (Ok []).
Proof. reflexivity. Qed.

Lemma fold_emit_group_throw (groups : FieldGroups) (e : error) :
  fold_left emit_group groups (Throw e) = Throw e.
Proof. induction groups as [|g groups IH]; [reflexivity | exact IH]. Qed.

Lemma fold_emit_group_returns (groups : FieldGroups) :
  Forall (fun group => Forall safe_field (snd group)) groups ->
  forall result, exists out, fold_left emit_group groups (Ok result) = Ok out.
Proof.
  induction 1 as [|group groups Hg _ IH]; intros result.
  - eexists; reflexivity.
  - simpl. destruct (process_group_returns _ Hg) as (v & ->). apply IH.
Qed.

Lemma fold_emit_group_other (groups : FieldGroups) (k : string) :
  ~ In k (Obj.keys groups) ->
  forall result out,
    fold_left emit_group groups (Ok result) = Ok out ->
    Obj.lookup k out = Obj.lookup k result.
Proof.
  induction groups as [|[k0 fs0] groups IH]; simpl; intros Hk result out H.
  - inversion H; reflexivity.
  - destruct (process_group fs0) as [v0|e]; cbn [bind] in H.
    + rewrite (IH ltac:(tauto) _ _ H). apply lookup_put_other. intuition.
    + rewrite fold_emit_group_throw in H. discriminate.
Qed.

Lemma fold_emit_group_lookup (groups : FieldGroups) (k : string) (fs : list FieldGroup) :
  NoDup (Obj.keys groups) ->
  Obj.lookup k groups = Some fs ->
  forall result out,
    fold_left emit_group groups (Ok result) = Ok out ->
    exists v, process_group fs = Ok v /\ Obj.lookup k out = Some v.
Proof.
  induction groups as [|[k0 fs0] groups IH]; simpl; intros Hnd Hk result out H;
    [discriminate|].
  inversion Hnd as [|? ? Hk0 Hnd']; subst.
  destruct (process_group fs0) as [v0|e] eqn:Hp; cbn [bind] in H;
    [|rewrite fold_emit_group_throw in H; discriminate].
  destruct (String.eqb k k0) eqn:E.
  - apply String.eqb_eq in E. subst k0. inversion Hk; subst fs0.
    exists v0. split; [exact Hp|].
    rewrite (fold_emit_group_other _ _ Hk0 _ _ H). apply lookup_put_same.
  - apply (IH Hnd' Hk _ _ H).
Qed.

Lemma fold_emit_group_NoDup (groups : FieldGroups) :
  forall result out,
    NoDup (Obj.keys result) ->
    fold_left emit_group groups (Ok result) = Ok out ->
    NoDup (Obj.keys out).
Proof.
  induction groups as [|[k0 fs0] groups IH]; simpl; intros result out Hnd H.
  - inversion H; subst. exact Hnd.
  - destruct (process_group fs0) as [v0|e]; cbn [bind] in H;
      [|rewrite fold_emit_group_throw in H; discriminate].
    apply (IH _ _ (NoDup_keys_put _ _ _ Hnd) H).
Qed.

Lemma grouped_unfold (nestedEntries : list (string * Value)) :
  grouped nestedEntries = fold_left add_to_group nestedEntries [].
Proof. reflexivity. Qed.

Lemma fold_add_to_group_NoDup (es : list (string * Value)) (acc : FieldGroups) :
  NoDup (Obj.keys acc) -> NoDup (Obj.keys (fold_left add_to_group es acc)).
Proof.
  revert acc. induction es as [|kv es IH]; intros acc Hnd; simpl; [exact Hnd|].
  apply IH. unfold add_to_group. apply NoDup_keys_put. exact Hnd.
Qed.

Lemma fold_add_to_group_safe (es : list (string * Value)) :
  Forall safe_entry es ->
  forall acc,
    Forall (fun group => Forall safe_field (snd group)) acc ->
    Forall (fun group => Forall safe_field (snd group)) (fold_left add_to_group es acc).
Proof.
  induction 1 as [|kv es Hkv _ IH]; intros acc Hacc; simpl; [exact Hacc|].
  apply IH. unfold add_to_group. apply Forall_put; [exact Hacc|].
  simpl. apply Forall_app. split; [|repeat constructor; exact Hkv].
  destruct (Obj.lookup _ acc) as [fs|] eqn:E; [|constructor].
  apply lookup_Some_In in E. rewrite Forall_forall in Hacc.
  apply (Hacc _ E).
Qed.

Lemma fold_add_to_group_lookup (b : string) (es : list (string * Value)) :
  forall acc,
    Obj.lookup b (fold_left add_to_group es acc) =
    match Obj.lookup b acc, map to_field (filter (same_base b) es) with
    | Some fs, new => Some (fs ++ new)
    | None, [] => None
    | None, new => Some new
    end.
Proof.
  induction es as [|kv es IH]; intros acc; simpl.
  - destruct (Obj.lookup b acc); [rewrite app_nil_r|]; reflexivity.
  - rewrite IH. unfold add_to_group at 1.
    destruct (same_base b kv) eqn:E; unfold same_base in E.
    + apply String.eqb_eq in E. rewrite E, lookup_put_same. simpl.
      destruct (Obj.lookup b acc); [rewrite <- app_assoc|]; reflexivity.
    + rewrite lookup_put_other; [reflexivity|].
      apply String.eqb_neq in E. congruence.
Qed.

Lemma filter_filter {A : Type} (f g : A -> bool) (l : list A) :
  filter f (filter g l) = filter (fun x => g x && f x) l.
Proof.
  induction l as [|x l IH]; simpl; [reflexivity|].
  destruct (g x); simpl; [destruct (f x)|]; rewrite IH; reflexivity.
Qed.

(** The group of a root key holds the fields of the path-bearing entries
    with that root key, in their order. *)
Lemma grouped_lookup (b : string) (entries : list (string * Value)) :
  Obj.lookup b (grouped (filter (fun kv => negb (is_simple_key (fst kv))) entries)) =
  match map to_field (filter (in_group b) entries) with
  | [] => None
  | fields => Some fields
  end.
Proof.
  rewrite grouped_unfold, fold_add_to_group_lookup, filter_filter. reflexivity.
Qed.

Lemma grouped_NoDup (nestedEntries : list (string * Value)) :
  NoDup (Obj.keys (grouped nestedEntries)).
Proof. apply fold_add_to_group_NoDup. constructor. Qed.

Lemma group_entries_fold (nestedEntries : list (string * Value)) :
  group_entries nestedEntries = fold_left add_entry nestedEntries (Ok []).
Proof. reflexivity. Qed.

Lemma fold_add_entry_throw (es : list (string * Value)) (e : error) :
  fold_left add_entry es (Throw e) = Throw e.
Proof. induction es as [|kv es IH]; [reflexivity | exact IH]. Qed.

Lemma fold_add_entry (es : list (string * Value)) :
  forall acc,
    Forall (fun group => Obj.inherited (fst group) = false) acc ->
    fold_left add_entry es (Ok acc) =
    if existsb inherited_base es then Throw TypeError
    else Ok (fold_left add_to_group es acc).
Proof.
  induction es as [|kv es IH]; intros acc Hacc; [reflexivity|].
  cbn [fold_left existsb]. unfold inherited_base at 1.
  unfold add_entry at 2. cbn [bind].
  set (b := base_name (Str.fragments (fst kv))).
  destruct (Obj.inherited b) eqn:Hb.
  - assert (Hnone : Obj.lookup b acc = None).
    { destruct (Obj.lookup b acc) as [fs|] eqn:E; [|reflexivity].
      apply lookup_Some_In in E. rewrite Forall_forall in Hacc.
      specialize (Hacc _ E). simpl in Hacc. congruence. }
    rewrite Hnone. cbn [orb]. apply fold_add_entry_throw.
  - cbn [orb].
    assert (Hstep : match Obj.lookup b acc with
                    | Some fields =>
                        Ok (Obj.put b (fields ++ [{| path := tl (Str.fragments (fst kv));
                                                     value := snd kv |}]) acc)
                    | None => Ok (Obj.put b [{| path := tl (Str.fragments (fst kv));
                                                value := snd kv |}] acc)
                    end = Ok (add_to_group acc kv)).
    { unfold add_to_group, to_field. fold b. destruct (Obj.lookup b acc); reflexivity. }
    rewrite Hstep. apply IH. unfold add_to_group. fold b.
    apply Forall_put; [exact Hacc | exact Hb].
Qed.

(** [group_entries] raises a TypeError when the base name of an entry is
    a name that [Object.prototype] defines, and otherwise returns the
    groups. *)
Lemma group_entries_unfold (nestedEntries : list (string * Value)) :
  group_entries nestedEntries =
  if existsb inherited_base nestedEntries then Throw TypeError
  else Ok (grouped nestedEntries).
Proof. rewrite group_entries_fold. apply fold_add_entry. constructor. Qed.

Lemma processFormData_unfold (entries : list (string * Value)) :
  processFormData entries =
  if existsb inherited_base (filter (fun kv => negb (is_simple_key (fst kv))) entries)
  then Throw TypeError
  else
    (groups <- processFieldGroups
                 (grouped (filter (fun kv => negb (is_simple_key (fst kv))) entries)) ;;
     Ok (spread
           (fold_left
              (fun result kv =>
                 if is_simple_key (fst kv) then Obj.put (fst kv) (snd kv) result else result)
              entries [])
           groups)).
Proof.
  unfold processFormData. rewrite group_entries_unfold.
  destruct (existsb inherited_base _); reflexivity.
Qed.

(** [processFormData] raises a TypeError on every batch that holds a
    path-bearing entry whose base name is a name that [Object.prototype]
    defines. *)
Lemma processFormData_inherited_base (entries : list (string * Value))
      (kv : string * Value) :
  In kv entries ->
  is_simple_key (fst kv) = false ->
  inherited_base kv = true ->
  processFormData entries = Throw TypeError.
Proof.
  intros Hin Hs Hb. rewrite processFormData_unfold.
  assert (H : existsb inherited_base
                      (filter (fun kv => negb (is_simple_key (fst kv))) entries) = true).
  { apply existsb_exists. exists kv. split; [|exact Hb].
    apply filter_In. split; [exact Hin|]. rewrite Hs. reflexivity. }
  rewrite H. reflexivity.
Qed.

Example build_raises_on_inherited_base :
  processFormData (str_entries [("constructor.x", "v")]) = Throw TypeError
  /\ processFormData (str_entries [("toString[0]", "v")]) = Throw TypeError.
Proof. split; reflexivity. Qed.

Lemma processFormData_safe (entries : list (string * Value)) :
  existsb inherited_base (filter (fun kv => negb (is_simple_key (fst kv))) entries) = false ->
  processFormData entries =
  (groups <- processFieldGroups
               (grouped (filter (fun kv => negb (is_simple_key (fst kv))) entries)) ;;
   Ok (spread
         (fold_left
            (fun result kv =>
               if is_simple_key (fst kv) then Obj.put (fst kv) (snd kv) result else result)
            entries [])
         groups)).
Proof. intros H. rewrite processFormData_unfold, H. reflexivity. Qed.

Lemma processFormData_Ok_base (entries : list (string * Value)) (out : ProcessedFormData) :
  processFormData entries = Ok out ->
  existsb inherited_base (filter (fun kv => negb (is_simple_key (fst kv))) entries) = false.
Proof.
  rewrite processFormData_unfold. destruct (existsb inherited_base _); [discriminate|].
  reflexivity.
Qed.

Lemma lookup_spread (k : string) (a b : props) :
  NoDup (Obj.keys b) ->
  Obj.lookup k (spread a b) =
  match Obj.lookup k b with
  | Some v => Some v
  | None => Obj.lookup k (rev a)
  end.
Proof.
  intros Hnd. unfold spread.
  rewrite lookup_fold_put, rev_app_distr, lookup_app, (lookup_rev _ _ Hnd).
  destruct (Obj.lookup k b); [reflexivity|].
  destruct (Obj.lookup k (rev a)); reflexivity.
Qed.

(** The value of every group appears in the output under its root key. *)
Lemma processFormData_group (entries : list (string * Value)) (out : ProcessedFormData)
      (key : string) (v : Value) :
  processFormData entries = Ok out ->
  In (key, v) entries ->
  is_simple_key key = false ->
  exists w,
    process_group (map to_field (filter (in_group (base_name (Str.fragments key))) entries))
    = Ok w
    /\ Obj.lookup (base_name (Str.fragments key)) out = Some w.
Proof.
  intros Hout Hin Hnested.
  rewrite (processFormData_safe _ (processFormData_Ok_base _ _ Hout)) in Hout.
  set (b := base_name (Str.fragments key)).
  set (nested := filter _ entries) in Hout.
  destruct (processFieldGroups (grouped nested)) as [gout|e] eqn:Hg;
    [|discriminate].
  cbn [bind] in Hout. inversion Hout; subst out. clear Hout.
  rewrite processFieldGroups_unfold in Hg.
  assert (Hmem : In (key, v) (filter (in_group b) entries)).
  { apply filter_In. split; [exact Hin|]. unfold in_group. simpl.
    rewrite Hnested. subst b. rewrite String.eqb_refl. reflexivity. }
  assert (Hlook : Obj.lookup b (grouped nested)
                  = Some (map to_field (filter (in_group b) entries))).
  { subst nested. rewrite grouped_lookup.
    destruct (filter (in_group b) entries); [contradiction | reflexivity]. }
  destruct (fold_emit_group_lookup _ _ _ (grouped_NoDup nested) Hlook _ _ Hg)
    as (w & Hw & Hgout).
  exists w. split; [exact Hw|].
  rewrite lookup_spread, Hgout; [reflexivity|].
  apply (fold_emit_group_NoDup _ [] _ (NoDup_nil _) Hg).
Qed.

Lemma ordinary_not_length (l : list string) :
  forallb ordinary_key l = true -> ~ In "length" l.
Proof.
  intros H Hin. rewrite forallb_forall in H. specialize (H _ Hin).
  unfold ordinary_key in H. cbn in H. discriminate.
Qed.

(** [processFormData] raises no error and returns a result for the
    whole batch when every entry is regular. *)
Lemma processFormData_returns (entries : list (string * Value)) :
  forallb regular_entry entries = true ->
  exists out, processFormData entries = Ok out.
Proof.
  intros Hreg. rewrite forallb_forall in Hreg.
  set (nested := filter (fun kv => negb (is_simple_key (fst kv))) entries).
  assert (Hparts : forall kv, In kv nested ->
             inherited_base kv = false
             /\ forallb ordinary_key (tl (Str.fragments (fst kv))) = true).
  { intros kv Hkv. subst nested. apply filter_In in Hkv as [Hin Hk].
    apply negb_true_iff in Hk. specialize (Hreg _ Hin). unfold regular_entry in Hreg.
    rewrite Hk in Hreg. apply andb_true_iff in Hreg as [Hreg _].
    apply andb_true_iff in Hreg as [Hb Ho]. apply negb_true_iff in Hb. split; assumption. }
  assert (Hbase : existsb inherited_base nested = false).
  { destruct (existsb inherited_base nested) eqn:E; [|reflexivity].
    apply existsb_exists in E as (kv & Hkv & Hi).
    destruct (Hparts _ Hkv) as [Hb _]. congruence. }
  rewrite (processFormData_safe _ Hbase), processFieldGroups_unfold. fold nested.
  assert (Hn : Forall safe_entry nested).
  { apply Forall_forall. intros kv Hkv. destruct (Hparts _ Hkv) as [_ Ho].
    unfold safe_entry, safe_field, to_field. cbn [path].
    apply ordinary_not_length, Ho. }
  destruct (fold_emit_group_returns (grouped nested)
              (fold_add_to_group_safe _ Hn [] (Forall_nil _)) []) as (gout & Hg).
  eexists. unfold ProcessedFormData, props in *. rewrite Hg. reflexivity.
Qed.

(** C9 fails on the keys "a.b[0]" and "a.b.length": the first makes "b" an
    array and the second assigns the string "abc" to the length of that
    array, which raises a RangeError for the whole batch, although each
    key alone is processed without error. *)
Theorem C9_build_raises_on_array_length :
  processFormData (str_entries [("a.b[0]", "x"); ("a.b.length", "abc")])
  = Throw RangeError
  /\ processFormData (str_entries [("a.b[0]", "x")])
     = Ok [("a", VObject KPlain [("b", array_of_strings ["x"])])]
  /\ processFormData (str_entries [("a.b.length", "abc")])
     = Ok [("a", VObject KPlain [("b", VObject KPlain [("length", VString "abc")])])].
Proof. repeat split; vm_compute; reflexivity. Qed.

(** C6: for every path-bearing entry of an input on which
    [processFormData] returns, the root key of the entry's group appears in
    the output, mapped to the value built for the group; when every entry
    of the group is skipped by the empty-value filter, that value is the
    empty object.  And [processFormData] does return, with the root key in
    its output, when every entry of the input is regular: no simple field
    is named "__proto__", and every path-bearing entry has a base name
    that [Object.prototype] does not define, no fragment after it that is
    such a name, "length" or "map", and a value that is not an object. *)
Theorem C6_group_key_always_present (entries : list (string * Value))
        (key : string) (v : Value) :
  In (key, v) entries ->
  is_simple_key key = false ->
  (forall out,
      processFormData entries = Ok out ->
      exists w,
        Obj.lookup (base_name (Str.fragments key)) out = Some w
        /\ (forallb (fun kv => skipped (to_field kv))
                    (filter (in_group (base_name (Str.fragments key))) entries) = true ->
            w = empty_object))
  /\ (forallb regular_entry entries = true ->
      exists out w,
        processFormData entries = Ok out
        /\ Obj.lookup (base_name (Str.fragments key)) out = Some w).
Proof.
  intros Hin Hnested. split.
  - intros out Hout.
    destruct (processFormData_group _ _ _ _ Hout Hin Hnested) as (w & Hw & Hlook).
    exists w. split; [exact Hlook|].
    intros Hskip. rewrite process_group_all_skipped in Hw; [congruence|].
    rewrite forallb_forall in Hskip. apply Forall_forall.
    intros field Hf. apply in_map_iff in Hf as (kv & <- & Hkv). apply Hskip. exact Hkv.
  - intros Hsafe. destruct (processFormData_returns entries Hsafe) as (out & Hout).
    destruct (processFormData_group _ _ _ _ Hout Hin Hnested) as (w & _ & Hlook).
    exists out, w. split; assumption.
Qed.

Lemma C6_group_key_always_present_witness :
  (exists w,
      Obj.lookup (base_name (Str.fragments "tags[0]"))
                 [("name", VString "n"); ("tags", empty_object)] = Some w
      /\ (forallb (fun kv => skipped (to_field kv))
                  (filter (in_group (base_name (Str.fragments "tags[0]")))
                          (str_entries [("name", "n"); ("tags[0]", EmptyString);
                                        ("tags[1]", "  ")]))
          = true ->
          w = empty_object))
  /\ (exists out w,
         processFormData
           (str_entries [("name", "n"); ("tags[0]", EmptyString); ("tags[1]", "  ")]) = Ok out
         /\ Obj.lookup (base_name (Str.fragments "tags[0]")) out = Some w).
Proof.
  assert (Hin : In ("tags[0]", VString EmptyString)
                   (str_entries [("name", "n"); ("tags[0]", EmptyString); ("tags[1]", "  ")]))
    by (simpl; right; left; reflexivity).
  destruct (C6_group_key_always_present
              (str_entries [("name", "n"); ("tags[0]", EmptyString); ("tags[1]", "  ")])
              "tags[0]" (VString EmptyString) Hin eq_refl) as [Hout Hreturns].
  split.
  - apply (Hout [("name", VString "n"); ("tags", empty_object)]). vm_compute. reflexivity.
  - apply Hreturns. reflexivity.
Defined.

(** C10, as amended: for an entry whose key consists only of separator
    characters and contains a [.] or a [[] (so that it is not a simple
    field), the key splits to the empty list of fragments and the base name
    of its group is the string "undefined"; [processFormData] on that entry
    alone returns the object whose only key is "undefined", mapped to an
    empty object, and on any batch that holds the entry its result, when
    it returns one, has the key "undefined". *)
Theorem C10_separator_only_key (key : string) (v : Value) :
  only_separators key = true ->
  is_simple_key key = false ->
  Str.fragments key = []
  /\ base_name (Str.fragments key) = "undefined"
  /\ processFormData [(key, v)] = Ok [("undefined", empty_object)]
  /\ (forall entries out,
         In (key, v) entries ->
         processFormData entries = Ok out ->
         exists w, Obj.lookup "undefined" out = Some w).
Proof.
  intros Hsep Hnested.
  pose proof (fragments_only_separators key Hsep) as Hfrag.
  split; [exact Hfrag|]. split; [rewrite Hfrag; reflexivity|]. split.
  - rewrite processFormData_unfold. cbn [filter fold_left fst snd].
    rewrite Hnested. cbn [negb existsb]. unfold inherited_base, grouped. cbn [fst].
    rewrite Hfrag. cbn [fold_left]. unfold add_to_group, to_field. cbn [fst snd].
    rewrite Hfrag. reflexivity.
  - intros entries out Hin Hout.
    destruct (processFormData_group _ _ _ _ Hout Hin Hnested) as (w & _ & Hw).
    rewrite Hfrag in Hw. exists w. exact Hw.
Qed.

Lemma C10_separator_only_key_witness :
  Str.fragments "[" = []
  /\ base_name (Str.fragments "[") = "undefined"
  /\ processFormData [("[", VString "x")] = Ok [("undefined", empty_object)]
  /\ (forall entries out,
         In ("[", VString "x") entries ->
         processFormData entries = Ok out ->
         exists w, Obj.lookup "undefined" out = Some w).
Proof. apply (C10_separator_only_key "[" (VString "x")); reflexivity. Defined.

(** C10, as stated, fails on the key "]": it consists of a separator
    character only, yet it has no [.] and no [[], so the entry is a simple
    field kept under its own key, and no key "undefined" appears. *)
Lemma C10_counterexample :
  only_separators "]" = true
  /\ processFormData [("]", VString "x")] = Ok [("]", VString "x")]
  /\ Obj.lookup "undefined" [("]", VString "x")] = None.
Proof. repeat split. Qed.

(** ** Reading back what was written *)

Lemma set_key_ok (kd : kind) (ps : props) (k : string) (v : Value) :
  key_ok kd k -> Obj.set (VObject kd ps) k v = Ok (Obj.assign kd ps k v).
Proof.
  intros H. unfold Obj.set. destruct kd; simpl in H; rewrite ?H; reflexivity.
Qed.

Lemma assign_kind (kd : kind) (ps : props) (k : string) (v : Value) :
  exists kd' ps',
    Obj.assign kd ps k v = VObject kd' ps'
    /\ Obj.lookup k ps' = Some v
    /\ (key_ok kd k -> key_ok kd' k).
Proof.
  unfold Obj.assign. destruct kd; try destruct (Num.array_index k);
    eexists; eexists; (split; [reflexivity|]); (split; [apply lookup_put_same|]);
    simpl; auto.
Qed.

Lemma get_key_ok (kd : kind) (ps : props) (k : string) :
  key_ok kd k ->
  Obj.get (VObject kd ps) k =
  match Obj.lookup k ps with Some v => v | None => VUndefined end.
Proof.
  intros H. unfold Obj.get. destruct kd; simpl in H; rewrite ?H; reflexivity.
Qed.

Lemma fresh_key_ok (segment : PathSegment) (rest : list PathSegment) :
  key_ok (fresh_kind segment) (property_key segment).
Proof.
  unfold fresh_kind. destruct segment as [s|z]; simpl; [exact I|].
  apply to_string_eqb_length.
Qed.

Lemma fresh_container (nextSegment : PathSegment) :
  (if is_number nextSegment then empty_array else empty_object)
  = VObject (fresh_kind nextSegment) [].
Proof. unfold fresh_kind. destruct (is_number nextSegment); reflexivity. Qed.

Lemma getValue_walk_object (kd : kind) (ps : props) (segment : PathSegment)
      (rest : list PathSegment) (d : Value) :
  getValue_walk (VObject kd ps) (segment :: rest) d
  = getValue_walk (Obj.get (VObject kd ps) (property_key segment)) rest d.
Proof. reflexivity. Qed.

Lemma set_then_get_fresh (segments : list PathSegment) (v d : Value) :
  forall kd,
    match segments with
    | [] => False
    | segment :: _ => key_ok kd (property_key segment)
    end ->
    exists kd' ps',
      setValue_from (VObject kd []) segments v = Ok (VObject kd' ps')
      /\ getValue_walk (VObject kd' ps') segments d = nullish v d.
Proof.
  induction segments as [|segment rest IH]; intros kd Hkey; [contradiction|].
  destruct (assign_kind kd [] (property_key segment) v) as (kd1 & ps1 & Ha & Hl & Hk).
  destruct rest as [|nextSegment rest'].
  - cbn [setValue_from]. rewrite (set_key_ok _ _ _ _ Hkey), Ha.
    exists kd1, ps1. split; [reflexivity|].
    rewrite getValue_walk_object, (get_key_ok _ _ _ (Hk Hkey)), Hl. reflexivity.
  - clear kd1 ps1 Ha Hl Hk.
    rewrite setValue_from_step.
    rewrite (get_key_ok _ _ _ Hkey). cbn [Obj.lookup].
    change (not_a_container VUndefined) with true. cbv iota.
    rewrite (set_key_ok _ _ _ _ Hkey), fresh_container. cbn [bind].
    destruct (assign_kind kd [] (property_key segment) (VObject (fresh_kind nextSegment) []))
      as (kd1 & ps1 & Ha & Hl & Hk).
    rewrite Ha, (get_key_ok _ _ _ (Hk Hkey)), Hl.
    destruct (IH (fresh_kind nextSegment) (fresh_key_ok nextSegment rest'))
      as (kd2 & ps2 & Hset & Hget).
    rewrite Hset. cbn [bind Obj.write_back].
    exists kd1, (Obj.put (property_key segment) (VObject kd2 ps2) ps1).
    split; [reflexivity|].
    rewrite getValue_walk_object, (get_key_ok _ _ _ (Hk Hkey)), lookup_put_same.
    exact Hget.
Qed.

(** C3, as amended: for every path [p] that [parsePath] accepts, that
    has at least one segment and none of whose fragments is the name
    "__proto__", and every value [v], [setValue] on the empty object
    returns a structure on which [getValue] at [p] yields [v] when [v] is
    neither null nor undefined, and the default value otherwise. *)
Theorem C3_get_after_set (p : string) (segments : list PathSegment) (v d : Value) :
  parsePath p = Ok segments ->
  segments <> [] ->
  proto_free p = true ->
  exists root,
    setValue empty_object p v = Ok root
    /\ getValue root p d = Ok (nullish v d)
    /\ (is_null v = false -> is_undefined v = false -> getValue root p d = Ok v).
Proof.
  intros Hparse Hne _. unfold setValue, getValue, empty_object. cbn [truthy negb].
  rewrite Hparse. cbn [bind].
  destruct (set_then_get_fresh segments v d KPlain) as (kd & ps & Hset & Hget).
  - destruct segments; [congruence | exact I].
  - exists (VObject kd ps). cbn [truthy negb]. rewrite Hset, Hget.
    split; [reflexivity|]. split; [reflexivity|].
    intros Hn Hu. destruct v; simpl in *; congruence.
Qed.

Lemma C3_get_after_set_witness :
  exists root,
    setValue empty_object "user.addresses[0].street" (VString "123 Main St") = Ok root
    /\ getValue root "user.addresses[0].street" VUndefined
       = Ok (nullish (VString "123 Main St") VUndefined)
    /\ (is_null (VString "123 Main St") = false ->
        is_undefined (VString "123 Main St") = false ->
        getValue root "user.addresses[0].street" VUndefined = Ok (VString "123 Main St")).
Proof.
  apply (C3_get_after_set "user.addresses[0].street"
           [SegName "user"; SegName "addresses"; SegIndex 0; SegName "street"]).
  - reflexivity.
  - discriminate.
  - reflexivity.
Defined.

(** C3, as stated, fails for the value null, which [getValue] replaces by
    the default value, and for the path ".", which is not empty and has no
    two consecutive separators but no segment either: [setValue] writes
    under the key "undefined" and [getValue] returns the root itself. *)
Lemma C3_counterexample :
  (root <- setValue empty_object "a" VNull ;; getValue root "a" VUndefined)
  = Ok VUndefined
  /\ parsePath "." = Ok []
  /\ (root <- setValue empty_object "." (VString "v") ;; getValue root "." VUndefined)
     = Ok (VObject KPlain [("undefined", VString "v")]).
Proof. repeat split. Qed.

(** ** The kind of the containers along a path *)

Lemma assign_shape (kd : kind) (ps : props) (k : string) (v : Value) :
  exists kd' ps',
    Obj.assign kd ps k v = VObject kd' ps'
    /\ Obj.lookup k ps' = Some v
    /\ array_kind kd' = array_kind kd.
Proof.
  unfold Obj.assign. destruct kd; try destruct (Num.array_index k);
    eexists; eexists; (split; [reflexivity|]); (split; [apply lookup_put_same|]);
    reflexivity.
Qed.







(** ** Normalisation *)

Lemma normalizeStructure_object (kd : kind) (obj : props) :
  normalizeStructure (VObject kd obj) =
  match kd with
  | KArray len => Obj.of_list (filter truthy (Obj.elements len (normalize_values obj)))
  | _ =>
      if allNumericKeys (Obj.keys obj) then convertToArray obj
      else collect_defined (normalize_values obj)
  end.
Proof.
  assert (Hmap : (fix normalize_values (ps : props) : props :=
                    match ps with
                    | [] => []
                    | (key, val) :: ps' => (key, normalizeStructure val) :: normalize_values ps'
                    end) obj = normalize_values obj).
  { induction obj as [|[key val] obj IH]; [reflexivity|].
    unfold normalize_values. simpl. f_equal. exact IH. }
  unfold convertToArray. rewrite <- Hmap. reflexivity.
Qed.

Lemma keys_normalize_values (ps : props) : Obj.keys (normalize_values ps) = Obj.keys ps.
Proof. unfold Obj.keys, normalize_values. rewrite map_map. reflexivity. Qed.

Lemma lookup_normalize_values (k : string) (ps : props) :
  Obj.lookup k (normalize_values ps) = option_map normalizeStructure (Obj.lookup k ps).
Proof.
  induction ps as [|[k' v'] ps IH]; [reflexivity|].
  simpl. destruct (String.eqb k k'); [reflexivity | exact IH].
Qed.

Lemma collect_defined_unfold (nobj : props) :
  collect_defined nobj = VObject KPlain (fold_left keep_defined nobj []).
Proof. reflexivity. Qed.

Lemma fold_keep_defined_other (k : string) (nobj : props) :
  ~ In k (Obj.keys nobj) ->
  forall acc, Obj.lookup k (fold_left keep_defined nobj acc) = Obj.lookup k acc.
Proof.
  induction nobj as [|[k' v'] nobj IH]; simpl; intros Hk acc; [reflexivity|].
  rewrite IH by tauto. unfold keep_defined. simpl.
  destruct (is_undefined v'); [reflexivity|].
  apply lookup_put_other. intuition.
Qed.

Lemma fold_keep_defined_lookup (k : string) (v : Value) (nobj : props) :
  NoDup (Obj.keys nobj) ->
  Obj.lookup k nobj = Some v ->
  is_undefined v = false ->
  forall acc, Obj.lookup k (fold_left keep_defined nobj acc) = Some v.
Proof.
  induction nobj as [|[k' v'] nobj IH]; simpl; intros Hnd Hk Hv acc; [discriminate|].
  inversion Hnd as [|? ? Hk' Hnd']; subst.
  destruct (String.eqb k k') eqn:E.
  - apply String.eqb_eq in E. subst k'. inversion Hk; subst v'.
    rewrite (fold_keep_defined_other _ _ Hk'). unfold keep_defined. simpl.
    rewrite Hv. apply lookup_put_same.
  - apply IH; assumption.
Qed.

(** C7 fails on the object [{"0": null}]: normalising it gives the array
    [[null]], and normalising that array gives the empty array, because
    the array branch of [normalizeStructure] filters with [Boolean] where
    [convertToArray] filters with [val !== undefined].  (On trees without
    null, undefined or empty strings the two filters agree and
    normalisation is idempotent, as proved at the end of the file.) *)
Theorem C7_normalize_twice_differs :
  normalizeStructure (VObject KPlain [("0", VNull)]) = Obj.of_list [VNull]
  /\ normalizeStructure (normalizeStructure (VObject KPlain [("0", VNull)])) = empty_array
  /\ normalizeStructure (normalizeStructure (VObject KPlain [("0", VNull)]))
     <> normalizeStructure (VObject KPlain [("0", VNull)]).
Proof. repeat split. discriminate. Qed.

(** What holds of a raw value that is not a string: it is never taken
    for an empty value, so that [setNestedValue] always inserts it (Step
    3); a null property of an object that is not converted to an array is
    still there after normalisation (Step 4); in Step 5 a null element is
    kept, but null counts as empty inside an object element: an object
    element whose property values are all null is removed. *)
Lemma non_string_values_inserted :
  (forall v, not_a_string v -> isEmptyValue v = false)
  /\ (forall obj key rest v,
         not_a_string v ->
         setNestedValue obj (key :: rest) v = setNestedValue_from obj (key :: rest) v)
  /\ (forall kd ps k,
         array_kind kd = false ->
         allNumericKeys (Obj.keys ps) = false ->
         NoDup (Obj.keys ps) ->
         Obj.lookup k ps = Some VNull ->
         Obj.get (normalizeStructure (VObject kd ps)) k = VNull)
  /\ keep_item VNull = true
  /\ (forall ps, Forall (fun kv => snd kv = VNull) ps -> keep_item (VObject KPlain ps) = false).
Proof.
  assert (Hempty : forall v, not_a_string v -> isEmptyValue v = false).
  { intros v Hv. destruct v; try reflexivity. exfalso. apply (Hv s). reflexivity. }
  split; [exact Hempty|]. split; [|split; [|split]].
  - intros obj key rest v Hv. unfold setNestedValue. rewrite (Hempty v Hv). reflexivity.
  - intros kd ps k Hkd Hnum Hnd Hk.
    rewrite normalizeStructure_object, Hnum.
    assert (Hget : Obj.get (collect_defined (normalize_values ps)) k = VNull).
    { rewrite collect_defined_unfold. cbn [Obj.get].
      rewrite (fold_keep_defined_lookup k VNull); try reflexivity.
      - rewrite keys_normalize_values. exact Hnd.
      - rewrite lookup_normalize_values, Hk. reflexivity. }
    destruct kd; [exact Hget | discriminate | exact Hget].
  - reflexivity.
  - intros ps Hps. simpl. induction Hps as [|[k v] ps Hv _ IH]; [reflexivity|].
    simpl in *. subst v. exact IH.
Qed.

(** C5 fails on a file.  A [File] is not taken for an empty value and is
    inserted, but [normalizeStructure] takes it for an object with no key
    and rebuilds it as the empty object: the entry "doc.file" with a file
    gives [{doc: {file: {}}}], and under a numeric root index Step 5 then
    removes the empty object, so that "docs[0]" with a file gives
    [{docs: []}].  It fails on null too: the array branch of
    [normalizeStructure] removes a null element of a nested array (the
    entry "a.b[0]"), although [convertToArray] keeps a null under a
    numeric root index (the entry "a[0]"), and Step 5 removes an object
    element whose only value is null (the entry "a[0].x"). *)
Theorem C5_file_and_null_values_lost :
  isEmptyValue (VObject (KFile "f") []) = false
  /\ normalizeStructure (VObject (KFile "f") []) = empty_object
  /\ processFormData [("doc.file", VObject (KFile "f") [])]
     = Ok [("doc", VObject KPlain [("file", empty_object)])]
  /\ processFormData [("docs[0]", VObject (KFile "f") [])] = Ok [("docs", empty_array)]
  /\ processFormData [("a.b[0]", VNull)] = Ok [("a", VObject KPlain [("b", empty_array)])]
  /\ processFormData [("a[0]", VNull)] = Ok [("a", Obj.of_list [VNull])]
  /\ processFormData [("a[0].x", VNull)] = Ok [("a", empty_array)].
Proof. repeat split; vm_compute; reflexivity. Qed.

(** ** Decimal numerals *)

Lemma read_digits_uint (d : Decimal.uint) :
  forall acc seen,
    Num.read_digits Num.digit 10 (NilEmpty.string_of_uint d) acc seen =
    match d with
    | Decimal.Nil => if seen then Some acc else None
    | _ => Some (uint_value d acc)
    end.
Proof.
  induction d; intros acc seen; cbn [NilEmpty.string_of_uint]; try reflexivity;
    cbn [Num.read_digits];
    match goal with
    | |- context [Num.digit ?c] =>
        let r := eval vm_compute in (Num.digit c) in
        change (Num.digit c) with r; cbv iota
    end;
    rewrite IHd; destruct d; reflexivity.
Qed.

Lemma uint_value_pos (d : Decimal.uint) :
  forall acc, uint_value d (Z.pos acc) = Z.pos (Pos.of_uint_acc d acc).
Proof.
  induction d; intros acc; cbn [uint_value Pos.of_uint_acc]; try reflexivity;
    match goal with
    | |- uint_value _ ?a = Z.pos (Pos.of_uint_acc _ ?b) =>
        replace a with (Z.pos b) by lia
    end;
    apply IHd.
Qed.

Lemma uint_value_zero (d : Decimal.uint) :
  uint_value d 0 = Z.of_N (Pos.of_uint d).
Proof.
  induction d; cbn [uint_value Pos.of_uint]; try reflexivity;
    try exact IHd;
    match goal with
    | |- uint_value _ ?a = _ =>
        let r := eval vm_compute in a in change a with r
    end;
    rewrite uint_value_pos; reflexivity.
Qed.

Lemma all_digits_uint (d : Decimal.uint) : all_digits (NilEmpty.string_of_uint d) = true.
Proof. induction d; simpl; try reflexivity; exact IHd. Qed.

Lemma to_string_pos (p : positive) :
  Num.to_string (Z.pos p) = NilEmpty.string_of_uint (Pos.to_uint p).
Proof. reflexivity. Qed.

Lemma read_digits_to_string (n : Z) :
  (0 <= n)%Z -> Num.read_digits Num.digit 10 (Num.to_string n) 0 false = Some n.
Proof.
  intros Hn. destruct n as [|p|p]; [reflexivity| |lia].
  rewrite to_string_pos, read_digits_uint.
  pose proof (Unsigned.to_uint_nonnil p) as Hnil.
  destruct (Pos.to_uint p) eqn:E; try congruence;
    rewrite <- E, uint_value_zero, Unsigned.of_to; reflexivity.
Qed.

Lemma all_digits_to_string (n : Z) : (0 <= n)%Z -> all_digits (Num.to_string n) = true.
Proof.
  intros Hn. destruct n as [|p|p]; [reflexivity| |lia].
  rewrite to_string_pos. apply all_digits_uint.
Qed.

Lemma array_index_to_string (n : Z) :
  (0 <= n < 4294967295)%Z -> Num.array_index (Num.to_string n) = Some n.
Proof.
  intros Hn. unfold Num.array_index.
  rewrite read_digits_to_string by lia. rewrite String.eqb_refl.
  destruct (Z.ltb_spec n 4294967295); [reflexivity | lia].
Qed.

Lemma is_digit_cases (c : ascii) :
  is_digit c = true ->
  In c ["0"; "1"; "2"; "3"; "4"; "5"; "6"; "7"; "8"; "9"]%char.
Proof.
  destruct c as [[] [] [] [] [] [] [] []]; intros H;
    first [discriminate H | simpl; tauto].
Qed.

Lemma parseInt_all_digits (s : string) :
  all_digits s = true ->
  Num.parseInt s = option_map (Z.mul 1) (Num.read_digits Num.digit 10 s 0 false).
Proof.
  destruct s as [|c s]; [reflexivity|].
  cbn [all_digits]. intros H. apply andb_true_iff in H as [Hc Hs].
  apply is_digit_cases in Hc.
  assert (Hnext : s = EmptyString \/ exists c' s', s = String c' s' /\ is_digit c' = true).
  { destruct s as [|c' s']; [left; reflexivity|].
    cbn [all_digits] in Hs. apply andb_true_iff in Hs as [Hc' _].
    right. exists c', s'. split; [reflexivity | exact Hc']. }
  simpl in Hc.
  repeat (destruct Hc as [<- | Hc]; [try reflexivity|]); try contradiction.
  destruct Hnext as [-> | (c' & s' & -> & Hc')]; [reflexivity|].
  apply is_digit_cases in Hc'. simpl in Hc'.
  repeat (destruct Hc' as [<- | Hc']; [reflexivity|]). contradiction.
Qed.

Lemma parseInt_to_string (n : Z) :
  (0 <= n)%Z -> Num.parseInt (Num.to_string n) = Some n.
Proof.
  intros Hn. rewrite parseInt_all_digits by (apply all_digits_to_string; exact Hn).
  rewrite read_digits_to_string by exact Hn. simpl. f_equal. destruct n; reflexivity.
Qed.

Lemma isNumericKey_to_string (n : Z) : (0 <= n)%Z -> isNumericKey (Num.to_string n) = true.
Proof. intros Hn. unfold isNumericKey. rewrite parseInt_to_string by exact Hn. reflexivity. Qed.

Lemma index_key_to_string (n : Z) : (0 <= n)%Z -> index_key (Num.to_string n) = Num.to_string n.
Proof. intros Hn. unfold index_key. rewrite parseInt_to_string by exact Hn. reflexivity. Qed.

Lemma compare_keys_to_string (n m : Z) :
  (0 <= n)%Z -> (0 <= m)%Z ->
  compare_keys (Num.to_string n) (Num.to_string m) = (n - m)%Z.
Proof.
  intros Hn Hm. unfold compare_keys. rewrite !parseInt_to_string by assumption. reflexivity.
Qed.

Lemma to_string_inj (n m : Z) :
  (0 <= n)%Z -> (0 <= m)%Z -> Num.to_string n = Num.to_string m -> n = m.
Proof.
  intros Hn Hm H. pose proof (parseInt_to_string n Hn) as E.
  rewrite H, parseInt_to_string in E by exact Hm. congruence.
Qed.

(** ** Keys of the form [root[n]] *)

Lemma append_assoc_char (cur : string) (c : ascii) (s : string) :
  ((cur ++ String c EmptyString) ++ s = cur ++ String c s)%string.
Proof. induction cur as [|d cur IH]; simpl; [reflexivity | rewrite IH; reflexivity]. Qed.

Lemma append_empty_r (s : string) : (s ++ EmptyString)%string = s.
Proof. induction s as [|c s IH]; simpl; [reflexivity | rewrite IH; reflexivity]. Qed.

Lemma split_aux_no_separators (s rest cur : string) :
  no_separators s = true ->
  Str.split_aux (s ++ rest)%string cur = Str.split_aux rest (cur ++ s)%string.
Proof.
  revert cur. induction s as [|c s IH]; intros cur H; simpl.
  - rewrite append_empty_r. reflexivity.
  - simpl in H. apply andb_true_iff in H as [Hc Hs].
    apply negb_true_iff in Hc. rewrite Hc, (IH _ Hs), append_assoc_char. reflexivity.
Qed.

Lemma fragments_bracket_key (root d : string) :
  no_separators root = true -> root <> EmptyString ->
  no_separators d = true -> d <> EmptyString ->
  Str.fragments (root ++ "[" ++ d ++ "]")%string = [root; d].
Proof.
  intros Hroot Hr Hd Hdn. unfold Str.fragments, Str.split.
  rewrite (split_aux_no_separators root _ _ Hroot).
  cbn [append Str.split_aux Str.is_separator]. simpl (Str.is_separator "[").
  cbv iota. rewrite (split_aux_no_separators d _ _ Hd).
  cbn [append Str.split_aux]. simpl (Str.is_separator "]"). cbv iota.
  destruct root; [congruence|]. destruct d; [congruence|]. reflexivity.
Qed.

Lemma includes_bracket (root rest : string) :
  Str.includes_char "[" (root ++ String "[" rest)%string = true.
Proof.
  induction root as [|c root IH]; simpl; [reflexivity|].
  rewrite IH. apply orb_true_r.
Qed.

Lemma is_digit_not_separator (c : ascii) :
  is_digit c = true -> Str.is_separator c = false.
Proof.
  intros H. apply is_digit_cases in H. simpl in H.
  repeat (destruct H as [<- | H]; [reflexivity|]). contradiction.
Qed.

Lemma all_digits_no_separators (s : string) :
  all_digits s = true -> no_separators s = true.
Proof.
  induction s as [|c s IH]; simpl; [reflexivity|]. intros H.
  apply andb_true_iff in H as [Hc Hs].
  rewrite (is_digit_not_separator _ Hc), (IH Hs). reflexivity.
Qed.

Lemma to_string_nonempty (n : Z) : Num.to_string n <> EmptyString.
Proof.
  unfold Num.to_string. destruct n as [|p|p]; simpl; try discriminate.
  pose proof (Unsigned.to_uint_nonnil p). destruct (Pos.to_uint p); simpl; congruence.
Qed.

Lemma fragments_item_entry (root : string) (item : Z * string) :
  no_separators root = true -> root <> EmptyString -> (0 <= fst item)%Z ->
  Str.fragments (fst (item_entry root item)) = [root; Num.to_string (fst item)].
Proof.
  intros Hroot Hr Hn. apply fragments_bracket_key; try assumption.
  - apply all_digits_no_separators, all_digits_to_string, Hn.
  - apply to_string_nonempty.
Qed.

Lemma item_entry_not_simple (root : string) (item : Z * string) :
  is_simple_key (fst (item_entry root item)) = false.
Proof.
  unfold is_simple_key, item_entry. cbn [fst].
  change (root ++ "[" ++ Num.to_string (fst item) ++ "]")%string
    with (root ++ String "[" (Num.to_string (fst item) ++ "]"))%string.
  rewrite includes_bracket. apply andb_false_r.
Qed.

Lemma to_field_item_entry (root : string) (item : Z * string) :
  no_separators root = true -> root <> EmptyString -> (0 <= fst item)%Z ->
  to_field (item_entry root item) = item_field item.
Proof.
  intros Hroot Hr Hn. unfold to_field.
  rewrite (fragments_item_entry _ _ Hroot Hr Hn). reflexivity.
Qed.

(** ** Items sorted by index *)

Lemma insert_item_perm (x : Z * string) (l : list (Z * string)) :
  Permutation (insert_item x l) (x :: l).
Proof.
  induction l as [|y l IH]; simpl; [reflexivity|].
  destruct (fst x <? fst y)%Z; [reflexivity|].
  rewrite IH. apply perm_swap.
Qed.

Lemma fold_insert_item_perm (items acc : list (Z * string)) :
  Permutation (fold_left (fun acc item => insert_item item acc) items acc) (acc ++ items).
Proof.
  revert acc. induction items as [|x items IH]; intros acc; simpl.
  - rewrite app_nil_r. reflexivity.
  - rewrite IH, insert_item_perm. apply Permutation_middle.
Qed.

Lemma sort_items_perm (items : list (Z * string)) : Permutation (sort_items items) items.
Proof. apply (fold_insert_item_perm items []). Qed.

Lemma insert_item_sorted (x : Z * string) (l : list (Z * string)) :
  StronglySorted lt_item l ->
  ~ In (fst x) (map fst l) ->
  StronglySorted lt_item (insert_item x l).
Proof.
  induction 1 as [|y l Hl IH Hy]; simpl; intros Hx.
  - repeat constructor.
  - destruct (Z.ltb_spec (fst x) (fst y)) as [Hlt|Hge].
    + constructor; [constructor; assumption|].
      constructor; [exact Hlt|].
      eapply Forall_impl; [|exact Hy]. unfold lt_item. intros z Hz. lia.
    + constructor; [apply IH; tauto|].
      eapply Permutation_Forall; [symmetry; apply insert_item_perm|].
      constructor; [|exact Hy]. unfold lt_item.
      assert (fst y <> fst x) by tauto. lia.
Qed.

Lemma fold_insert_item_sorted (items : list (Z * string)) :
  forall acc,
    StronglySorted lt_item acc ->
    NoDup (map fst (acc ++ items)) ->
    StronglySorted lt_item (fold_left (fun acc item => insert_item item acc) items acc).
Proof.
  induction items as [|x items IH]; intros acc Hacc Hnd; simpl; [exact Hacc|].
  assert (Hp : Permutation (map fst (acc ++ x :: items))
                           (map fst (insert_item x acc ++ items))).
  { apply Permutation_map. rewrite insert_item_perm. symmetry. apply Permutation_middle. }
  apply IH.
  - apply insert_item_sorted; [exact Hacc|].
    rewrite map_app in Hnd. simpl in Hnd. apply NoDup_remove_2 in Hnd.
    intros Hin. apply Hnd. apply in_or_app. left. exact Hin.
  - eapply Permutation_NoDup; [exact Hp | exact Hnd].
Qed.

Lemma sort_items_sorted (items : list (Z * string)) :
  NoDup (map fst items) -> StronglySorted lt_item (sort_items items).
Proof. intros Hnd. apply fold_insert_item_sorted; [constructor | exact Hnd]. Qed.

Lemma insert_item_last (x : Z * string) (l : list (Z * string)) :
  Forall (fun y => lt_item y x) l -> insert_item x l = l ++ [x].
Proof.
  induction 1 as [|y l Hy _ IH]; simpl; [reflexivity|].
  unfold lt_item in Hy. destruct (Z.ltb_spec (fst x) (fst y)); [lia|].
  rewrite IH. reflexivity.
Qed.

(** ** The temporary object of a list group *)

Lemma comes_before_to_string (n m : Z) :
  (0 <= n < 4294967295)%Z -> (0 <= m < 4294967295)%Z ->
  Obj.comes_before (Num.to_string n) (Num.to_string m) = (n <? m)%Z.
Proof.
  intros Hn Hm. unfold Obj.comes_before.
  rewrite !array_index_to_string by assumption. reflexivity.
Qed.

Lemma lookup_item_props_None (n : Z) (l : list (Z * string)) :
  (0 <= n)%Z -> Forall valid_item l -> ~ In n (map fst l) ->
  Obj.lookup (Num.to_string n) (map item_prop l) = None.
Proof.
  intros Hn. induction 1 as [|[m s] l [Hm _] _ IH]; simpl; intros Hin; [reflexivity|].
  destruct (String.eqb_spec (Num.to_string n) (Num.to_string m)) as [E|E].
  - exfalso. apply Hin. left. symmetry. apply to_string_inj; simpl in *; auto; lia.
  - apply IH. tauto.
Qed.

Lemma lookup_item_props_Some (n : Z) (s : string) (l : list (Z * string)) :
  (0 <= n)%Z -> Forall valid_item l -> NoDup (map fst l) -> In (n, s) l ->
  Obj.lookup (Num.to_string n) (map item_prop l) = Some (VString s).
Proof.
  intros Hn Hv Hnd Hin. apply In_lookup_Some.
  - unfold Obj.keys. rewrite map_map. cbn [item_prop fst].
    clear Hin. induction Hv as [|[m t] l [Hm _] Hv IH]; simpl; [constructor|].
    inversion Hnd as [|? ? Hnotin Hnd']; subst. constructor; [|apply IH; exact Hnd'].
    intros Hin. apply in_map_iff in Hin as ([m' t'] & Heq & Hin').
    apply Hnotin. apply in_map_iff. exists (m', t'). split; [|exact Hin'].
    rewrite Forall_forall in Hv. destruct (Hv _ Hin') as [Hm' _].
    simpl in *. apply to_string_inj; auto; lia.
  - change (Num.to_string n, VString s) with (item_prop (n, s)). apply in_map. exact Hin.
Qed.

Lemma insert_item_props (x : Z * string) (l : list (Z * string)) :
  valid_item x -> Forall valid_item l ->
  Obj.insert (fst (item_prop x)) (snd (item_prop x)) (map item_prop l)
  = map item_prop (insert_item x l).
Proof.
  intros [Hx _]. induction 1 as [|y l [Hy _] _ IH]; simpl; [reflexivity|].
  rewrite comes_before_to_string by assumption.
  destruct (fst x <? fst y)%Z; simpl; [reflexivity|].
  f_equal. exact IH.
Qed.

Lemma put_item_props (x : Z * string) (l : list (Z * string)) :
  valid_item x -> Forall valid_item l -> ~ In (fst x) (map fst l) ->
  put_item (map item_prop l) x = map item_prop (insert_item x l).
Proof.
  intros Hx Hl Hin. unfold put_item, Obj.put. cbn [item_prop fst snd].
  rewrite lookup_item_props_None; [|apply Hx|exact Hl|exact Hin].
  apply (insert_item_props x l Hx Hl).
Qed.

Lemma fold_put_item (items : list (Z * string)) :
  forall acc,
    Forall valid_item (acc ++ items) ->
    NoDup (map fst (acc ++ items)) ->
    fold_left put_item items (map item_prop acc)
    = map item_prop (fold_left (fun acc item => insert_item item acc) items acc).
Proof.
  induction items as [|x items IH]; intros acc Hv Hnd; simpl; [reflexivity|].
  assert (Hp : Permutation (acc ++ x :: items) (insert_item x acc ++ items)).
  { rewrite insert_item_perm. symmetry. apply Permutation_middle. }
  rewrite put_item_props.
  - apply IH.
    + eapply Permutation_Forall; [exact Hp | exact Hv].
    + eapply Permutation_NoDup; [apply Permutation_map; exact Hp | exact Hnd].
  - apply Forall_app in Hv as [_ Hv]. inversion Hv; assumption.
  - apply Forall_app in Hv as [Hv _]. exact Hv.
  - rewrite map_app in Hnd. simpl in Hnd. apply NoDup_remove_2 in Hnd.
    intros Hin. apply Hnd. apply in_or_app. left. exact Hin.
Qed.

Lemma fold_place_item (items : list (Z * string)) :
  Forall valid_item items ->
  forall ps,
    fold_left place_field (map item_field items) (Ok (VObject KPlain ps))
    = Ok (VObject KPlain (fold_left put_item items ps)).
Proof.
  induction 1 as [|[n s] items [_ Hs] _ IH]; intros ps; [reflexivity|].
  simpl in Hs. cbn [map fold_left].
  assert (Hstep : place_field (Ok (VObject KPlain ps)) (item_field (n, s))
                  = Ok (VObject KPlain (put_item ps (n, s)))).
  { unfold place_field, item_field, setNestedValue.
    cbn [bind path value isEmptyValue fst snd]. rewrite Hs. reflexivity. }
  rewrite Hstep. apply IH.
Qed.

Lemma keys_item_props (l : list (Z * string)) :
  Obj.keys (map item_prop l) = map (fun item => Num.to_string (fst item)) l.
Proof. unfold Obj.keys. rewrite map_map. reflexivity. Qed.

Lemma allNumericKeys_item_props (l : list (Z * string)) :
  l <> [] -> Forall valid_item l -> allNumericKeys (Obj.keys (map item_prop l)) = true.
Proof.
  intros Hne Hv. rewrite keys_item_props. destruct l as [|x l]; [congruence|].
  cbn [map allNumericKeys]. apply forallb_forall. intros k Hk.
  change (Num.to_string (fst x) :: map (fun item => Num.to_string (fst item)) l)
    with (map (fun item => Num.to_string (fst item)) (x :: l)) in Hk.
  apply in_map_iff in Hk as (y & <- & Hy).
  rewrite Forall_forall in Hv. destruct (Hv _ Hy) as [Hr _].
  apply isNumericKey_to_string. lia.
Qed.

Lemma normalize_values_item_props (l : list (Z * string)) :
  normalize_values (map item_prop l) = map item_prop l.
Proof.
  unfold normalize_values. rewrite map_map. apply map_ext. intros [n s]. reflexivity.
Qed.

Lemma sort_keys_sorted (l : list (Z * string)) :
  Forall valid_item l ->
  StronglySorted lt_item l ->
  sort_keys (map (fun item => Num.to_string (fst item)) l)
  = map (fun item => Num.to_string (fst item)) l.
Proof.
  intros Hv Hs. induction Hs as [|x l Hl IH Hx]; [reflexivity|].
  inversion Hv as [|? ? [Hxr _] Hv']; subst.
  cbn [map sort_keys]. rewrite (IH Hv').
  destruct l as [|y l]; [reflexivity|].
  cbn [map insert_key].
  inversion Hv' as [|? ? [Hyr _] _]; subst. inversion Hx as [|? ? Hxy _]; subst.
  unfold lt_item in Hxy.
  rewrite compare_keys_to_string by lia.
  destruct (Z.ltb_spec 0 (fst x - fst y)); [lia | reflexivity].
Qed.

(** ** The array of a list group *)

Lemma convert_normalized_unfold (nobj : props) :
  convert_normalized nobj =
  match fold_left (place_index nobj) (sort_keys (Obj.keys nobj)) empty_array with
  | VObject (KArray len) ps =>
      Obj.of_list (filter (fun val => negb (is_undefined val)) (Obj.elements len ps))
  | array => array
  end.
Proof.
  unfold convert_normalized, place_index.
  destruct (fold_left _ _ empty_array) as [| | | |[] ?]; reflexivity.
Qed.

Lemma sorted_app_before {A : Type} (R : A -> A -> Prop) (l1 l2 : list A) (x : A) :
  StronglySorted R (l1 ++ x :: l2) -> Forall (fun y => R y x) l1.
Proof.
  induction l1 as [|y l1 IH]; simpl; intros H; [constructor|].
  inversion H as [|? ? Hs Hy]; subst. constructor.
  - rewrite Forall_forall in Hy. apply Hy. apply in_or_app. right. left. reflexivity.
  - apply IH. exact Hs.
Qed.

Lemma fold_place_index (nobj : props) (l2 : list (Z * string)) :
  forall l1 len,
    StronglySorted lt_item (l1 ++ l2) ->
    Forall valid_item (l1 ++ l2) ->
    (forall item, In item l2 ->
                  Obj.get (VObject KPlain nobj) (item_key item) = item_value item) ->
    Forall (fun item => (fst item < len)%Z) l1 ->
    exists len',
      fold_left (place_index nobj) (map item_key l2)
                (VObject (KArray len) (map item_prop l1))
      = VObject (KArray len') (map item_prop (l1 ++ l2))
      /\ Forall (fun item => (fst item < len')%Z) (l1 ++ l2).
Proof.
  induction l2 as [|x l2 IH]; intros l1 len Hs Hv Hget Hlen.
  - exists len. rewrite app_nil_r. split; [reflexivity | exact Hlen].
  - pose proof (sorted_app_before _ _ _ _ Hs) as Hbefore.
    assert (Hx : valid_item x)
      by (apply Forall_app in Hv as [_ Hv]; inversion Hv; assumption).
    assert (Hv1 : Forall valid_item l1) by (apply Forall_app in Hv as [Hv _]; exact Hv).
    assert (Hnotin : ~ In (fst x) (map fst l1)).
    { intros Hin. apply in_map_iff in Hin as (y & Hy & Hin).
      rewrite Forall_forall in Hbefore. specialize (Hbefore _ Hin).
      unfold lt_item in Hbefore. lia. }
    assert (Hstep : place_index nobj (VObject (KArray len) (map item_prop l1)) (item_key x)
                    = VObject (KArray (Z.max len (fst x + 1))) (map item_prop (l1 ++ [x]))).
    { unfold place_index. rewrite (Hget x (or_introl eq_refl)).
      unfold item_key. rewrite index_key_to_string by (destruct Hx; lia).
      unfold Obj.assign. rewrite array_index_to_string by apply Hx.
      rewrite <- (insert_item_last x l1 Hbefore).
      rewrite <- (put_item_props x l1 Hx Hv1 Hnotin). reflexivity. }
    cbn [map fold_left]. rewrite Hstep.
    replace (l1 ++ x :: l2) with ((l1 ++ [x]) ++ l2)
      by (rewrite <- app_assoc; reflexivity).
    apply IH.
    + rewrite <- app_assoc. exact Hs.
    + rewrite <- app_assoc. exact Hv.
    + intros item Hin. apply Hget. right. exact Hin.
    + apply Forall_app. split.
      * eapply Forall_impl; [|exact Hlen]. intros y Hy. simpl in Hy. lia.
      * constructor; [lia | constructor].
Qed.

Lemma elements_item_props (len : Z) (l : list (Z * string)) :
  Forall valid_item l ->
  Forall (fun item => (fst item < len)%Z) l ->
  Obj.elements len (map item_prop l) = map item_value l.
Proof.
  unfold Obj.elements, Obj.values.
  induction 1 as [|x l [Hx _] _ IH]; intros Hlen; [reflexivity|].
  inversion Hlen as [|? ? Hxl Hlen']; subst.
  cbn [map filter item_prop fst]. rewrite array_index_to_string by exact Hx.
  destruct (Z.ltb_spec (fst x) len); [|lia].
  cbn [map snd]. f_equal. apply IH. exact Hlen'.
Qed.

Lemma filter_all {A : Type} (f : A -> bool) (l : list A) :
  Forall (fun x => f x = true) l -> filter f l = l.
Proof.
  induction 1 as [|x l Hx _ IH]; simpl; [reflexivity|]. rewrite Hx, IH. reflexivity.
Qed.

Lemma elements_index_from (vs : list Value) :
  forall i len,
    (0 <= i)%Z ->
    (i + Z.of_nat (List.length vs) <= len)%Z ->
    (i + Z.of_nat (List.length vs) <= 4294967295)%Z ->
    Obj.elements len (Obj.index_from i vs) = vs.
Proof.
  unfold Obj.elements, Obj.values.
  induction vs as [|v vs IH]; intros i len Hi Hlen Hmax; [reflexivity|].
  cbn [List.length] in *. cbn [Obj.index_from filter fst].
  rewrite array_index_to_string by lia.
  destruct (Z.ltb_spec i len); [|lia].
  cbn [map snd]. f_equal. apply IH; lia.
Qed.

Lemma sorted_length_bound (l : list (Z * string)) :
  forall lo hi,
    (lo <= hi)%Z ->
    StronglySorted lt_item l ->
    Forall (fun item => (lo <= fst item < hi)%Z) l ->
    (lo + Z.of_nat (List.length l) <= hi)%Z.
Proof.
  induction l as [|x l IH]; intros lo hi Hlohi Hs Hr; simpl; [lia|].
  inversion Hs as [|? ? Hs' Hx]; subst. inversion Hr as [|? ? Hxr Hr']; subst.
  assert (H := IH (fst x + 1)%Z hi ltac:(lia) Hs').
  assert (Hr2 : Forall (fun item => (fst x + 1 <= fst item < hi)%Z) l).
  { rewrite Forall_forall in *. intros y Hy. specialize (Hx y Hy). specialize (Hr' y Hy).
    unfold lt_item in Hx. lia. }
  specialize (H Hr2). lia.
Qed.

Lemma sorted_NoDup (l : list (Z * string)) :
  StronglySorted lt_item l -> NoDup (map fst l).
Proof.
  induction 1 as [|x l _ IH Hx]; simpl; constructor; [|exact IH].
  intros Hin. apply in_map_iff in Hin as (y & Hy & Hin).
  rewrite Forall_forall in Hx. specialize (Hx _ Hin). unfold lt_item in Hx. lia.
Qed.

Lemma convert_item_props (l : list (Z * string)) :
  StronglySorted lt_item l ->
  Forall valid_item l ->
  convert_normalized (map item_prop l) = Obj.of_list (map item_value l).
Proof.
  intros Hs Hv.
  rewrite convert_normalized_unfold, keys_item_props, (sort_keys_sorted _ Hv Hs).
  destruct (fold_place_index (map item_prop l) l [] 0) as (len & Hfold & Hlen);
    try assumption.
  - intros [n s] Hin. unfold item_key, item_value. cbn [Obj.get fst snd].
    rewrite (lookup_item_props_Some n s l); try assumption.
    + reflexivity.
    + rewrite Forall_forall in Hv. apply (Hv _ Hin).
    + apply sorted_NoDup. exact Hs.
  - constructor.
  - change (map (fun item => Num.to_string (fst item)) l) with (map item_key l).
    change empty_array with (VObject (KArray 0) (map item_prop [])).
    rewrite Hfold. cbn [app] in *.
    rewrite (elements_item_props _ _ Hv Hlen), filter_all; [reflexivity|].
    apply Forall_forall. intros v Hin. apply in_map_iff in Hin as (x & <- & _).
    reflexivity.
Qed.

Lemma sort_items_nonempty (items : list (Z * string)) :
  items <> [] -> sort_items items <> [].
Proof.
  intros Hne Hs. apply Hne. apply Permutation_nil.
  rewrite <- Hs. apply sort_items_perm.
Qed.

Lemma process_group_items (items : list (Z * string)) :
  items <> [] ->
  Forall valid_item items ->
  NoDup (map fst items) ->
  process_group (map item_field items)
  = Ok (Obj.of_list (map item_value (sort_items items))).
Proof.
  intros Hne Hv Hnd.
  pose proof (sort_items_sorted items Hnd) as Hs.
  assert (Hvs : Forall valid_item (sort_items items))
    by (eapply Permutation_Forall; [symmetry; apply sort_items_perm | exact Hv]).
  rewrite process_group_unfold. unfold empty_object.
  rewrite (fold_place_item items Hv). cbn [bind].
  change (@nil (string * Value)) with (map item_prop []).
  rewrite (fold_put_item items [] Hv Hnd).
  change (fold_left (fun acc item => insert_item item acc) items []) with (sort_items items).
  rewrite normalizeStructure_object.
  rewrite (allNumericKeys_item_props _ (sort_items_nonempty _ Hne) Hvs).
  unfold convertToArray.
  rewrite normalize_values_item_props, (convert_item_props _ Hs Hvs).
  unfold Obj.of_list at 1.
  assert (Harr : forallb (fun field => match path field with
                                       | [] => false
                                       | first :: _ => isNumericKey first
                                       end) (map item_field items) = true).
  { apply forallb_forall. intros f Hf. apply in_map_iff in Hf as (x & <- & Hx).
    rewrite Forall_forall in Hv. destruct (Hv _ Hx) as [Hr _].
    cbn [item_field path]. apply isNumericKey_to_string. lia. }
  rewrite Harr.
  rewrite elements_index_from.
  - rewrite filter_all; [reflexivity|].
    apply Forall_forall. intros v Hin. apply in_map_iff in Hin as (x & <- & _).
    reflexivity.
  - lia.
  - lia.
  - rewrite length_map.
    apply (sorted_length_bound (sort_items items) 0 4294967295); [lia | exact Hs|].
    eapply Forall_impl; [|exact Hvs]. intros x [Hx _]. exact Hx.
Qed.

Lemma simple_fields_none (entries : list (string * Value)) :
  Forall (fun kv => is_simple_key (fst kv) = false) entries ->
  forall result,
    fold_left
      (fun result kv =>
         if is_simple_key (fst kv) then Obj.put (fst kv) (snd kv) result else result)
      entries result = result.
Proof.
  induction 1 as [|kv entries Hkv _ IH]; intros result; simpl; [reflexivity|].
  rewrite Hkv. apply IH.
Qed.

Lemma grouped_one_root (root : string) (es : list (string * Value)) :
  Forall (fun kv => base_name (Str.fragments (fst kv)) = root) es ->
  es <> [] ->
  grouped es = [(root, map to_field es)].
Proof.
  intros Hall Hne. rewrite grouped_unfold.
  destruct es as [|kv es]; [congruence|].
  inversion Hall as [|? ? Hkv Hes]; subst. cbn [fold_left map].
  assert (Hfirst : add_to_group [] kv = [(base_name (Str.fragments (fst kv)), [to_field kv])])
    by reflexivity.
  rewrite Hfirst. clear Hfirst Hall Hne.
  change (to_field kv :: map to_field es) with ([to_field kv] ++ map to_field es).
  generalize [to_field kv] as fs.
  induction Hes as [|kv' es Hkv' _ IH]; intros fs; [rewrite app_nil_r; reflexivity|].
  cbn [fold_left map].
  assert (Hstep : add_to_group [(base_name (Str.fragments (fst kv)), fs)] kv'
                  = [(base_name (Str.fragments (fst kv)), fs ++ [to_field kv'])]).
  { unfold add_to_group. rewrite Hkv'. unfold Obj.put. cbn [Obj.lookup Obj.replace].
    rewrite String.eqb_refl. reflexivity. }
  rewrite Hstep, IH, <- app_assoc. reflexivity.
Qed.


(** A batch whose entries all bear a path and share one base name, which
    [Object.prototype] does not define, is one group. *)
Lemma processFormData_one_root (root : string) (es : list (string * Value)) (v : Value) :
  Obj.inherited root = false ->
  es <> [] ->
  Forall (fun kv => is_simple_key (fst kv) = false) es ->
  Forall (fun kv => base_name (Str.fragments (fst kv)) = root) es ->
  process_group (map to_field es) = Ok v ->
  processFormData es = Ok [(root, v)].
Proof.
  intros Hroot Hne Hnested Hbase Hgroup.
  assert (Hfilter : filter (fun kv => negb (is_simple_key (fst kv))) es = es).
  { apply filter_all. eapply Forall_impl; [|exact Hnested].
    intros kv Hkv. cbv beta. rewrite Hkv. reflexivity. }
  rewrite processFormData_safe.
  - rewrite Hfilter, (simple_fields_none _ Hnested), (grouped_one_root root es Hbase Hne).
    rewrite processFieldGroups_unfold. cbn [fold_left emit_group bind fst snd].
    rewrite Hgroup. reflexivity.
  - rewrite Hfilter. destruct (existsb inherited_base es) eqn:E; [|reflexivity].
    apply existsb_exists in E as (kv & Hkv & Hi). unfold inherited_base in Hi.
    rewrite Forall_forall in Hbase. rewrite (Hbase _ Hkv) in Hi. congruence.
Qed.

(** *** Items written with any numeral *)

Lemma numeric_index_of (d : string) :
  isNumericKey d = true -> Num.parseInt d = Some (index_of d).
Proof.
  unfold isNumericKey, index_of. destruct (Num.parseInt d); [reflexivity | discriminate].
Qed.

Lemma fragments_written_entry (root : string) (item : string * string) :
  no_separators root = true -> root <> EmptyString -> written_item item ->
  Str.fragments (fst (written_entry root item)) = [root; fst item].
Proof.
  intros Hroot Hr [[Hd Hs] _]. apply fragments_bracket_key; assumption.
Qed.

Lemma written_entry_not_simple (root : string) (item : string * string) :
  is_simple_key (fst (written_entry root item)) = false.
Proof.
  unfold is_simple_key, written_entry. cbn [fst].
  change (root ++ "[" ++ fst item ++ "]")%string
    with (root ++ String "[" (fst item ++ "]"))%string.
  rewrite includes_bracket. apply andb_false_r.
Qed.

Lemma to_field_written (root : string) (items : list (string * string)) :
  no_separators root = true -> root <> EmptyString ->
  Forall written_item items ->
  map to_field (map (written_entry root) items) = map written_field items.
Proof.
  intros Hroot Hr Hv. rewrite map_map. apply map_ext_in. intros x Hx.
  rewrite Forall_forall in Hv. unfold to_field.
  rewrite (fragments_written_entry _ _ Hroot Hr (Hv _ Hx)). reflexivity.
Qed.

Lemma fold_place_written (items : list (string * string)) :
  Forall written_item items ->
  forall ps,
    fold_left place_field (map written_field items) (Ok (VObject KPlain ps))
    = Ok (VObject KPlain
            (fold_left (fun acc kv => Obj.put (fst kv) (snd kv) acc)
                       (map written_prop items) ps)).
Proof.
  induction 1 as [|[d s] items (_ & _ & _ & Hs) _ IH]; intros ps; [reflexivity|].
  cbn [read_item fst snd] in Hs. cbn [map fold_left].
  assert (Hstep : place_field (Ok (VObject KPlain ps)) (written_field (d, s))
                  = Ok (VObject KPlain (Obj.put d (VString s) ps))).
  { unfold place_field, written_field, setNestedValue.
    cbn [bind path value isEmptyValue fst snd]. rewrite Hs. reflexivity. }
  rewrite Hstep. apply IH.
Qed.

Lemma keys_insert_perm {A : Type} (k : string) (v : A) (ps : list (string * A)) :
  Permutation (Obj.keys (Obj.insert k v ps)) (k :: Obj.keys ps).
Proof.
  induction ps as [|[k' v'] ps IH]; simpl; [reflexivity|].
  destruct (Obj.comes_before k k'); simpl; [reflexivity|].
  rewrite IH. apply perm_swap.
Qed.

Lemma keys_fold_put_perm {A : Type} (l : list (string * A)) :
  forall acc,
    NoDup (Obj.keys acc ++ Obj.keys l) ->
    Permutation (Obj.keys (fold_left (fun acc kv => Obj.put (fst kv) (snd kv) acc) l acc))
                (Obj.keys acc ++ Obj.keys l).
Proof.
  induction l as [|[k v] l IH]; intros acc Hnd; cbn [fold_left Obj.keys map fst snd].
  - rewrite app_nil_r. reflexivity.
  - assert (Hnone : Obj.lookup k acc = None).
    { apply lookup_None_keys. intros Hin. apply NoDup_remove_2 in Hnd.
      apply Hnd. apply in_or_app. left. exact Hin. }
    assert (Hput : Permutation (Obj.keys (Obj.put k v acc)) (k :: Obj.keys acc)).
    { unfold Obj.put. rewrite Hnone. apply keys_insert_perm. }
    assert (Hmid : Permutation (Obj.keys (Obj.put k v acc) ++ Obj.keys l)
                               (Obj.keys acc ++ k :: Obj.keys l)).
    { rewrite Hput. apply Permutation_middle. }
    etransitivity; [apply IH | exact Hmid].
    eapply Permutation_NoDup; [symmetry; exact Hmid | exact Hnd].
Qed.

Lemma keys_written_props (items : list (string * string)) :
  Obj.keys (map written_prop items) = map fst items.
Proof. unfold Obj.keys. rewrite map_map. reflexivity. Qed.

Lemma index_of_inj_keys (items : list (string * string)) :
  NoDup (map (fun item => index_of (fst item)) items) -> NoDup (map fst items).
Proof.
  intros H. rewrite <- (map_map fst index_of) in H.
  apply NoDup_map_inv in H. exact H.
Qed.

Lemma insert_key_perm (a : string) (l : list string) :
  Permutation (insert_key a l) (a :: l).
Proof.
  induction l as [|b l IH]; simpl; [reflexivity|].
  destruct (0 <? compare_keys a b)%Z; [|reflexivity].
  rewrite IH. apply perm_swap.
Qed.

Lemma sort_keys_perm (l : list string) : Permutation (sort_keys l) l.
Proof.
  induction l as [|a l IH]; simpl; [reflexivity|].
  rewrite insert_key_perm, IH. reflexivity.
Qed.

(** Two lists sorted by strictly ascending index that hold the same
    items are equal. *)
Lemma sorted_perm_unique (l1 : list (Z * string)) :
  forall l2,
    StronglySorted lt_item l1 -> StronglySorted lt_item l2 ->
    Permutation l1 l2 -> l1 = l2.
Proof.
  induction l1 as [|x l1 IH]; intros l2 H1 H2 Hp.
  - apply Permutation_nil in Hp. congruence.
  - destruct l2 as [|y l2]; [symmetry in Hp; apply Permutation_nil in Hp; discriminate|].
    inversion H1 as [|? ? H1' Hx]; subst. inversion H2 as [|? ? H2' Hy]; subst.
    rewrite Forall_forall in Hx, Hy.
    assert (Hxy : x = y).
    { assert (Hin : In x (y :: l2)) by (eapply Permutation_in; [exact Hp | left; reflexivity]).
      destruct Hin as [E | Hin]; [congruence|].
      specialize (Hy _ Hin).
      assert (Hin' : In y (x :: l1))
        by (eapply Permutation_in; [symmetry; exact Hp | left; reflexivity]).
      destruct Hin' as [E | Hin']; [exact E|].
      specialize (Hx _ Hin'). unfold lt_item in *. lia. }
    subst y. f_equal. apply IH; try assumption.
    eapply Permutation_cons_inv. exact Hp.
Qed.

Lemma sort_items_of_perm (l1 l2 : list (Z * string)) :
  NoDup (map fst l1) -> Permutation l1 l2 -> sort_items l1 = sort_items l2.
Proof.
  intros Hnd Hp.
  assert (Hnd2 : NoDup (map fst l2))
    by (eapply Permutation_NoDup; [apply Permutation_map; exact Hp | exact Hnd]).
  apply sorted_perm_unique; try (apply sort_items_sorted; assumption).
  rewrite !sort_items_perm. exact Hp.
Qed.

(** The loop of [convertToArray] over keys that [parseInt] reads as
    array indices: each key sets the element at its index. *)
Lemma fold_place_written_index (nobj : props) (items : list (string * string)) :
  Forall written_item items ->
  (forall item, In item items ->
                Obj.get (VObject KPlain nobj) (fst item) = VString (snd item)) ->
  forall len ps,
    exists len',
      fold_left (place_index nobj) (map fst items) (VObject (KArray len) ps)
      = VObject (KArray len') (fold_left put_item (map read_item items) ps)
      /\ (len <= len')%Z
      /\ Forall (fun item => (fst item < len')%Z) (map read_item items).
Proof.
  induction 1 as [|[d s] items (_ & Hnum & Hr & _) _ IH]; intros Hget len ps.
  - exists len. split; [reflexivity|]. split; [lia | constructor].
  - cbn [map fold_left fst]. cbn [fst] in Hnum.
    assert (Hstep : place_index nobj (VObject (KArray len) ps) d
                    = VObject (KArray (Z.max len (index_of d + 1)))
                              (put_item ps (read_item (d, s)))).
    { pose proof (Hget (d, s) (or_introl eq_refl)) as Hd. cbn [fst snd] in Hd.
      unfold place_index. rewrite Hd.
      unfold index_key. rewrite (numeric_index_of _ Hnum).
      unfold Obj.assign. cbn [read_item fst snd] in Hr.
      rewrite array_index_to_string by exact Hr. reflexivity. }
    rewrite Hstep.
    destruct (IH (fun item Hin => Hget item (or_intror Hin))
                 (Z.max len (index_of d + 1)) (put_item ps (read_item (d, s))))
      as (len' & Hfold & Hle & Hall).
    exists len'. split; [exact Hfold|]. split; [lia|].
    constructor; [cbn [read_item fst]; lia | exact Hall].
Qed.

Lemma normalize_values_strings (ps : props) :
  Forall (fun kv => exists s, snd kv = VString s) ps -> normalize_values ps = ps.
Proof.
  induction 1 as [|[k v] ps (s & Hs) _ IH]; [reflexivity|].
  unfold normalize_values in *. cbn [map fst snd] in *. subst v. rewrite IH. reflexivity.
Qed.

Lemma fold_put_strings (items : list (string * string)) :
  forall acc,
    Forall (fun kv => exists s, snd kv = VString s) acc ->
    Forall (fun kv : string * Value => exists s, snd kv = VString s)
           (fold_left (fun acc kv => Obj.put (fst kv) (snd kv) acc)
                      (map written_prop items) acc).
Proof.
  induction items as [|[d s] items IH]; intros acc Hacc; [exact Hacc|].
  cbn [map fold_left written_prop fst snd]. apply IH.
  apply Forall_put; [exact Hacc | exists s; reflexivity].
Qed.

(** The value of a list group whose items are written with any numeral:
    the values in ascending order of the index that [parseInt] reads. *)
Lemma process_group_written (items : list (string * string)) :
  items <> [] ->
  Forall written_item items ->
  NoDup (map (fun item => index_of (fst item)) items) ->
  process_group (map written_field items)
  = Ok (Obj.of_list (map item_value (sort_items (map read_item items)))).
Proof.
  intros Hne Hv Hnd.
  pose proof (index_of_inj_keys _ Hnd) as Hkeys.
  assert (Hndr : NoDup (map fst (map read_item items)))
    by (rewrite map_map; exact Hnd).
  assert (Hvr : Forall valid_item (map read_item items)).
  { apply Forall_forall. intros x Hx. apply in_map_iff in Hx as (item & <- & Hin).
    rewrite Forall_forall in Hv. apply (Hv _ Hin). }
  rewrite process_group_unfold. unfold empty_object.
  rewrite (fold_place_written items Hv). cbn [bind].
  set (tps := fold_left (fun acc kv => Obj.put (fst kv) (snd kv) acc)
                        (map written_prop items) []).
  assert (Hperm : Permutation (Obj.keys tps) (map fst items)).
  { subst tps. rewrite keys_fold_put_perm; rewrite keys_written_props;
      [reflexivity | exact Hkeys]. }
  assert (Hlook : forall item, In item items ->
                    Obj.get (VObject KPlain tps) (fst item) = VString (snd item)).
  { intros [d s] Hin. cbn [Obj.get fst snd]. subst tps.
    rewrite lookup_fold_put. cbn [Obj.lookup].
    rewrite lookup_rev by (rewrite keys_written_props; exact Hkeys).
    rewrite (In_lookup_Some d (VString s)); [reflexivity | |].
    - rewrite keys_written_props. exact Hkeys.
    - change (d, VString s) with (written_prop (d, s)). apply in_map. exact Hin. }
  assert (Hnum : allNumericKeys (Obj.keys tps) = true).
  { assert (Hall : forallb isNumericKey (Obj.keys tps) = true).
    { apply forallb_forall. intros k Hk.
      apply (Permutation_in _ Hperm) in Hk. apply in_map_iff in Hk as (item & <- & Hin).
      rewrite Forall_forall in Hv. apply (Hv _ Hin). }
    unfold allNumericKeys. destruct (Obj.keys tps) as [|k ks] eqn:E; [|exact Hall].
    apply Permutation_nil in Hperm. destruct items; [congruence | discriminate]. }
  rewrite normalizeStructure_object, Hnum. unfold convertToArray.
  rewrite (normalize_values_strings tps)
    by (subst tps; apply fold_put_strings; constructor).
  rewrite convert_normalized_unfold.
  assert (Hsorted : Permutation (sort_keys (Obj.keys tps)) (map fst items))
    by (rewrite sort_keys_perm; exact Hperm).
  destruct (Permutation_map_inv _ _ Hsorted) as (items' & Heq & Hp).
  rewrite Heq.
  assert (Hv' : Forall written_item items')
    by (eapply Permutation_Forall; [exact Hp | exact Hv]).
  destruct (fold_place_written_index tps items' Hv'
              (fun item Hin => Hlook item (Permutation_in _ (Permutation_sym Hp) Hin))
              0%Z []) as (len & Hfold & _ & Hlen).
  unfold empty_array. rewrite Hfold.
  assert (Hpr : Permutation (map read_item items) (map read_item items'))
    by (apply Permutation_map; exact Hp).
  change (@nil (string * Value)) with (map item_prop []).
  rewrite (fold_put_item (map read_item items') []);
    [|eapply Permutation_Forall; [exact Hpr | exact Hvr]
     |eapply Permutation_NoDup; [apply Permutation_map; exact Hpr | exact Hndr]].
  change (fold_left (fun acc item => insert_item item acc) (map read_item items') [])
    with (sort_items (map read_item items')).
  rewrite <- (sort_items_of_perm _ _ Hndr Hpr).
  pose proof (sort_items_sorted _ Hndr) as Hs.
  assert (Hvs : Forall valid_item (sort_items (map read_item items)))
    by (eapply Permutation_Forall; [symmetry; apply sort_items_perm | exact Hvr]).
  assert (Hlens : Forall (fun item => (fst item < len)%Z) (sort_items (map read_item items))).
  { eapply Permutation_Forall; [|exact Hlen].
    rewrite sort_items_perm. symmetry. exact Hpr. }
  rewrite (elements_item_props _ _ Hvs Hlens).
  rewrite filter_all
    by (apply Forall_forall; intros v Hin; apply in_map_iff in Hin as (x & <- & _);
        reflexivity).
  unfold Obj.of_list at 1.
  assert (Harr : forallb (fun field => match path field with
                                       | [] => false
                                       | first :: _ => isNumericKey first
                                       end) (map written_field items) = true).
  { apply forallb_forall. intros f Hf. apply in_map_iff in Hf as (x & <- & Hx).
    rewrite Forall_forall in Hv. apply (Hv _ Hx). }
  rewrite Harr.
  rewrite elements_index_from.
  - rewrite filter_all; [reflexivity|].
    apply Forall_forall. intros v Hin. apply in_map_iff in Hin as (x & <- & _).
    reflexivity.
  - lia.
  - lia.
  - rewrite length_map.
    apply (sorted_length_bound (sort_items (map read_item items)) 0 4294967295);
      [lia | exact Hs|].
    eapply Forall_impl; [|exact Hvs]. intros x [Hx _]. exact Hx.
Qed.

(** C1, as amended: for a group of entries [root[d] = s] whose base name
    [root] is not a name that [Object.prototype] defines, whose fragments
    [d] are read by [parseInt] as pairwise distinct array indices
    (0 .. 2^32 - 2), in whatever numeral ("2", "02", "2px"), and whose
    values [s] are strings that are not blank, the value built for the
    group is the dense array of the values in ascending order of their
    index, whatever the gaps between the indices: the items sorted by
    index, a permutation of the items supplied.  [processFormData] on the
    group alone returns the object whose only key is [root], mapped to
    that array, and in any batch no key of which has the fragment
    "__proto__" and on which it returns, [root] is mapped to that array. *)
Theorem C1_sparse_indices_compact (root : string) (items : list (string * string)) :
  no_separators root = true ->
  root <> EmptyString ->
  Obj.inherited root = false ->
  items <> [] ->
  Forall written_item items ->
  NoDup (map (fun item => index_of (fst item)) items) ->
  Permutation (sort_items (map read_item items)) (map read_item items)
  /\ StronglySorted lt_item (sort_items (map read_item items))
  /\ processFormData (map (written_entry root) items)
     = Ok [(root, array_of_strings (map snd (sort_items (map read_item items))))]
  /\ (forall entries out,
         forallb (fun kv => proto_free (fst kv)) entries = true ->
         filter (in_group root) entries = map (written_entry root) items ->
         processFormData entries = Ok out ->
         Obj.lookup root out
         = Some (array_of_strings (map snd (sort_items (map read_item items))))).
Proof.
  intros Hroot Hr Hown Hne Hv Hnd.
  assert (Hgroup : process_group (map written_field items)
                   = Ok (array_of_strings (map snd (sort_items (map read_item items))))).
  { rewrite (process_group_written _ Hne Hv Hnd).
    unfold array_of_strings. rewrite map_map. reflexivity. }
  split; [apply sort_items_perm|].
  split; [apply sort_items_sorted; rewrite map_map; exact Hnd|]. split.
  - apply processFormData_one_root.
    + exact Hown.
    + destruct items; [congruence | discriminate].
    + apply Forall_forall. intros kv Hin. apply in_map_iff in Hin as (x & <- & _).
      apply written_entry_not_simple.
    + apply Forall_forall. intros kv Hin. apply in_map_iff in Hin as (x & <- & Hx).
      rewrite Forall_forall in Hv.
      rewrite (fragments_written_entry _ _ Hroot Hr (Hv _ Hx)). reflexivity.
    + rewrite (to_field_written _ _ Hroot Hr Hv). exact Hgroup.
  - intros entries out _ Hfilter Hout.
    destruct items as [|x items]; [congruence|].
    assert (Hx : written_item x) by (inversion Hv; assumption).
    assert (Hin : In (written_entry root x) entries).
    { assert (H : In (written_entry root x) (filter (in_group root) entries))
        by (rewrite Hfilter; left; reflexivity).
      apply filter_In in H. apply H. }
    destruct (written_entry root x) as [key v] eqn:Hkv.
    assert (Hkey : key = fst (written_entry root x)) by (rewrite Hkv; reflexivity).
    assert (Hsimple : is_simple_key key = false)
      by (rewrite Hkey; apply written_entry_not_simple).
    destruct (processFormData_group _ _ _ _ Hout Hin Hsimple) as (w & Hw & Hlook).
    rewrite Hkey, (fragments_written_entry _ _ Hroot Hr Hx) in Hw, Hlook.
    cbn [base_name] in Hw, Hlook.
    rewrite Hfilter, (to_field_written _ _ Hroot Hr Hv), Hgroup in Hw.
    inversion Hw; subst w. exact Hlook.
Qed.

Lemma C1_sparse_indices_compact_witness :
  processFormData
    (str_entries [("items[0]", "First"); ("items[2]", "Third"); ("items[5]", "Sixth")])
  = Ok [("items", array_of_strings ["First"; "Third"; "Sixth"])].
Proof.
  refine (proj1 (proj2 (proj2 (C1_sparse_indices_compact
                                 "items" [("0", "First"); ("2", "Third"); ("5", "Sixth")]
                                 _ _ _ _ _ _)))).
  - reflexivity.
  - discriminate.
  - reflexivity.
  - discriminate.
  - repeat constructor; simpl; try lia; discriminate.
  - repeat constructor; simpl; intuition discriminate.
Defined.

(** C1, as stated, fails on the group "items[-1]": the fragment "-1"
    passes the numeric test, so that the group is a list group, but the
    value is assigned to the property "-1" of the array and is lost; the
    same happens to the index 4294967295, which is beyond the last array
    index.  Two fragments that [parseInt] reads as the same index share
    one element, which holds the value of the later one.  And a string
    that is not empty but blank is dropped as an empty one is. *)
Lemma C1_counterexample :
  isNumericKey "-1" = true
  /\ processFormData (str_entries [("items[-1]", "x")]) = Ok [("items", empty_array)]
  /\ isNumericKey "4294967295" = true
  /\ processFormData (str_entries [("items[4294967295]", "x")]) = Ok [("items", empty_array)]
  /\ processFormData (str_entries [("items[1]", "a"); ("items[01]", "b")])
     = Ok [("items", array_of_strings ["b"])]
  /\ processFormData (str_entries [("items[0]", "a"); ("items[1]", " ")])
     = Ok [("items", array_of_strings ["a"])].
Proof. repeat split; vm_compute; reflexivity. Qed.

(** ** Normalising twice *)

Lemma Value_values_ind (P : Value -> Prop) :
  P VUndefined -> P VNull -> (forall s, P (VString s)) -> (forall z, P (VNumber z)) ->
  (forall kd ps, Forall (fun kv => P (snd kv)) ps -> P (VObject kd ps)) ->
  forall v, P v.
Proof.
  intros Hu Hn Hs Hz Hobj. fix IH 1. intros [| | s | z | kd ps].
  - exact Hu.
  - exact Hn.
  - apply Hs.
  - apply Hz.
  - apply Hobj.
    induction ps as [|[k v] ps IHps]; constructor; [apply IH | exact IHps].
Qed.

Lemma clean_object (kd : kind) (ps : props) :
  clean (VObject kd ps) <-> NoDup (Obj.keys ps) /\ Forall (fun kv => clean (snd kv)) ps.
Proof.
  cbn [clean]. apply and_iff_compat_l.
  induction ps as [|[k v] ps IH]; [split; [constructor | exact (fun _ => I)]|].
  rewrite IH. split.
  - intros [Hv Hps]. constructor; assumption.
  - intros H. inversion H; subst. split; assumption.
Qed.

Lemma normalizeStructure_object_is_object (kd : kind) (ps : props) :
  exists kd' ps', normalizeStructure (VObject kd ps) = VObject kd' ps'.
Proof.
  rewrite normalizeStructure_object. destruct kd as [|len|name].
  - destruct (allNumericKeys _).
    + destruct (convertToArray_is_array ps) as (len' & ps' & ->). eauto.
    + rewrite collect_defined_unfold. eauto.
  - unfold Obj.of_list. eauto.
  - destruct (allNumericKeys _).
    + destruct (convertToArray_is_array ps) as (len' & ps' & ->). eauto.
    + rewrite collect_defined_unfold. eauto.
Qed.

Lemma clean_normalized_truthy (v : Value) : clean v -> truthy (normalizeStructure v) = true.
Proof.
  destruct v as [| | s | z | kd ps]; cbn [clean]; try contradiction.
  - intros H. exact H.
  - intros H. simpl. apply negb_true_iff, Z.eqb_neq. exact H.
  - intros _. destruct (normalizeStructure_object_is_object kd ps) as (kd' & ps' & ->).
    reflexivity.
Qed.




Lemma array_index_Some (k : string) (i : Z) :
  Num.array_index k = Some i -> (0 <= i < 4294967295)%Z /\ Num.to_string i = k.
Proof.
  unfold Num.array_index.
  destruct (Num.read_digits Num.digit 10 k 0 false) as [n|] eqn:Hr; [|discriminate].
  destruct (String.eqb_spec (Num.to_string n) k) as [Hk|]; [|discriminate].
  destruct (Z.ltb_spec n 4294967295) as [Hlt|]; [|discriminate].
  intros Heq. inversion Heq; subst i. split; [|exact Hk]. split; [|exact Hlt].
  apply (read_digits_nonneg Num.digit 10 digit_nonneg ltac:(lia) k 0 false); [lia | exact Hr].
Qed.





Lemma Forall_elements (P : Value -> Prop) (len : Z) (ps : props) :
  Forall (fun kv => P (snd kv)) ps -> Forall P (Obj.elements len ps).
Proof.
  intros H. unfold Obj.elements, Obj.values. apply Forall_forall. intros v Hin.
  apply in_map_iff in Hin as (kv & <- & Hin). apply filter_In in Hin as [Hin _].
  rewrite Forall_forall in H. apply (H _ Hin).
Qed.

Lemma Forall_filter {A : Type} (P : A -> Prop) (f : A -> bool) (l : list A) :
  Forall P l -> Forall P (filter f l).
Proof.
  intros H. apply Forall_forall. intros x Hin. apply filter_In in Hin as [Hin _].
  rewrite Forall_forall in H. apply (H _ Hin).
Qed.


Lemma get_plain_value (nobj : props) (key : string) :
  Obj.get (VObject KPlain nobj) key = VUndefined
  \/ In (Obj.get (VObject KPlain nobj) key) (Obj.values nobj).
Proof.
  cbn [Obj.get]. destruct (Obj.lookup key nobj) as [v|] eqn:E; [right | left; reflexivity].
  apply lookup_Some_In in E. unfold Obj.values.
  change v with (snd (key, v)). apply in_map. exact E.
Qed.

Lemma fold_place_index_values (nobj : props) (keys : list string) :
  forall len ps,
    NoDup (Obj.keys ps) ->
    Forall (fun kv => snd kv = VUndefined \/ In (snd kv) (Obj.values nobj)) ps ->
    exists len' ps',
      fold_left (place_index nobj) keys (VObject (KArray len) ps) = VObject (KArray len') ps'
      /\ NoDup (Obj.keys ps')
      /\ Forall (fun kv => snd kv = VUndefined \/ In (snd kv) (Obj.values nobj)) ps'.
Proof.
  induction keys as [|key keys IH]; intros len ps Hnd Hv.
  - exists len, ps. auto.
  - cbn [fold_left].
    assert (Hstep : exists len1,
               place_index nobj (VObject (KArray len) ps) key
               = VObject (KArray len1)
                         (Obj.put (index_key key) (Obj.get (VObject KPlain nobj) key) ps)).
    { unfold place_index, Obj.assign. destruct (Num.array_index (index_key key)); eauto. }
    destruct Hstep as (len1 & ->). apply IH.
    + apply NoDup_keys_put. exact Hnd.
    + apply Forall_put; [exact Hv|]. apply get_plain_value.
Qed.




Section Ordered.
Context {A : Type}.
Implicit Types (k : string) (v : A) (ps : list (string * A)).

Lemma keys_cons k v ps : Obj.keys ((k, v) :: ps) = k :: Obj.keys ps.
Proof. reflexivity. Qed.



Lemma insert_last_ordered k v ps :
  Forall (fun x => Obj.comes_before k x = false) (Obj.keys ps) ->
  Obj.insert k v ps = ps ++ [(k, v)].
Proof.
  induction ps as [|[k' v'] ps IH]; intros H; [reflexivity|].
  rewrite keys_cons in H. inversion H as [|? ? Hk Hps]; subst.
  cbn [Obj.insert]. rewrite Hk, (IH Hps). reflexivity.
Qed.

Lemma keys_app ps qs : Obj.keys (ps ++ qs) = Obj.keys ps ++ Obj.keys qs.
Proof. apply map_app. Qed.

End Ordered.



Lemma fold_keep_defined_reproduces (q2 : props) :
  forall q1,
    ordered (q1 ++ q2) ->
    NoDup (Obj.keys (q1 ++ q2)) ->
    Forall (fun kv => is_undefined (snd kv) = false) q2 ->
    fold_left keep_defined q2 q1 = q1 ++ q2.
Proof.
  induction q2 as [|[k v] q2 IH]; intros q1 Ho Hnd Hdef.
  - rewrite app_nil_r. reflexivity.
  - inversion Hdef as [|? ? Hv Hdef']; subst. cbn [snd] in Hv.
    cbn [fold_left]. unfold keep_defined at 2. cbn [fst snd]. rewrite Hv.
    assert (Hput : Obj.put k v q1 = q1 ++ [(k, v)]).
    { unfold Obj.put. unfold ordered in Ho. rewrite keys_app, keys_cons in Ho, Hnd.
      assert (Hnone : Obj.lookup k q1 = None).
      { apply lookup_None_keys. apply NoDup_remove_2 in Hnd.
        intros Hin. apply Hnd. apply in_or_app. left. exact Hin. }
      rewrite Hnone. apply insert_last_ordered.
      apply (sorted_app_before _ _ _ _ Ho). }
    rewrite Hput.
    replace (q1 ++ (k, v) :: q2) with ((q1 ++ [(k, v)]) ++ q2)
      by (rewrite <- app_assoc; reflexivity).
    apply IH; [| |exact Hdef']; rewrite <- app_assoc; assumption.
Qed.







(** * Further properties *)

(** ** [createFromPath] *)

Lemma createNestedStructure_from_step (current : Value) (segment nextSegment : PathSegment)
      (rest : list PathSegment) (value : Value) :
  createNestedStructure_from current (segment :: nextSegment :: rest) value =
  (current' <-
     Obj.set current (property_key segment)
             (if is_number nextSegment then empty_array else empty_object) ;;
   child <- createNestedStructure_from (Obj.get current' (property_key segment))
                                        (nextSegment :: rest) value ;;
   Ok (Obj.write_back current' (property_key segment) child)).
Proof. reflexivity. Qed.

Lemma bare_fresh (kd : kind) : bare (VObject kd []).
Proof.
  intros k. unfold Obj.get. destruct kd; try reflexivity.
  destruct (String.eqb k "length"); [|reflexivity].
  unfold not_a_container. apply orb_true_r.
Qed.

Lemma bare_not_object (v : Value) : (forall kd ps, v <> VObject kd ps) -> bare v.
Proof. intros H k. destruct v; try reflexivity. exfalso. apply (H k0 props0). reflexivity. Qed.

Lemma set_fresh_bare (current : Value) (k : string) (kd0 : kind) (current' : Value) :
  Obj.set current k (VObject kd0 []) = Ok current' -> bare (Obj.get current' k).
Proof.
  destruct current as [| | s | z | kd ps]; try discriminate.
  unfold Obj.set.
  assert (Hassign : forall c, Ok (Obj.assign kd ps k (VObject kd0 [])) = Ok c ->
                              bare (Obj.get c k)).
  { intros c H. inversion H; subst c.
    destruct (String.eqb k "length") eqn:E.
    - destruct (assign_shape kd ps k (VObject kd0 [])) as (kd1 & ps1 & -> & Hl & _).
      unfold Obj.get. rewrite E, Hl.
      destruct kd1; [apply bare_fresh | apply bare_not_object; discriminate | apply bare_fresh].
    - rewrite (get_assign_same _ _ _ _ E). apply bare_fresh. }
  destruct kd as [|len|name]; try apply Hassign.
  destruct (String.eqb k "length") eqn:E; [|apply Hassign].
  destruct (Obj.to_length (VObject kd0 [])) as [n|]; [|discriminate].
  intros H. inversion H; subst current'. unfold Obj.get. rewrite E.
  apply bare_not_object. discriminate.
Qed.

Lemma create_is_set_on_bare (segments : list PathSegment) (value : Value) :
  forall current,
    bare current ->
    createNestedStructure_from current segments value = setValue_from current segments value.
Proof.
  induction segments as [|segment rest IH]; intros current Hbare; [reflexivity|].
  destruct rest as [|nextSegment rest']; [reflexivity|].
  rewrite createNestedStructure_from_step, setValue_from_step, (Hbare (property_key segment)).
  rewrite fresh_container.
  destruct (Obj.set current (property_key segment) (VObject (fresh_kind nextSegment) []))
    as [current'|e] eqn:Hset; [|reflexivity].
  cbn [bind]. rewrite (IH _ (set_fresh_bare _ _ _ _ Hset)). reflexivity.
Qed.

(** X1: on a path none of whose fragments is the name "__proto__",
    [createFromPath(path, value)] is [setValue({}, path, value)]: the two
    build the same structure, and fail alike on the paths that
    [parsePath] refuses. *)
Theorem X1_createFromPath_is_setValue_on_empty (path : string) (value : Value) :
  proto_free path = true ->
  createFromPath path value = setValue empty_object path value.
Proof.
  intros _.
  unfold createFromPath, setValue, createNestedStructure, empty_object.
  cbn [truthy negb].
  destruct (parsePath path) as [segments|e]; [|reflexivity].
  cbn [bind]. apply create_is_set_on_bare, bare_fresh.
Qed.

Lemma X1_createFromPath_is_setValue_on_empty_witness :
  createFromPath "company.departments[0].name" (VString "R&D")
  = setValue empty_object "company.departments[0].name" (VString "R&D").
Proof.
  apply (X1_createFromPath_is_setValue_on_empty "company.departments[0].name").
  reflexivity.
Defined.

(** ** [hasValue] and [getValue] *)

Lemma has_defined_walk (segments : list PathSegment) :
  forall current,
    hasValue_walk current segments
    = negb (is_undefined (getValue_walk current segments VUndefined)).
Proof.
  induction segments as [|segment rest IH]; intros current.
  - destruct current; reflexivity.
  - cbn [hasValue_walk getValue_walk].
    destruct (is_null current || negb (typeof_object current)); [reflexivity | apply IH].
Qed.

Lemma has_get_walk (segments : list PathSegment) (d : Value) :
  forall current,
    getValue_walk current segments d
    = if hasValue_walk current segments then getValue_walk current segments VUndefined
      else d.
Proof.
  induction segments as [|segment rest IH]; intros current.
  - destruct current; reflexivity.
  - cbn [hasValue_walk getValue_walk].
    destruct (is_null current || negb (typeof_object current)); [reflexivity | apply IH].
Qed.

(** X2: for every path [p] that [parsePath] accepts, that has at least
    one segment and none of whose fragments is the name "__proto__",
    [getValue] at [p] on [createFromPath(p, v)] yields [v] when [v] is
    neither null nor undefined, and [hasValue] is then true. *)
Theorem X2_createFromPath_read_back (p : string) (segments : list PathSegment) (v d : Value) :
  parsePath p = Ok segments ->
  segments <> [] ->
  proto_free p = true ->
  is_null v = false ->
  is_undefined v = false ->
  exists root,
    createFromPath p v = Ok root
    /\ getValue root p d = Ok v
    /\ hasValue root p = Ok true.
Proof.
  intros Hparse Hne _ Hn Hu.
  assert (Hv : forall d', nullish v d' = v) by (intros d'; destruct v; simpl in *; congruence).
  unfold createFromPath, createNestedStructure, getValue, hasValue, empty_object.
  rewrite Hparse. cbn [bind]. rewrite (create_is_set_on_bare _ _ _ (bare_fresh KPlain)).
  assert (Hfirst : match segments with
                   | [] => False
                   | segment :: _ => key_ok KPlain (property_key segment)
                   end) by (destruct segments; [congruence | exact I]).
  destruct (set_then_get_fresh segments v d KPlain Hfirst) as (kd & ps & Hset & Hget).
  destruct (set_then_get_fresh segments v VUndefined KPlain Hfirst)
    as (kd' & ps' & Hset' & Hget').
  rewrite Hset in Hset'. inversion Hset'; subst kd' ps'.
  exists (VObject kd ps). rewrite Hset. cbn [truthy negb bind].
  rewrite Hget, Hv, has_defined_walk, Hget', Hv, Hu. auto.
Qed.

Lemma X2_createFromPath_read_back_witness :
  exists root,
    createFromPath "company.departments[0].name" (VString "R&D") = Ok root
    /\ getValue root "company.departments[0].name" VUndefined = Ok (VString "R&D")
    /\ hasValue root "company.departments[0].name" = Ok true.
Proof.
  apply (X2_createFromPath_read_back
           "company.departments[0].name"
           [SegName "company"; SegName "departments"; SegIndex 0; SegName "name"]);
    first [reflexivity | discriminate].
Defined.

(** X3: [hasValue] and [getValue] agree on every structure and path:
    [getValue] returns its default value exactly when [hasValue] is false,
    and otherwise returns a value that is neither undefined nor null and
    does not depend on the default; both fail alike. *)
Theorem X3_getValue_default_iff_not_hasValue (obj : Value) (path : string) (d : Value) :
  getValue obj path d =
  (has <- hasValue obj path ;;
   if has then getValue obj path VUndefined else Ok d)
  /\ (hasValue obj path = Ok true ->
      exists v, getValue obj path d = Ok v /\ is_undefined v = false /\ is_null v = false).
Proof.
  unfold getValue, hasValue.
  destruct (negb (truthy obj)); [split; [reflexivity | discriminate]|].
  destruct (parsePath path) as [segments|e]; [|split; [reflexivity | discriminate]].
  cbn [bind]. split.
  - rewrite (has_get_walk segments d). destruct (hasValue_walk obj segments); reflexivity.
  - intros H. inversion H as [Hhas]. rewrite (has_get_walk segments d), Hhas.
    exists (getValue_walk obj segments VUndefined). split; [reflexivity|].
    rewrite has_defined_walk in Hhas. apply negb_true_iff in Hhas. split; [exact Hhas|].
    clear H Hhas. revert obj. induction segments as [|segment rest IH]; intros obj.
    + destruct obj; reflexivity.
    + cbn [getValue_walk].
      destruct (is_null obj || negb (typeof_object obj)); [reflexivity | apply IH].
Qed.

(** ** [setValue] on an arbitrary structure *)

Lemma key_ok_any (kd : kind) (k : string) :
  String.eqb k "length" = false -> key_ok kd k.
Proof. intros H. destruct kd; simpl; auto. Qed.

Lemma walk_not_object (w : Value) (segments : list PathSegment) (d : Value) :
  not_a_container w = true -> segments <> [] -> getValue_walk w segments d = d.
Proof.
  intros Hw Hne. destruct segments as [|s rest]; [congruence|].
  destruct w; try reflexivity.
  unfold not_a_container in Hw. simpl in Hw. discriminate.
Qed.

Lemma walk_undefined (segments : list PathSegment) (d : Value) :
  getValue_walk VUndefined segments d = d.
Proof. destruct segments; reflexivity. Qed.

Lemma get_write_back_same (kd : kind) (ps : props) (k : string) (child : Value) :
  String.eqb k "length" = false ->
  Obj.get (Obj.write_back (VObject kd ps) k child) k = child.
Proof.
  intros Hk. cbn [Obj.write_back].
  rewrite (get_key_ok _ _ _ (key_ok_any kd k Hk)), lookup_put_same. reflexivity.
Qed.

Lemma get_write_back_other (kd : kind) (ps : props) (k k' : string) (child : Value) :
  k' <> k ->
  Obj.get (Obj.write_back (VObject kd ps) k child) k' = Obj.get (VObject kd ps) k'.
Proof.
  intros Hne. cbn [Obj.write_back Obj.get].
  rewrite (lookup_put_other _ _ _ _ Hne). reflexivity.
Qed.

Lemma get_assign_other (kd : kind) (ps : props) (k k' : string) (v : Value) :
  k' <> k -> String.eqb k' "length" = false ->
  Obj.get (Obj.assign kd ps k v) k' = Obj.get (VObject kd ps) k'.
Proof.
  intros Hne Hk'. unfold Obj.assign.
  destruct kd; try destruct (Num.array_index k); cbn [Obj.get];
    rewrite ?Hk', (lookup_put_other _ _ _ _ Hne); reflexivity.
Qed.

(** The step of [setValue] at an intermediate segment: the object it
    descends into and the state of the current object. *)
Lemma setValue_from_descend (kd : kind) (ps : props) (segment nextSegment : PathSegment)
      (rest : list PathSegment) (value : Value) :
  String.eqb (property_key segment) "length" = false ->
  exists kd1 ps1 kd0 ps0,
    setValue_from (VObject kd ps) (segment :: nextSegment :: rest) value
    = (child <- setValue_from (VObject kd0 ps0) (nextSegment :: rest) value ;;
       Ok (Obj.write_back (VObject kd1 ps1) (property_key segment) child))
    /\ (forall k', k' <> property_key segment -> String.eqb k' "length" = false ->
                   Obj.get (VObject kd1 ps1) k' = Obj.get (VObject kd ps) k')
    /\ (if not_a_container (Obj.get (VObject kd ps) (property_key segment))
        then ps0 = []
        else Obj.get (VObject kd ps) (property_key segment) = VObject kd0 ps0).
Proof.
  intros Hk. rewrite setValue_from_step.
  destruct (not_a_container (Obj.get (VObject kd ps) (property_key segment))) eqn:Hc.
  - rewrite (set_object_ok _ _ _ _ Hk), fresh_container. cbn [bind].
    rewrite (get_assign_same _ _ _ _ Hk).
    destruct (assign_is_object kd ps (property_key segment)
                (VObject (fresh_kind nextSegment) [])) as (kd1 & ps1 & Ha).
    exists kd1, ps1, (fresh_kind nextSegment), []. rewrite <- Ha.
    split; [reflexivity|]. split; [|reflexivity].
    intros k' Hne Hk'. apply get_assign_other; assumption.
  - cbn [bind]. destruct (container_is_object _ Hc) as (kd0 & ps0 & Hget).
    exists kd, ps, kd0, ps0. rewrite Hget. split; [reflexivity|]. split; [|reflexivity].
    reflexivity.
Qed.

Lemma set_then_get_walk (segments : list PathSegment) (v d : Value) :
  segments <> [] ->
  Forall (fun s => String.eqb (property_key s) "length" = false) segments ->
  forall kd ps,
  exists kd' ps',
    setValue_from (VObject kd ps) segments v = Ok (VObject kd' ps')
    /\ getValue_walk (VObject kd' ps') segments d = nullish v d.
Proof.
  induction segments as [|segment rest IH]; intros Hne Hkeys kd ps; [congruence|].
  inversion Hkeys as [|? ? Hk Hrest]; subst.
  destruct rest as [|nextSegment rest'].
  - cbn [setValue_from]. rewrite (set_object_ok _ _ _ _ Hk).
    destruct (assign_kind kd ps (property_key segment) v) as (kd1 & ps1 & Ha & Hl & Hok).
    rewrite Ha. exists kd1, ps1. split; [reflexivity|].
    rewrite getValue_walk_object,
      (get_key_ok _ _ _ (Hok (key_ok_any _ _ Hk))), Hl. reflexivity.
  - destruct (setValue_from_descend kd ps segment nextSegment rest' v Hk)
      as (kd1 & ps1 & kd0 & ps0 & -> & _ & _).
    destruct (IH ltac:(discriminate) Hrest kd0 ps0) as (kd2 & ps2 & -> & Hget).
    cbn [bind Obj.write_back]. eexists; eexists. split; [reflexivity|].
    rewrite getValue_walk_object.
    rewrite (get_key_ok _ _ _ (key_ok_any kd1 _ Hk)), lookup_put_same. exact Hget.
Qed.

(** X4: on every root object that holds no [File], whatever else it
    holds, and for every path that has at least one fragment, none of
    them the name "length" or "__proto__", [setValue] returns an object on
    which [getValue] at the same path yields the value set (the default
    value when that value is null): what was stored at the path before is
    overwritten, and a non-object met on the way is replaced by a
    container. *)
Theorem X4_setValue_then_getValue (kd : kind) (ps : props) (p : string) (v d : Value) :
  file_free (VObject kd ps) = true ->
  parsePath p = Ok (map classify (Str.fragments p)) ->
  Str.fragments p <> [] ->
  ~ In "length" (Str.fragments p) ->
  proto_free p = true ->
  exists root,
    setValue (VObject kd ps) p v = Ok root
    /\ getValue root p d = Ok (nullish v d).
Proof.
  intros _ Hparse Hne Hlen _. unfold setValue, getValue. cbn [truthy negb].
  rewrite Hparse. cbn [bind].
  destruct (set_then_get_walk (map classify (Str.fragments p)) v d) with (kd := kd) (ps := ps)
    as (kd' & ps' & Hset & Hget).
  - destruct (Str.fragments p); [congruence | discriminate].
  - apply keys_not_length, Hlen.
  - exists (VObject kd' ps'). rewrite Hset. cbn [truthy negb bind]. rewrite Hget.
    split; reflexivity.
Qed.

Lemma X4_setValue_then_getValue_witness :
  exists root,
    setValue (VObject KPlain [("user", VString "none"); ("count", VString "3")])
             "user.tags[1]" (VString "b") = Ok root
    /\ getValue root "user.tags[1]" VUndefined = Ok (nullish (VString "b") VUndefined).
Proof.
  apply (X4_setValue_then_getValue KPlain _ "user.tags[1]").
  - reflexivity.
  - reflexivity.
  - discriminate.
  - change (Str.fragments "user.tags[1]") with ["user"; "tags"; "1"].
    intros [H | [H | [H | []]]]; discriminate.
  - reflexivity.
Defined.

Lemma set_frame_walk (pre : list PathSegment) (s s' : PathSegment)
      (r r' : list PathSegment) (v d : Value) :
  Forall (fun s => String.eqb (property_key s) "length" = false) (pre ++ s :: r) ->
  String.eqb (property_key s') "length" = false ->
  property_key s' <> property_key s ->
  forall kd ps,
  exists kd' ps',
    setValue_from (VObject kd ps) (pre ++ s :: r) v = Ok (VObject kd' ps')
    /\ getValue_walk (VObject kd' ps') (pre ++ s' :: r') d
       = getValue_walk (VObject kd ps) (pre ++ s' :: r') d.
Proof.
  intros Hkeys Hs' Hne.
  induction pre as [|t pre IH]; intros kd ps.
  - cbn [app] in *. inversion Hkeys as [|? ? Hk Hrest]; subst.
    destruct r as [|nextSegment rest'].
    + cbn [setValue_from]. rewrite (set_object_ok _ _ _ _ Hk).
      destruct (assign_is_object kd ps (property_key s) v) as (kd1 & ps1 & Ha).
      exists kd1, ps1. split; [rewrite Ha; reflexivity|].
      rewrite !getValue_walk_object, <- Ha.
      rewrite (get_assign_other _ _ _ _ _ Hne Hs'). reflexivity.
    + destruct (setValue_from_descend kd ps s nextSegment rest' v Hk)
        as (kd1 & ps1 & kd0 & ps0 & -> & Hother & _).
      destruct (setValue_from_object (nextSegment :: rest') v Hrest kd0 ps0)
        as (kd2 & ps2 & ->).
      cbn [bind]. cbn [Obj.write_back]. eexists; eexists. split; [reflexivity|].
      rewrite !getValue_walk_object.
      change (VObject kd1 (Obj.put (property_key s) (VObject kd2 ps2) ps1))
        with (Obj.write_back (VObject kd1 ps1) (property_key s) (VObject kd2 ps2)).
      rewrite (get_write_back_other _ _ _ _ _ Hne), (Hother _ Hne Hs'). reflexivity.
  - cbn [app] in *. inversion Hkeys as [|? ? Hk Hrest]; subst.
    assert (Hsplit : exists n rest', pre ++ s :: r = n :: rest')
      by (destruct pre; eexists; eexists; reflexivity).
    destruct Hsplit as (n & rest' & Hsplit). rewrite Hsplit.
    destruct (setValue_from_descend kd ps t n rest' v Hk)
      as (kd1 & ps1 & kd0 & ps0 & -> & _ & Hchild).
    rewrite <- Hsplit.
    destruct (IH Hrest kd0 ps0) as (kd2 & ps2 & -> & Hget).
    cbn [bind]. eexists; eexists. split; [reflexivity|].
    rewrite !getValue_walk_object,
      (get_key_ok _ _ _ (key_ok_any kd1 _ Hk)), lookup_put_same, Hget.
    destruct (not_a_container (Obj.get (VObject kd ps) (property_key t))) eqn:Hc.
    + subst ps0. rewrite (walk_not_object _ _ _ Hc) by (destruct pre; discriminate).
      assert (Hfirst : exists q qs, pre ++ s' :: r' = q :: qs
                                    /\ String.eqb (property_key q) "length" = false).
      { destruct pre as [|q pre'].
        - exists s', r'. split; [reflexivity | exact Hs'].
        - exists q, (pre' ++ s' :: r'). split; [reflexivity|].
          inversion Hrest; assumption. }
      destruct Hfirst as (q & qs & -> & Hq).
      rewrite getValue_walk_object, (get_key_ok _ _ _ (key_ok_any _ _ Hq)).
      cbn [Obj.lookup]. apply walk_undefined.
    + rewrite Hchild. reflexivity.
Qed.

(** X5: [setValue] leaves the rest of the structure as it reads.  The
    root is a tree (no object is held at two places) that holds no
    [File]; the path written has no fragment "length" or "__proto__"; a
    second path follows it through containers that the root already holds
    and leaves it at some segment (after that common prefix, possibly
    empty) by another key, not "length", the indices of the path written
    and the key by which the second path leaves it being integers that
    [parseInt] returns exactly.  Then [getValue] at the second path gives
    the same result after the write as before it. *)
Theorem X5_setValue_keeps_other_paths (kd : kind) (ps : props) (p q : string)
        (pre : list PathSegment) (s s' : PathSegment) (r r' : list PathSegment)
        (v d : Value) :
  file_free (VObject kd ps) = true ->
  parsePath p = Ok (pre ++ s :: r) ->
  parsePath q = Ok (pre ++ s' :: r') ->
  proto_free p = true ->
  reaches_parent (VObject kd ps) (pre ++ [s]) = true ->
  Forall (fun s => String.eqb (property_key s) "length" = false) (pre ++ s :: r) ->
  String.eqb (property_key s') "length" = false ->
  forallb exact_segment (pre ++ s :: r) = true ->
  exact_segment s' = true ->
  property_key s' <> property_key s ->
  exists root,
    setValue (VObject kd ps) p v = Ok root
    /\ getValue root q d = getValue (VObject kd ps) q d.
Proof.
  intros _ Hp Hq _ _ Hkeys Hs' _ _ Hne. unfold setValue, getValue. cbn [truthy negb].
  rewrite Hp, Hq. cbn [bind].
  destruct (set_frame_walk pre s s' r r' v d Hkeys Hs' Hne kd ps)
    as (kd' & ps' & Hset & Hget).
  exists (VObject kd' ps'). rewrite Hset. cbn [truthy negb bind]. rewrite Hget.
  split; reflexivity.
Qed.

Lemma X5_setValue_keeps_other_paths_witness :
  exists root,
    setValue (VObject KPlain [("user", VObject KPlain [("name", VString "Ann")])])
             "user.tags[0]" (VString "a") = Ok root
    /\ getValue root "user.name" VUndefined
       = getValue (VObject KPlain [("user", VObject KPlain [("name", VString "Ann")])])
                  "user.name" VUndefined.
Proof.
  apply (X5_setValue_keeps_other_paths KPlain _ "user.tags[0]" "user.name"
           [SegName "user"] (SegName "tags") (SegName "name") [SegIndex 0] []).
  - reflexivity.
  - reflexivity.
  - reflexivity.
  - reflexivity.
  - reflexivity.
  - repeat constructor.
  - reflexivity.
  - reflexivity.
  - reflexivity.
  - discriminate.
Defined.

(** ** [deleteValue] *)

Lemma replace_same {A : Type} (k : string) (v : A) (ps : list (string * A)) :
  Obj.lookup k ps = Some v -> Obj.replace k v ps = ps.
Proof.
  induction ps as [|[k' v'] ps IH]; simpl; [reflexivity|].
  destruct (String.eqb_spec k k') as [->|Hne].
  - intros H. inversion H. reflexivity.
  - intros H. rewrite (IH H). reflexivity.
Qed.

Lemma put_same {A : Type} (k : string) (v : A) (ps : list (string * A)) :
  Obj.lookup k ps = Some v -> Obj.put k v ps = ps.
Proof. intros H. unfold Obj.put. rewrite H. apply replace_same, H. Qed.

Lemma lookup_remove_same {A : Type} (k : string) (ps : list (string * A)) :
  NoDup (Obj.keys ps) -> Obj.lookup k (Obj.remove k ps) = None.
Proof.
  induction ps as [|[k' v'] ps IH]; simpl; intros Hnd; [reflexivity|].
  inversion Hnd as [|? ? Hnotin Hnd']; subst.
  destruct (String.eqb_spec k k') as [->|Hne].
  - apply lookup_None_keys. exact Hnotin.
  - simpl. destruct (String.eqb_spec k k'); [contradiction | apply IH, Hnd'].
Qed.

Lemma lookup_remove_other {A : Type} (k k' : string) (ps : list (string * A)) :
  k' <> k -> Obj.lookup k' (Obj.remove k ps) = Obj.lookup k' ps.
Proof.
  intros Hne. induction ps as [|[k0 v0] ps IH]; simpl; [reflexivity|].
  destruct (String.eqb_spec k k0) as [->|Hk].
  - destruct (String.eqb_spec k' k0); [contradiction | reflexivity].
  - simpl. destruct (String.eqb k' k0); [reflexivity | exact IH].
Qed.

Lemma lookup_filter_None {A : Type} (f : string * A -> bool) (k : string)
      (ps : list (string * A)) :
  Obj.lookup k ps = None -> Obj.lookup k (filter f ps) = None.
Proof.
  induction ps as [|[k' v'] ps IH]; simpl; [reflexivity|].
  destruct (String.eqb k k') eqn:E; [discriminate|].
  intros H. destruct (f (k', v')); simpl; rewrite ?E; apply IH, H.
Qed.

Lemma unique_keys_object (kd : kind) (ps : props) :
  unique_keys (VObject kd ps)
  <-> NoDup (Obj.keys ps) /\ Forall (fun kv => unique_keys (snd kv)) ps.
Proof.
  cbn [unique_keys]. apply and_iff_compat_l.
  induction ps as [|[k v] ps IH]; [split; [constructor | exact (fun _ => I)]|].
  rewrite IH. split.
  - intros [Hv Hps]. constructor; assumption.
  - intros H. inversion H; subst. split; assumption.
Qed.

Lemma unique_keys_get (current : Value) (k : string) :
  unique_keys current -> unique_keys (Obj.get current k).
Proof.
  destruct current as [| | s | z | kd ps]; try (intros _; exact I).
  intros H. apply unique_keys_object in H as [_ Hall].
  assert (Hl : unique_keys match Obj.lookup k ps with Some v => v | None => VUndefined end).
  { destruct (Obj.lookup k ps) as [v|] eqn:E; [|exact I].
    rewrite Forall_forall in Hall. apply (Hall (k, v)), lookup_Some_In, E. }
  unfold Obj.get. destruct kd; try exact Hl.
  destruct (String.eqb k "length"); [exact I | exact Hl].
Qed.

Lemma container_key_ok (kd : kind) (ps : props) (k : string) :
  not_a_container (Obj.get (VObject kd ps) k) = false -> key_ok kd k.
Proof.
  destruct kd as [|len|name]; try (intros _; exact I).
  cbn [key_ok Obj.get]. destruct (String.eqb k "length"); [|reflexivity].
  unfold not_a_container. cbn [typeof_object negb]. rewrite orb_true_r. discriminate.
Qed.


Lemma has_not_object (w : Value) (segments : list PathSegment) :
  not_a_container w = true -> segments <> [] -> hasValue_walk w segments = false.
Proof.
  intros Hw Hne. destruct segments as [|s rest]; [congruence|].
  destruct w; try reflexivity.
  unfold not_a_container in Hw. simpl in Hw. discriminate.
Qed.

Lemma hasValue_walk_object (kd : kind) (ps : props) (segment : PathSegment)
      (rest : list PathSegment) :
  hasValue_walk (VObject kd ps) (segment :: rest)
  = hasValue_walk (Obj.get (VObject kd ps) (property_key segment)) rest.
Proof. reflexivity. Qed.

(** The outcome of the last step of [deleteValue] on an object whose
    keys are distinct: an error of the runtime, or an object that lacks
    the key. *)
Lemma delete_last_removes (kd : kind) (ps : props) (lastSegment : PathSegment) :
  NoDup (Obj.keys ps) ->
  match delete_last (VObject kd ps) (Some lastSegment) with
  | Ok r =>
      (exists kd' ps', r = VObject kd' ps')
      /\ hasValue_walk r [lastSegment] = false
  | Throw e => e = RangeError \/ e = TypeError
  end.
Proof.
  intros Hnd. unfold delete_last.
  set (key := property_key lastSegment).
  assert (Hgone : forall kd' f,
             key_ok kd' key ->
             hasValue_walk (VObject kd' (filter f (Obj.remove key ps))) [lastSegment] = false).
  { intros kd' f Hok. rewrite hasValue_walk_object. fold key.
    rewrite (get_key_ok _ _ _ Hok), (lookup_filter_None _ _ _ (lookup_remove_same key ps Hnd)).
    reflexivity. }
  assert (Hgone' : forall kd',
             key_ok kd' key ->
             hasValue_walk (VObject kd' (Obj.remove key ps)) [lastSegment] = false).
  { intros kd' Hok. rewrite hasValue_walk_object. fold key.
    rewrite (get_key_ok _ _ _ Hok), (lookup_remove_same key ps Hnd). reflexivity. }
  destruct kd as [|len|name].
  - cbn [Obj.delete bind]. split; [eauto | apply Hgone'; exact I].
  - cbn [Obj.delete]. destruct (String.eqb key "length") eqn:Hk; [right; reflexivity|].
    cbn [bind]. destruct lastSegment as [s|lastIndex].
    + split; [eauto | apply Hgone'; exact Hk].
    + destruct (existsb _ _); [split; [eauto | apply Hgone'; exact Hk]|].
      unfold Obj.set. cbn [String.eqb Ascii.eqb Bool.eqb].
      destruct (Obj.to_length (VNumber lastIndex)) as [n|]; [|left; reflexivity].
      split; [eauto|]. unfold Obj.truncate. apply Hgone. exact Hk.
  - cbn [Obj.delete bind]. split; [eauto | apply Hgone'; exact I].
Qed.

Lemma delete_then_has (segments : list PathSegment) :
  segments <> [] ->
  forall kd ps,
    unique_keys (VObject kd ps) ->
    match deleteValue_from (VObject kd ps) segments with
    | Ok r =>
        (exists kd' ps', r = VObject kd' ps')
        /\ hasValue_walk r segments = false
    | Throw e => e = RangeError \/ e = TypeError
    end.
Proof.
  induction segments as [|segment rest IH]; intros Hne kd ps Hu; [congruence|].
  destruct rest as [|nextSegment rest'].
  - cbn [deleteValue_from]. apply delete_last_removes.
    apply unique_keys_object in Hu. apply Hu.
  - rewrite deleteValue_from_step.
    destruct (not_a_container (Obj.get (VObject kd ps) (property_key segment))) eqn:Hc.
    + split; [eauto|]. rewrite hasValue_walk_object.
      apply has_not_object; [exact Hc | discriminate].
    + pose proof (unique_keys_get _ (property_key segment) Hu) as Hu'.
      destruct (container_is_object _ Hc) as (kd0 & ps0 & Hget). rewrite Hget in *.
      specialize (IH ltac:(discriminate) kd0 ps0 Hu').
      destruct (deleteValue_from (VObject kd0 ps0) (nextSegment :: rest')) as [child|e];
        [|exact IH].
      destruct IH as [_ Hhas]. cbn [bind Obj.write_back]. split; [eauto|].
      rewrite hasValue_walk_object.
      assert (Hok : key_ok kd (property_key segment))
        by (apply (container_key_ok kd ps); rewrite Hget; reflexivity).
      rewrite (get_key_ok _ _ _ Hok), lookup_put_same. exact Hhas.
Qed.

(** X6: after [deleteValue], [hasValue] at the same path is false.  For
    every root object in which no object lists a key twice, and every
    path with at least one segment whose walk from the root reads own
    properties only (on a plain object no segment is a name that
    [Object.prototype] defines, an array is indexed by numbers only, no
    [File] is met) and whose indices are integers that [parseInt] returns
    exactly, [deleteValue] either raises an error of the runtime
    (RangeError or TypeError, on the length of an array) or returns an
    object on which [hasValue] at that path returns false. *)
Theorem X6_deleteValue_then_hasValue (kd : kind) (ps : props) (p : string)
        (segments : list PathSegment) :
  unique_keys (VObject kd ps) ->
  parsePath p = Ok segments ->
  segments <> [] ->
  own_walk (VObject kd ps) segments = true ->
  forallb exact_segment segments = true ->
  match deleteValue (VObject kd ps) p with
  | Ok root => hasValue root p = Ok false
  | Throw e => e = RangeError \/ e = TypeError
  end.
Proof.
  intros Hu Hparse Hne _ _. unfold deleteValue, hasValue. cbn [truthy negb].
  rewrite Hparse. cbn [bind].
  pose proof (delete_then_has segments Hne kd ps Hu) as H.
  destruct (deleteValue_from (VObject kd ps) segments) as [r|e]; [|exact H].
  destruct H as [(kd' & ps' & ->) Hhas]. cbn [truthy negb bind]. rewrite Hhas. reflexivity.
Qed.

Lemma X6_deleteValue_then_hasValue_witness :
  match deleteValue
          (VObject KPlain [("user", VObject KPlain [("name", VString "Ann");
                                                     ("mail", VString "a@b.c")])])
          "user.name" with
  | Ok root => hasValue root "user.name" = Ok false
  | Throw e => e = RangeError \/ e = TypeError
  end.
Proof.
  apply (X6_deleteValue_then_hasValue KPlain _ "user.name" [SegName "user"; SegName "name"]).
  - cbn. repeat split; repeat constructor; simpl; intuition discriminate.
  - reflexivity.
  - discriminate.
  - reflexivity.
  - reflexivity.
Defined.




(** *** Deleting an element of a dense array *)













(** ** The fragments of a path *)

Lemma no_separators_app (a b : string) :
  no_separators a = true -> no_separators b = true -> no_separators (a ++ b)%string = true.
Proof.
  induction a as [|c a IH]; simpl; intros Ha Hb; [exact Hb|].
  apply andb_true_iff in Ha as [Hc Ha]. rewrite Hc, (IH Ha Hb). reflexivity.
Qed.

Lemma split_aux_spec (s : string) :
  forall cur,
    no_separators cur = true ->
    Forall (fun f => no_separators f = true) (Str.split_aux s cur)
    /\ join (Str.split_aux s cur) = (cur ++ strip_separators s)%string.
Proof.
  induction s as [|c s IH]; intros cur Hcur.
  - split; [repeat constructor; exact Hcur|]. unfold join. simpl.
    rewrite !append_empty_r. reflexivity.
  - cbn [Str.split_aux strip_separators]. destruct (Str.is_separator c) eqn:Hc.
    + destruct (IH EmptyString eq_refl) as [Hall Hjoin]. split.
      * constructor; assumption.
      * unfold join in *. cbn [fold_right]. rewrite Hjoin. reflexivity.
    + assert (Hcur' : no_separators (cur ++ String c EmptyString)%string = true).
      { apply no_separators_app; [exact Hcur|]. simpl. rewrite Hc. reflexivity. }
      destruct (IH _ Hcur') as [Hall Hjoin]. split; [exact Hall|].
      rewrite Hjoin. apply append_assoc_char.
Qed.

Lemma join_filter_nonempty (l : list string) : join (filter Str.nonempty l) = join l.
Proof.
  unfold join. induction l as [|f l IH]; [reflexivity|].
  destruct f as [|c f]; cbn [filter Str.nonempty fold_right]; rewrite IH; reflexivity.
Qed.

Lemma fragments_proper (p : string) : Forall proper_fragment (Str.fragments p).
Proof.
  unfold Str.fragments, Str.split. apply Forall_forall. intros f Hin.
  apply filter_In in Hin as [Hin Hne].
  destruct (split_aux_spec p EmptyString eq_refl) as [Hall _].
  rewrite Forall_forall in Hall. split; [|apply Hall, Hin].
  intros ->. discriminate.
Qed.

Lemma fragments_no_separators (s : string) :
  no_separators s = true -> s <> EmptyString -> Str.fragments s = [s].
Proof.
  intros Hs Hne. unfold Str.fragments, Str.split.
  rewrite <- (append_empty_r s) at 1.
  rewrite (split_aux_no_separators s EmptyString EmptyString Hs).
  cbn [append Str.split_aux filter]. destruct s; [congruence | reflexivity].
Qed.

(** X10: the fragments of a path.  Whatever the path, each of its
    fragments is non-empty and free of separators, and the fragments
    written one after the other are the path with its separators
    removed: splitting loses and invents no character.  A non-empty path
    with no separator is its own single fragment.  The segments that
    [parsePath] returns are therefore never empty names nor names that
    hold a separator, and the only error of [parsePath] is InvalidPath. *)
Theorem X10_parsePath_fragments (p : string) :
  Forall proper_fragment (Str.fragments p)
  /\ join (Str.fragments p) = strip_separators p
  /\ (no_separators p = true -> p <> EmptyString -> parsePath p = Ok [classify p])
  /\ match parsePath p with
     | Ok segments => Forall proper_segment segments
     | Throw e => e = InvalidPath
     end.
Proof.
  split; [apply fragments_proper|]. split; [|split].
  - unfold Str.fragments, Str.split. rewrite join_filter_nonempty.
    apply (split_aux_spec p EmptyString eq_refl).
  - intros Hs Hne. unfold parsePath.
    assert (Hdd : Str.includes_dotdot p = false).
    { clear Hne. induction p as [|c p IH]; [reflexivity|].
      simpl in Hs. apply andb_true_iff in Hs as [Hc Hs]. specialize (IH Hs).
      destruct c as [[] [] [] [] [] [] [] []]; try exact IH; discriminate Hc. }
    rewrite Hdd, (fragments_no_separators p Hs Hne).
    destruct p; [congruence | reflexivity].
  - destruct (parsePath_cases p) as [-> | ->]; [reflexivity|].
    apply Forall_forall. intros seg Hin. apply in_map_iff in Hin as (f & <- & Hf).
    pose proof (fragments_proper p) as Hall. rewrite Forall_forall in Hall.
    unfold classify. destruct (Num.parseInt f); [exact I | apply Hall, Hf].
Qed.

(** ** The shape of a normalised tree *)









(** ** The simple fields of [processFormData] *)

Lemma fold_simple_fields (entries : list (string * Value)) :
  forall result,
    fold_left
      (fun result kv =>
         if is_simple_key (fst kv) then Obj.put (fst kv) (snd kv) result else result)
      entries result
    = fold_left (fun acc kv => Obj.put (fst kv) (snd kv) acc) (simple_entries entries) result.
Proof.
  unfold simple_entries.
  induction entries as [|kv entries IH]; intros result; [reflexivity|].
  cbn [fold_left filter]. destruct (is_simple_key (fst kv)); cbn [fold_left]; apply IH.
Qed.

Lemma NoDup_keys_spread (a b : props) : NoDup (Obj.keys (spread a b)).
Proof. unfold spread. apply NoDup_keys_fold_put. constructor. Qed.

(** X12: the simple fields.  Whenever [processFormData] returns on a
    batch no key of which has the fragment "__proto__", no key is listed
    twice in its result, and a key that [Object.prototype] does not
    define and that is the root of no path-bearing entry is mapped to the
    value of the last simple entry with that key, unchanged (an empty
    string included), and is absent when there is no such entry. *)
Theorem X12_simple_fields_last_wins (entries : list (string * Value))
        (out : ProcessedFormData) (k : string) :
  processFormData entries = Ok out ->
  forallb (fun kv => proto_free (fst kv)) entries = true ->
  Obj.inherited k = false ->
  (forall kv, In kv entries -> is_simple_key (fst kv) = false ->
              base_name (Str.fragments (fst kv)) <> k) ->
  NoDup (Obj.keys out)
  /\ Obj.lookup k out = Obj.lookup k (rev (simple_entries entries)).
Proof.
  intros Hout _ _ Hk.
  rewrite (processFormData_safe _ (processFormData_Ok_base _ _ Hout)) in Hout.
  set (nested := filter _ entries) in Hout.
  destruct (processFieldGroups (grouped nested)) as [gout|e] eqn:Hg; [|discriminate].
  cbn [bind] in Hout. inversion Hout; subst out. clear Hout.
  split; [apply NoDup_keys_spread|].
  rewrite processFieldGroups_unfold in Hg.
  assert (Hnone : Obj.lookup k (grouped nested) = None).
  { subst nested. rewrite grouped_lookup.
    destruct (filter (in_group k) entries) as [|kv l] eqn:Hf; [reflexivity|].
    exfalso. assert (Hin : In kv (filter (in_group k) entries)) by (rewrite Hf; left; reflexivity).
    apply filter_In in Hin as [Hin Hgrp]. unfold in_group in Hgrp.
    apply andb_true_iff in Hgrp as [Hs Hb].
    apply (Hk kv Hin); [apply negb_true_iff, Hs | apply String.eqb_eq, Hb]. }
  apply lookup_None_keys in Hnone.
  rewrite lookup_spread by (apply (fold_emit_group_NoDup _ [] _ (NoDup_nil _) Hg)).
  rewrite (fold_emit_group_other _ _ Hnone _ _ Hg). cbn [Obj.lookup].
  rewrite fold_simple_fields.
  rewrite lookup_rev by (apply NoDup_keys_fold_put; constructor).
  rewrite lookup_fold_put. cbn [Obj.lookup].
  destruct (Obj.lookup k (rev (simple_entries entries))); reflexivity.
Qed.

Lemma X12_simple_fields_last_wins_witness :
  NoDup (Obj.keys [("name", VString "Bob"); ("note", VString EmptyString);
                   ("tags", array_of_strings ["a"])])
  /\ Obj.lookup "name" [("name", VString "Bob"); ("note", VString EmptyString);
                        ("tags", array_of_strings ["a"])]
     = Obj.lookup "name"
         (rev (simple_entries
                 (str_entries [("name", "Ann"); ("note", EmptyString);
                               ("tags[0]", "a"); ("name", "Bob")]))).
Proof.
  apply (X12_simple_fields_last_wins
           (str_entries [("name", "Ann"); ("note", EmptyString);
                         ("tags[0]", "a"); ("name", "Bob")])).
  - reflexivity.
  - reflexivity.
  - reflexivity.
  - intros kv [<- | [<- | [<- | [<- | []]]]]; simpl; intros H; discriminate.
Defined.

(** ** List groups with blank values *)

Lemma place_field_blank (acc : outcome Value) (item : Z * string) :
  not_blank item = false -> place_field acc (item_field item) = acc.
Proof.
  intros Hb. unfold place_field, setNestedValue, item_field, not_blank in *.
  cbn [path value isEmptyValue]. apply negb_false_iff in Hb. rewrite Hb.
  destruct acc; reflexivity.
Qed.

Lemma fold_place_field_drops_blank (items : list (Z * string)) :
  forall acc,
    fold_left place_field (map item_field items) acc
    = fold_left place_field (map item_field (filter not_blank items)) acc.
Proof.
  induction items as [|x items IH]; intros acc; [reflexivity|].
  cbn [map fold_left filter]. destruct (not_blank x) eqn:Hb.
  - cbn [map fold_left]. apply IH.
  - rewrite (place_field_blank _ _ Hb). apply IH.
Qed.

Lemma isArrayStructure_items (items : list (Z * string)) :
  Forall indexed_item items -> isArrayStructure (map item_field items) = true.
Proof.
  intros H. unfold isArrayStructure. apply forallb_forall. intros f Hf.
  apply in_map_iff in Hf as (x & <- & Hx). rewrite Forall_forall in H.
  cbn [item_field path]. apply isNumericKey_to_string.
  destruct (H _ Hx). assumption.
Qed.

Lemma process_group_drops_blank (items : list (Z * string)) :
  Forall indexed_item items ->
  process_group (map item_field items)
  = process_group (map item_field (filter not_blank items)).
Proof.
  intros H. rewrite !process_group_unfold, fold_place_field_drops_blank.
  fold (isArrayStructure (map item_field items)).
  fold (isArrayStructure (map item_field (filter not_blank items))).
  rewrite (isArrayStructure_items _ H).
  rewrite (isArrayStructure_items _ (Forall_filter _ _ _ H)). reflexivity.
Qed.

(** X13: a list group with blank values.  For the entries [root[n] = s]
    of one group whose base name [root] is not a name that
    [Object.prototype] defines, the indices [n] being array indices, the
    entries whose value is blank are dropped and the others, their indices
    pairwise distinct, make the dense array of their values in ascending
    order of index; when every value is blank the group is the empty
    object. *)
Theorem X13_list_group_drops_blank (root : string) (items : list (Z * string)) :
  no_separators root = true ->
  root <> EmptyString ->
  Obj.inherited root = false ->
  items <> [] ->
  Forall indexed_item items ->
  NoDup (map fst (filter not_blank items)) ->
  processFormData (map (item_entry root) items)
  = Ok [(root,
         match filter not_blank items with
         | [] => empty_object
         | kept => array_of_strings (map snd (sort_items kept))
         end)].
Proof.
  intros Hroot Hr Hown Hne Hidx Hnd.
  assert (Hgroup : process_group (map item_field items)
                   = Ok match filter not_blank items with
                        | [] => empty_object
                        | kept => array_of_strings (map snd (sort_items kept))
                        end).
  { rewrite (process_group_drops_blank _ Hidx).
    destruct (filter not_blank items) as [|x kept] eqn:Hkept; [reflexivity|].
    rewrite process_group_items.
    - unfold array_of_strings. rewrite map_map. reflexivity.
    - discriminate.
    - rewrite <- Hkept. apply Forall_forall. intros y Hy.
      apply filter_In in Hy as [Hy Hb]. rewrite Forall_forall in Hidx.
      split; [apply (Hidx _ Hy)|]. apply negb_true_iff. exact Hb.
    - exact Hnd. }
  assert (Hnested : Forall (fun kv => is_simple_key (fst kv) = false)
                           (map (item_entry root) items)).
  { apply Forall_forall. intros kv Hin. apply in_map_iff in Hin as (x & <- & _).
    apply item_entry_not_simple. }
  apply processFormData_one_root.
  - exact Hown.
  - destruct items; [congruence | discriminate].
  - exact Hnested.
  - apply Forall_forall. intros kv Hin. apply in_map_iff in Hin as (x & <- & Hx).
    rewrite Forall_forall in Hidx.
    rewrite (fragments_item_entry _ _ Hroot Hr (proj1 (Hidx _ Hx))). reflexivity.
  - rewrite map_map.
    rewrite (map_ext_in _ item_field); [exact Hgroup|].
    intros x Hx. rewrite Forall_forall in Hidx.
    apply (to_field_item_entry _ _ Hroot Hr (proj1 (Hidx _ Hx))).
Qed.

Lemma X13_list_group_drops_blank_witness :
  processFormData
    (map (item_entry "tags") [(3%Z, "c"); (0%Z, " "); (1%Z, "a"); (2%Z, EmptyString)])
  = Ok [("tags",
         match filter not_blank [(3%Z, "c"); (0%Z, " "); (1%Z, "a"); (2%Z, EmptyString)] with
         | [] => empty_object
         | kept => array_of_strings (map snd (sort_items kept))
         end)].
Proof.
  apply (X13_list_group_drops_blank
           "tags" [(3%Z, "c"); (0%Z, " "); (1%Z, "a"); (2%Z, EmptyString)]).
  - reflexivity.
  - discriminate.
  - reflexivity.
  - discriminate.
  - repeat constructor; simpl; lia.
  - simpl. repeat constructor; simpl; intuition lia.
Defined.

(** ** The errors of [deleteValue] on an object *)

Lemma delete_last_errors (kd : kind) (ps : props) (lastSegment : option PathSegment) :
  match delete_last (VObject kd ps) lastSegment with
  | Ok r => exists kd' ps', r = VObject kd' ps'
  | Throw e => e = RangeError \/ e = TypeError
  end.
Proof.
  unfold delete_last.
  set (key := match lastSegment with Some s => property_key s | None => "undefined" end).
  destruct kd as [|len|name].
  - cbn [Obj.delete bind]. destruct lastSegment as [[?|?]|]; eauto.
  - cbn [Obj.delete]. destruct (String.eqb key "length"); [right; reflexivity|].
    cbn [bind]. destruct lastSegment as [[?|lastIndex]|]; eauto.
    destruct (existsb _ _); eauto.
    unfold Obj.set. cbn [String.eqb Ascii.eqb Bool.eqb].
    destruct (Obj.to_length (VNumber lastIndex)); [eauto | left; reflexivity].
  - cbn [Obj.delete bind]. destruct lastSegment as [[?|?]|]; eauto.
Qed.

Lemma delete_then_has_errors (segments : list PathSegment) :
  forall kd ps,
    match deleteValue_from (VObject kd ps) segments with
    | Ok r => exists kd' ps', r = VObject kd' ps'
    | Throw e => e = RangeError \/ e = TypeError
    end.
Proof.
  induction segments as [|segment rest IH]; intros kd ps.
  - apply (delete_last_errors kd ps None).
  - destruct rest as [|nextSegment rest'].
    + apply (delete_last_errors kd ps (Some segment)).
    + rewrite deleteValue_from_step.
      destruct (not_a_container (Obj.get (VObject kd ps) (property_key segment))) eqn:Hc;
        [eauto|].
      destruct (container_is_object _ Hc) as (kd0 & ps0 & ->).
      specialize (IH kd0 ps0).
      destruct (deleteValue_from (VObject kd0 ps0) (nextSegment :: rest')) as [child|e];
        [|exact IH].
      cbn [bind Obj.write_back]. eauto.
Qed.

(** ** What [deleteValue] leaves in place *)

Lemma lookup_filter_kept {A : Type} (f : string * A -> bool) (k : string)
      (ps : list (string * A)) :
  (forall v, In (k, v) ps -> f (k, v) = true) ->
  Obj.lookup k (filter f ps) = Obj.lookup k ps.
Proof.
  induction ps as [|[k0 v0] ps IH]; intros Hf; [reflexivity|].
  cbn [filter Obj.lookup]. destruct (String.eqb_spec k k0) as [->|Hne].
  - rewrite (Hf v0 (or_introl eq_refl)). cbn [Obj.lookup]. rewrite String.eqb_refl.
    reflexivity.
  - assert (IH' : Obj.lookup k (filter f ps) = Obj.lookup k ps)
      by (apply IH; intros v Hin; apply Hf; right; exact Hin).
    destruct (f (k0, v0)); [|exact IH'].
    cbn [Obj.lookup]. destruct (String.eqb_spec k k0); [contradiction | exact IH'].
Qed.

Lemma lookup_truncate_other (n : Z) (k : string) (ps : props) :
  k <> Num.to_string n ->
  existsb (fun key => match Num.parseInt key with
                      | Some numKey => (n <? numKey)%Z
                      | None => false
                      end) (Obj.keys ps) = false ->
  Obj.lookup k (Obj.truncate n ps) = Obj.lookup k ps.
Proof.
  intros Hne Hnone. unfold Obj.truncate. apply lookup_filter_kept. intros v Hin.
  cbn [fst]. destruct (Num.array_index k) as [i|] eqn:Hi; [|reflexivity].
  apply array_index_Some in Hi as [Hrange Hk]. apply Z.ltb_lt.
  destruct (Z.lt_trichotomy i n) as [Hlt | [-> | Hgt]]; [exact Hlt | congruence |].
  exfalso. apply not_true_iff_false in Hnone. apply Hnone.
  apply existsb_exists. exists k. split.
  - unfold Obj.keys. change k with (fst (k, v)). apply in_map, Hin.
  - rewrite <- Hk, parseInt_to_string by lia. apply Z.ltb_lt. exact Hgt.
Qed.

Lemma delete_last_frame (kd : kind) (ps : props) (s s' : PathSegment) :
  String.eqb (property_key s') "length" = false ->
  property_key s' <> property_key s ->
  match delete_last (VObject kd ps) (Some s) with
  | Ok r =>
      (exists kd' ps', r = VObject kd' ps')
      /\ Obj.get r (property_key s') = Obj.get (VObject kd ps) (property_key s')
  | Throw e => e = RangeError \/ e = TypeError
  end.
Proof.
  intros Hs' Hne. unfold delete_last.
  set (k := property_key s) in *. set (k' := property_key s') in *.
  assert (Hrem : forall kd', Obj.get (VObject kd' (Obj.remove k ps)) k'
                             = Obj.get (VObject kd ps) k').
  { intros kd'. rewrite !(get_key_ok _ _ _ (key_ok_any _ _ Hs')).
    rewrite (lookup_remove_other _ _ _ Hne). reflexivity. }
  destruct kd as [|len|name].
  - cbn [Obj.delete bind]. split; [eauto | apply Hrem].
  - cbn [Obj.delete]. destruct (String.eqb k "length") eqn:Hk; [right; reflexivity|].
    cbn [bind]. destruct s as [name|lastIndex].
    + split; [eauto | apply Hrem].
    + destruct (existsb _ _) eqn:Hnone; [split; [eauto | apply Hrem]|].
      unfold Obj.set. cbn [String.eqb Ascii.eqb Bool.eqb].
      destruct (Obj.to_length (VNumber lastIndex)) as [n|] eqn:Hn; [|left; reflexivity].
      assert (n = lastIndex).
      { unfold Obj.to_length in Hn.
        destruct ((0 <=? lastIndex) && (lastIndex <? 4294967296))%Z; congruence. }
      subst n. split; [eauto|].
      rewrite <- (Hrem (KArray len)).
      rewrite !(get_key_ok _ _ _ (key_ok_any _ _ Hs')).
      rewrite (lookup_truncate_other _ _ _ Hne Hnone). reflexivity.
  - cbn [Obj.delete bind]. split; [eauto | apply Hrem].
Qed.

Lemma delete_frame_walk (pre : list PathSegment) (s s' : PathSegment)
      (r r' : list PathSegment) (d : Value) :
  String.eqb (property_key s') "length" = false ->
  property_key s' <> property_key s ->
  forall kd ps,
    match deleteValue_from (VObject kd ps) (pre ++ s :: r) with
    | Ok root =>
        (exists kd' ps', root = VObject kd' ps')
        /\ getValue_walk root (pre ++ s' :: r') d
           = getValue_walk (VObject kd ps) (pre ++ s' :: r') d
    | Throw e => e = RangeError \/ e = TypeError
    end.
Proof.
  intros Hs' Hne. induction pre as [|t pre IH]; intros kd ps.
  - cbn [app]. destruct r as [|n rest].
    + cbn [deleteValue_from].
      pose proof (delete_last_frame kd ps s s' Hs' Hne) as H.
      destruct (delete_last (VObject kd ps) (Some s)) as [root|e]; [|exact H].
      destruct H as [(kd' & ps' & ->) Hget]. split; [eauto|].
      rewrite !getValue_walk_object, Hget. reflexivity.
    + rewrite deleteValue_from_step.
      destruct (not_a_container (Obj.get (VObject kd ps) (property_key s))) eqn:Hc;
        [split; [eauto | reflexivity]|].
      destruct (container_is_object _ Hc) as (kd0 & ps0 & Hget). rewrite Hget.
      pose proof (delete_then_has_errors (n :: rest) kd0 ps0) as Herr.
      destruct (deleteValue_from (VObject kd0 ps0) (n :: rest)) as [child|e];
        [|exact Herr].
      cbn [bind Obj.write_back]. split; [eauto|].
      rewrite !getValue_walk_object. cbn [Obj.get].
      rewrite (lookup_put_other _ _ _ _ Hne). reflexivity.
  - cbn [app].
    assert (Hsplit : exists n rest, pre ++ s :: r = n :: rest)
      by (destruct pre; eexists; eexists; reflexivity).
    destruct Hsplit as (n & rest & Hsplit). rewrite Hsplit, deleteValue_from_step.
    rewrite <- Hsplit.
    destruct (not_a_container (Obj.get (VObject kd ps) (property_key t))) eqn:Hc;
      [split; [eauto | reflexivity]|].
    pose proof (container_key_ok _ _ _ Hc) as Hok.
    destruct (container_is_object _ Hc) as (kd0 & ps0 & Hget). rewrite Hget.
    specialize (IH kd0 ps0).
    destruct (deleteValue_from (VObject kd0 ps0) (pre ++ s :: r)) as [child|e];
      [|exact IH].
    destruct IH as [_ Hwalk]. cbn [bind Obj.write_back]. split; [eauto|].
    rewrite !getValue_walk_object, Hget, <- Hwalk.
    rewrite (get_key_ok _ _ _ Hok), lookup_put_same. reflexivity.
Qed.

(** X14: [deleteValue] leaves the rest of the structure as it reads.
    The root is a tree (no object is held at two places); the path
    deleted has no fragment "__proto__"; a second path leaves it at some
    segment (after a common prefix, possibly empty) by another key, not
    "length", the two indices (if they are indices) being integers that
    [parseInt] returns exactly.  Then [deleteValue] either raises an
    error of the runtime or returns an object on which [getValue] at the
    second path gives what it gave before. *)
Theorem X14_deleteValue_keeps_other_paths (kd : kind) (ps : props) (p q : string)
        (pre : list PathSegment) (s s' : PathSegment) (r r' : list PathSegment)
        (d : Value) :
  parsePath p = Ok (pre ++ s :: r) ->
  parsePath q = Ok (pre ++ s' :: r') ->
  proto_free p = true ->
  String.eqb (property_key s') "length" = false ->
  exact_segment s = true ->
  exact_segment s' = true ->
  property_key s' <> property_key s ->
  match deleteValue (VObject kd ps) p with
  | Ok root => getValue root q d = getValue (VObject kd ps) q d
  | Throw e => e = RangeError \/ e = TypeError
  end.
Proof.
  intros Hp Hq _ Hs' _ _ Hne. unfold deleteValue, getValue. cbn [truthy negb].
  rewrite Hp, Hq. cbn [bind].
  pose proof (delete_frame_walk pre s s' r r' d Hs' Hne kd ps) as H.
  destruct (deleteValue_from (VObject kd ps) (pre ++ s :: r)) as [root|e]; [|exact H].
  destruct H as [(kd' & ps' & ->) Hwalk]. cbn [truthy negb]. rewrite Hwalk. reflexivity.
Qed.

Lemma X14_deleteValue_keeps_other_paths_witness :
  match deleteValue
          (VObject KPlain [("items", Obj.of_list [VString "a"; VString "b"; VString "c"])])
          "items[2]" with
  | Ok root =>
      getValue root "items[0]" VUndefined
      = getValue (VObject KPlain [("items", Obj.of_list [VString "a"; VString "b"; VString "c"])])
                 "items[0]" VUndefined
  | Throw e => e = RangeError \/ e = TypeError
  end.
Proof.
  apply (X14_deleteValue_keeps_other_paths KPlain _ "items[2]" "items[0]"
           [SegName "items"] (SegIndex 2) (SegIndex 0) [] []).
  - reflexivity.
  - reflexivity.
  - reflexivity.
  - reflexivity.
  - reflexivity.
  - reflexivity.
  - discriminate.
Defined.

(** ** Normalising a tree without empty leaves *)


(** ** [setNestedValue] places the value at its path *)

Lemma setNestedValue_from_descend (kd : kind) (ps : props) (key nextKey : string)
      (rest : list string) (value : Value) :
  String.eqb key "length" = false ->
  exists kd1 ps1 kd0 ps0,
    setNestedValue_from (VObject kd ps) (key :: nextKey :: rest) value
    = (child <- setNestedValue_from (VObject kd0 ps0) (nextKey :: rest) value ;;
       Ok (Obj.write_back (VObject kd1 ps1) key child)).
Proof.
  intros Hk. rewrite setNestedValue_from_step.
  destruct (not_a_container (Obj.get (VObject kd ps) key)) eqn:Hc.
  - rewrite (set_object_ok _ _ _ _ Hk). cbn [bind].
    rewrite (get_assign_same _ _ _ _ Hk).
    destruct (assign_is_object kd ps key
                (if isNumericKey nextKey then empty_array else empty_object))
      as (kd1 & ps1 & ->).
    exists kd1, ps1, (if isNumericKey nextKey then KArray 0 else KPlain), [].
    destruct (isNumericKey nextKey); reflexivity.
  - destruct (isNumericKey nextKey && negb (isArray (Obj.get (VObject kd ps) key))).
    + rewrite (set_object_ok _ _ _ _ Hk). cbn [bind].
      rewrite (get_assign_same _ _ _ _ Hk).
      destruct (convertToArray_is_array (props_of (Obj.get (VObject kd ps) key)))
        as (len0 & ps0 & ->).
      destruct (assign_is_object kd ps key (VObject (KArray len0) ps0))
        as (kd1 & ps1 & ->).
      exists kd1, ps1, (KArray len0), ps0. reflexivity.
    + cbn [bind]. destruct (container_is_object _ Hc) as (kd0 & ps0 & ->).
      exists kd, ps, kd0, ps0. reflexivity.
Qed.

Lemma setNestedValue_from_read (path : list string) (value : Value) :
  path <> [] ->
  ~ In "length" path ->
  forall kd ps,
  exists kd' ps',
    setNestedValue_from (VObject kd ps) path value = Ok (VObject kd' ps')
    /\ read_path (VObject kd' ps') path = value.
Proof.
  unfold read_path.
  induction path as [|key rest IH]; intros Hne Hlen kd ps; [congruence|].
  assert (Hk : String.eqb key "length" = false)
    by (apply String.eqb_neq; intros ->; apply Hlen; left; reflexivity).
  assert (Hrest : ~ In "length" rest) by (intros Hin; apply Hlen; right; exact Hin).
  destruct rest as [|nextKey rest'].
  - cbn [setNestedValue_from]. rewrite (set_object_ok _ _ _ _ Hk).
    destruct (assign_kind kd ps key value) as (kd1 & ps1 & Ha & Hl & Hok).
    rewrite Ha. exists kd1, ps1. split; [reflexivity|].
    cbn [fold_left]. rewrite (get_key_ok _ _ _ (Hok (key_ok_any _ _ Hk))), Hl. reflexivity.
  - destruct (setNestedValue_from_descend kd ps key nextKey rest' value Hk)
      as (kd1 & ps1 & kd0 & ps0 & ->).
    destruct (IH ltac:(discriminate) Hrest kd0 ps0) as (kd2 & ps2 & -> & Hread).
    cbn [bind Obj.write_back]. eexists; eexists. split; [reflexivity|].
    cbn [fold_left] in *.
    rewrite (get_key_ok _ _ _ (key_ok_any kd1 _ Hk)), lookup_put_same. exact Hread.
Qed.

(** X16: [setNestedValue] places a value that is not blank at its path:
    on every object that holds no [File] and no array with a property
    named "map" or "constructor", whatever else it holds, and for every
    path with at least one key, none of them "length" or "__proto__", it
    returns an object in which following the keys of the path leads to
    the value, whichever containers it created, converted or found on the
    way; a blank string leaves the object as it was. *)
Theorem X16_setNestedValue_places_value (kd : kind) (ps : props) (path : list string)
        (value : Value) :
  file_free (VObject kd ps) = true ->
  plain_arrays (VObject kd ps) = true ->
  path <> [] ->
  ~ In "length" path ->
  ~ In "__proto__" path ->
  exists root,
    setNestedValue (VObject kd ps) path value = Ok root
    /\ (if isEmptyValue value then root = VObject kd ps else read_path root path = value).
Proof.
  intros _ _ Hne Hlen _. unfold setNestedValue.
  destruct path as [|key rest]; [congruence|].
  destruct (isEmptyValue value); [eexists; split; reflexivity|].
  destruct (setNestedValue_from_read (key :: rest) value Hne Hlen kd ps)
    as (kd' & ps' & Hset & Hread).
  exists (VObject kd' ps'). split; assumption.
Qed.

Lemma X16_setNestedValue_places_value_witness :
  exists root,
    setNestedValue (VObject KPlain [("address", VObject KPlain [("0", VString "x")])])
                   ["address"; "1"; "city"] (VString "Rome") = Ok root
    /\ (if isEmptyValue (VString "Rome")
        then root = VObject KPlain [("address", VObject KPlain [("0", VString "x")])]
        else read_path root ["address"; "1"; "city"] = VString "Rome").
Proof.
  apply (X16_setNestedValue_places_value KPlain _ ["address"; "1"; "city"]).
  - reflexivity.
  - reflexivity.
  - discriminate.
  - intros [H | [H | [H | []]]]; discriminate.
  - intros [H | [H | [H | []]]]; discriminate.
Defined.

(** ** The bracket-only path parser *)

Lemma no_brackets_no_open (s rest : string) :
  no_brackets s = true ->
  Str.includes_char "[" (s ++ String "[" rest)%string = true
  /\ before_bracket (s ++ String "[" rest)%string = s
  /\ from_bracket (s ++ String "[" rest)%string = String "[" rest.
Proof.
  induction s as [|c s IH]; intros H; [repeat split|].
  cbn [no_brackets] in H. apply andb_true_iff in H as [Hc Hs].
  apply negb_true_iff, orb_false_iff in Hc as [Hopen _].
  destruct (IH Hs) as (Hi & Hb & Hf).
  cbn [append Str.includes_char before_bracket from_bracket].
  rewrite Hopen, Hi, Hb, Hf.
  rewrite Ascii.eqb_sym in Hopen. rewrite Hopen. repeat split.
Qed.

Lemma bracket_parts_inside (d rest : string) :
  no_brackets d = true ->
  forall currentPart pathParts,
    bracket_parts_from (d ++ rest)%string currentPart true pathParts
    = bracket_parts_from rest (currentPart ++ d)%string true pathParts.
Proof.
  induction d as [|c d IH]; intros H currentPart pathParts.
  - cbn [append]. rewrite append_empty_r. reflexivity.
  - cbn [no_brackets] in H. apply andb_true_iff in H as [Hc Hd].
    apply negb_true_iff, orb_false_iff in Hc as [Hopen Hclose].
    cbn [append bracket_parts_from]. rewrite Hopen, Hclose, (IH Hd), append_assoc_char.
    reflexivity.
Qed.

Lemma bracket_parts_chain (parts : list string) :
  Forall (fun d => no_brackets d = true) parts ->
  forall pathParts,
    bracket_parts_from (bracket_chain parts) EmptyString false pathParts
    = pathParts ++ parts.
Proof.
  induction 1 as [|d parts Hd _ IH]; intros pathParts.
  - cbn. rewrite app_nil_r. reflexivity.
  - cbn [bracket_chain fold_right]. fold (bracket_chain parts).
    change ("[" ++ d ++ "]" ++ bracket_chain parts)%string
      with (String "[" (d ++ String "]" (bracket_chain parts)))%string.
    cbn [bracket_parts_from Ascii.eqb Bool.eqb]. cbv iota.
    rewrite (bracket_parts_inside d _ Hd). cbn [append bracket_parts_from].
    cbn [Ascii.eqb Bool.eqb]. cbv iota.
    rewrite IH, <- app_assoc. reflexivity.
Qed.

Lemma no_separators_no_brackets (s : string) :
  no_separators s = true -> no_brackets s = true.
Proof.
  induction s as [|c s IH]; [reflexivity|]. cbn [no_separators no_brackets].
  intros H. apply andb_true_iff in H as [Hc Hs]. rewrite (IH Hs), andb_true_r.
  unfold Str.is_separator in Hc. apply negb_true_iff in Hc. apply negb_true_iff.
  apply orb_false_iff in Hc as [Hc Hclose]. apply orb_false_iff in Hc as [_ Hopen].
  rewrite Hopen, Hclose. reflexivity.
Qed.

Lemma split_aux_chain (parts : list string) :
  Forall proper_fragment parts ->
  forall cur,
    filter Str.nonempty (Str.split_aux (bracket_chain parts) cur)
    = filter Str.nonempty [cur] ++ parts.
Proof.
  induction 1 as [|d parts [Hne Hd] _ IH]; intros cur.
  - cbn [bracket_chain fold_right Str.split_aux]. rewrite app_nil_r. reflexivity.
  - cbn [bracket_chain fold_right]. fold (bracket_chain parts).
    change ("[" ++ d ++ "]" ++ bracket_chain parts)%string
      with (String "[" (d ++ String "]" (bracket_chain parts)))%string.
    cbn [Str.split_aux]. change (Str.is_separator "[") with true. cbv iota.
    rewrite (split_aux_no_separators d _ _ Hd). cbn [append Str.split_aux].
    change (Str.is_separator "]") with true. cbv iota.
    cbn [filter]. rewrite IH. cbn [filter Str.nonempty app].
    destruct d as [|c d]; [congruence|]. cbn [Str.nonempty].
    destruct (Str.nonempty cur); reflexivity.
Qed.

(** X17: the bracket-only parser of the first version.  For a key
    written [root[d1]...[dn]], n >= 1, where neither the root nor a part
    holds a bracket, that version takes [root] for the base name and
    [d1, ..., dn] for the path; when moreover the root and the parts are
    non-empty and hold no dot, the parser of the later versions (split on
    '.', '[' and ']') reads the same base name and path. *)
Theorem X17_bracket_parser (root : string) (parts : list string) :
  no_brackets root = true ->
  Forall (fun d => no_brackets d = true) parts ->
  parts <> [] ->
  bracket_base_name (bracket_key root parts) = root
  /\ bracket_path_parts (bracket_path_string (bracket_key root parts)) = parts
  /\ (proper_fragment root -> Forall proper_fragment parts ->
      Str.fragments (bracket_key root parts) = root :: parts).
Proof.
  intros Hroot Hparts Hne.
  assert (Hchain : exists rest, bracket_chain parts = String "[" rest).
  { destruct parts as [|d parts]; [congruence|]. eexists. reflexivity. }
  destruct Hchain as (rest & Hchain).
  unfold bracket_base_name, bracket_path_string, bracket_path_parts, bracket_key.
  split; [|split].
  - rewrite Hchain. destruct (no_brackets_no_open root rest Hroot) as (-> & -> & _).
    reflexivity.
  - rewrite Hchain. destruct (no_brackets_no_open root rest Hroot) as (-> & _ & ->).
    rewrite <- Hchain. apply (bracket_parts_chain parts Hparts []).
  - intros [Hr Hsep] Hprop. unfold Str.fragments, Str.split.
    rewrite (split_aux_no_separators root _ _ Hsep). cbn [append].
    rewrite (split_aux_chain parts Hprop). cbn [filter].
    destruct root; [congruence | reflexivity].
Qed.

Lemma X17_bracket_parser_witness :
  bracket_base_name (bracket_key "profile" ["0"; "name"]) = "profile"
  /\ bracket_path_parts (bracket_path_string (bracket_key "profile" ["0"; "name"]))
     = ["0"; "name"]
  /\ (proper_fragment "profile" -> Forall proper_fragment ["0"; "name"] ->
      Str.fragments (bracket_key "profile" ["0"; "name"]) = ["profile"; "0"; "name"]).
Proof.
  apply (X17_bracket_parser "profile" ["0"; "name"]).
  - reflexivity.
  - repeat constructor.
  - discriminate.
Defined.

(** ** [processNestedArrays] and [normalizeStructure] *)

Lemma processNestedArrays_object (kd : kind) (itemObj : props) :
  processNestedArrays (VObject kd itemObj) =
  if allNumericKeys (Obj.keys itemObj) then convert_processed (process_values itemObj)
  else
    match kd with
    | KArray len => Obj.of_list (filter truthy (Obj.elements len (process_values itemObj)))
    | _ =>
        VObject KPlain
          (fold_left (fun result kv => Obj.put (fst kv) (snd kv) result)
                     (process_values itemObj) [])
    end.
Proof.
  assert (Hmap : (fix process_values (ps : props) : props :=
                    match ps with
                    | [] => []
                    | (key, val) :: ps' => (key, processNestedArrays val) :: process_values ps'
                    end) itemObj = process_values itemObj).
  { induction itemObj as [|[key val] itemObj IH]; [reflexivity|].
    unfold process_values. simpl. f_equal. exact IH. }
  rewrite <- Hmap. reflexivity.
Qed.

Lemma array_free_object (kd : kind) (ps : props) :
  array_free (VObject kd ps)
  <-> array_kind kd = false /\ Forall (fun kv => array_free (snd kv)) ps.
Proof.
  cbn [array_free]. apply and_iff_compat_l.
  induction ps as [|[k v] ps IH]; [split; [constructor | exact (fun _ => I)]|].
  rewrite IH. split.
  - intros [Hv Hps]. constructor; assumption.
  - intros H. inversion H; subst. split; assumption.
Qed.

Lemma filter_agree {A : Type} (f g : A -> bool) (l : list A) :
  Forall (fun x => f x = g x) l -> filter f l = filter g l.
Proof.
  induction 1 as [|x l Hx _ IH]; [reflexivity|]. cbn [filter]. rewrite Hx, IH. reflexivity.
Qed.

Lemma convert_processed_truthy (nobj : props) :
  Forall (fun kv => truthy (snd kv) = true) nobj ->
  convert_processed nobj = convert_normalized nobj.
Proof.
  intros Htruthy. rewrite convert_normalized_unfold. unfold convert_processed.
  change (fun (result : Value) (key : string) =>
            match result with
            | VObject kd ps =>
                Obj.assign kd ps (index_key key) (Obj.get (VObject KPlain nobj) key)
            | _ => result
            end) with (place_index nobj).
  destruct (fold_place_index_values nobj (sort_keys (Obj.keys nobj)) 0 [])
    as (len & ps & Hfold & _ & Hv); [constructor | constructor |].
  unfold empty_array. rewrite Hfold. f_equal. apply filter_agree.
  pose proof (Forall_elements
                (fun w => w = VUndefined \/ In w (Obj.values nobj)) len ps Hv) as He.
  eapply Forall_impl; [|exact He]. intros v [-> | Hin]; [reflexivity|].
  unfold Obj.values in Hin. apply in_map_iff in Hin as (kv & <- & Hkv).
  rewrite Forall_forall in Htruthy. pose proof (Htruthy _ Hkv) as Ht.
  rewrite Ht. destruct (snd kv); try reflexivity. discriminate Ht.
Qed.

Lemma fold_put_defined (nobj : props) :
  Forall (fun kv => truthy (snd kv) = true) nobj ->
  forall acc,
    fold_left (fun result kv => Obj.put (fst kv) (snd kv) result) nobj acc
    = fold_left keep_defined nobj acc.
Proof.
  induction 1 as [|kv nobj Hkv _ IH]; intros acc; [reflexivity|].
  cbn [fold_left]. rewrite IH. f_equal. unfold keep_defined.
  revert Hkv. destruct (snd kv); intros Hkv; try reflexivity. discriminate Hkv.
Qed.

(** X18: the two normalisers agree where the first version applies its
    own to an object structure.  On every tree that holds no array and no
    empty leaf (null, undefined, empty string, zero) and lists no key
    twice, [processNestedArrays] of the bracket-only version returns what
    [normalizeStructure] returns. *)
Theorem X18_processNestedArrays_is_normalizeStructure (t : Value) :
  clean t -> array_free t -> processNestedArrays t = normalizeStructure t.
Proof.
  induction t as [| | s | z | kd ps IH] using Value_values_ind; intros Hc Hf;
    try reflexivity.
  apply clean_object in Hc as [_ Hcl]. apply array_free_object in Hf as [Hkd Hfree].
  assert (Hvalues : process_values ps = normalize_values ps).
  { unfold process_values, normalize_values. apply map_ext_in. intros kv Hin.
    rewrite Forall_forall in IH, Hcl, Hfree.
    rewrite (IH _ Hin (Hcl _ Hin) (Hfree _ Hin)). reflexivity. }
  assert (Htruthy : Forall (fun kv => truthy (snd kv) = true) (normalize_values ps)).
  { unfold normalize_values. apply Forall_forall. intros kv Hin.
    apply in_map_iff in Hin as (kv0 & <- & Hin0). cbn [snd].
    rewrite Forall_forall in Hcl. apply clean_normalized_truthy, Hcl, Hin0. }
  rewrite processNestedArrays_object, normalizeStructure_object, Hvalues.
  unfold convertToArray.
  destruct (allNumericKeys (Obj.keys ps)).
  - rewrite (convert_processed_truthy _ Htruthy). destruct kd; try reflexivity. discriminate.
  - destruct kd; try discriminate;
      rewrite (fold_put_defined _ Htruthy); reflexivity.
Qed.

Lemma X18_processNestedArrays_is_normalizeStructure_witness :
  processNestedArrays
    (VObject KPlain [("name", VString "Ann");
                     ("tags", VObject KPlain [("1", VString "b"); ("0", VString "a")])])
  = normalizeStructure
      (VObject KPlain [("name", VString "Ann");
                       ("tags", VObject KPlain [("1", VString "b"); ("0", VString "a")])]).
Proof.
  apply (X18_processNestedArrays_is_normalizeStructure
           (VObject KPlain [("name", VString "Ann");
                            ("tags", VObject KPlain [("1", VString "b"); ("0", VString "a")])])).
  - cbn. repeat split; repeat constructor; simpl; intuition discriminate.
  - cbn. repeat split.
Defined.

(** ** The version with local helpers and the final version *)









Lemma fold_put_reproduces {A : Type} (q2 : list (string * A)) :
  forall q1,
    ordered (q1 ++ q2) ->
    NoDup (Obj.keys (q1 ++ q2)) ->
    fold_left (fun acc kv => Obj.put (fst kv) (snd kv) acc) q2 q1 = q1 ++ q2.
Proof.
  induction q2 as [|[k v] q2 IH]; intros q1 Ho Hnd.
  - rewrite app_nil_r. reflexivity.
  - cbn [fold_left fst snd].
    assert (Hput : Obj.put k v q1 = q1 ++ [(k, v)]).
    { unfold Obj.put. unfold ordered in Ho. rewrite keys_app, keys_cons in Ho, Hnd.
      assert (Hnone : Obj.lookup k q1 = None).
      { apply lookup_None_keys. apply NoDup_remove_2 in Hnd.
        intros Hin. apply Hnd. apply in_or_app. left. exact Hin. }
      rewrite Hnone. apply insert_last_ordered.
      apply (sorted_app_before _ _ _ _ Ho). }
    rewrite Hput.
    replace (q1 ++ (k, v) :: q2) with ((q1 ++ [(k, v)]) ++ q2)
      by (rewrite <- app_assoc; reflexivity).
    apply IH; rewrite <- app_assoc; assumption.
Qed.








(** The two versions differ on a blank value at a deeper path: the older
    one has made the containers of the path before it skips the value. *)
Example inline_version_keeps_containers :
  processFormData_inline (str_entries [("user.address.city", " ")])
  = Ok [("user", VObject KPlain [("address", empty_object)])]
  /\ processFormData (str_entries [("user.address.city", " ")])
     = Ok [("user", empty_object)].
Proof. split; reflexivity. Qed.

(** ** Object groups *)

Lemma includes_dot (root rest : string) :
  Str.includes_char "." (root ++ String "." rest)%string = true.
Proof.
  induction root as [|c root IH]; simpl; [reflexivity|].
  rewrite IH. apply orb_true_r.
Qed.

Lemma fragments_dot_key (root name : string) :
  proper_fragment root -> proper_fragment name ->
  Str.fragments (root ++ "." ++ name)%string = [root; name].
Proof.
  intros [Hr Hroot] [Hn Hname]. unfold Str.fragments, Str.split.
  rewrite (split_aux_no_separators root _ _ Hroot).
  cbn [append Str.split_aux]. change (Str.is_separator ".") with true. cbv iota.
  rewrite <- (append_empty_r name) at 1.
  rewrite (split_aux_no_separators name _ _ Hname).
  cbn [append Str.split_aux filter].
  destruct root; [congruence|]. destruct name; [congruence|]. reflexivity.
Qed.

Lemma named_entry_not_simple (root : string) (item : string * string) :
  is_simple_key (fst (named_entry root item)) = false.
Proof.
  unfold is_simple_key, named_entry. cbn [fst].
  change (root ++ "." ++ fst item)%string with (root ++ String "." (fst item))%string.
  rewrite includes_dot. reflexivity.
Qed.

Lemma to_field_named_entry (root : string) (item : string * string) :
  proper_fragment root -> proper_name item ->
  to_field (named_entry root item) = named_field item
  /\ base_name (Str.fragments (fst (named_entry root item))) = root.
Proof.
  intros Hroot [Hname _]. unfold to_field, named_entry. cbn [fst snd].
  rewrite (fragments_dot_key _ _ Hroot Hname). split; reflexivity.
Qed.

Lemma not_numeric_not_index (k : string) :
  isNumericKey k = false -> Num.array_index k = None.
Proof.
  intros H. destruct (Num.array_index k) as [n|] eqn:E; [|reflexivity].
  apply array_index_Some in E as [Hn <-].
  rewrite isNumericKey_to_string in H by lia. discriminate.
Qed.

Lemma ordered_names (items : list (string * string)) :
  Forall proper_name items -> ordered (map named_prop items).
Proof.
  intros H. unfold ordered, Obj.keys. rewrite map_map. cbn [named_prop fst].
  induction H as [|x items Hx Hitems IH]; [constructor|].
  cbn [map]. constructor; [exact IH|].
  apply Forall_forall. intros b Hb. apply in_map_iff in Hb as (y & <- & Hy).
  rewrite Forall_forall in Hitems. destruct (Hitems _ Hy) as [_ Hnum].
  unfold Obj.comes_before. rewrite (not_numeric_not_index _ Hnum). reflexivity.
Qed.

Lemma fold_place_named (items : list (string * string)) :
  forall ps,
    fold_left place_field (map named_field items) (Ok (VObject KPlain ps))
    = Ok (VObject KPlain
            (fold_left (fun acc kv => Obj.put (fst kv) (snd kv) acc)
                       (map named_prop (filter has_text items)) ps)).
Proof.
  induction items as [|x items IH]; intros ps; [reflexivity|].
  cbn [map fold_left filter]. unfold place_field at 2. cbn [bind named_field path value].
  unfold setNestedValue. cbn [isEmptyValue]. unfold has_text.
  destruct (Str.trim_is_empty (snd x)); cbn [negb]; [apply IH|].
  cbn [setNestedValue_from Obj.set Obj.assign map fold_left named_prop fst snd].
  apply IH.
Qed.

Lemma normalize_values_named (items : list (string * string)) :
  normalize_values (map named_prop items) = map named_prop items.
Proof.
  unfold normalize_values. rewrite map_map. apply map_ext. intros x. reflexivity.
Qed.

Lemma allNumericKeys_named (items : list (string * string)) :
  Forall proper_name items -> allNumericKeys (Obj.keys (map named_prop items)) = false.
Proof.
  intros H. destruct H as [|x items [_ Hx] _]; [reflexivity|].
  cbn [map Obj.keys named_prop fst allNumericKeys forallb]. rewrite Hx. reflexivity.
Qed.

Lemma process_group_named (items : list (string * string)) :
  Forall proper_name items ->
  NoDup (map fst (filter has_text items)) ->
  process_group (map named_field items)
  = Ok (VObject KPlain (map named_prop (filter has_text items))).
Proof.
  intros Hnames Hnd. set (kept := filter has_text items) in *.
  assert (Hkept : Forall proper_name kept) by (apply Forall_filter, Hnames).
  assert (Hkeys : NoDup (Obj.keys (map named_prop kept)))
    by (unfold Obj.keys; rewrite map_map; exact Hnd).
  rewrite process_group_unfold. unfold empty_object. rewrite fold_place_named.
  fold kept. cbn [bind].
  rewrite (fold_put_reproduces (map named_prop kept) []);
    [|apply ordered_names, Hkept | exact Hkeys].
  cbn [app]. rewrite normalizeStructure_object, (allNumericKeys_named _ Hkept).
  rewrite normalize_values_named, collect_defined_unfold.
  rewrite (fold_keep_defined_reproduces (map named_prop kept) []); [reflexivity | | |].
  - apply ordered_names, Hkept.
  - exact Hkeys.
  - apply Forall_forall. intros kv Hin. apply in_map_iff in Hin as (x & <- & _). reflexivity.
Qed.

(** X20: an object group.  For the entries [root.name = s] of one
    group whose base name [root] is not a name that [Object.prototype]
    defines, the names being fragments that are not numeric and none of
    them "__proto__", the value of the group is the object that maps, in
    the order of the entries, each name whose value is not blank to that
    value, the names kept being pairwise distinct; the entries with a
    blank value are dropped, and when every value is blank the group is
    the empty object. *)
Theorem X20_object_group (root : string) (items : list (string * string)) :
  proper_fragment root ->
  Obj.inherited root = false ->
  items <> [] ->
  Forall proper_name items ->
  Forall (fun item => fst item <> "__proto__") items ->
  NoDup (map fst (filter has_text items)) ->
  processFormData (map (named_entry root) items)
  = Ok [(root, VObject KPlain (map named_prop (filter has_text items)))].
Proof.
  intros Hroot Hown Hne Hnames _ Hnd.
  assert (Hnested : Forall (fun kv => is_simple_key (fst kv) = false)
                           (map (named_entry root) items)).
  { apply Forall_forall. intros kv Hin. apply in_map_iff in Hin as (x & <- & _).
    apply named_entry_not_simple. }
  assert (Hbase : Forall (fun kv => base_name (Str.fragments (fst kv)) = root)
                         (map (named_entry root) items)).
  { apply Forall_forall. intros kv Hin. apply in_map_iff in Hin as (x & <- & Hx).
    rewrite Forall_forall in Hnames. apply (to_field_named_entry _ _ Hroot (Hnames _ Hx)). }
  assert (Hfields : map to_field (map (named_entry root) items) = map named_field items).
  { rewrite map_map. apply map_ext_in. intros x Hx.
    rewrite Forall_forall in Hnames. apply (to_field_named_entry _ _ Hroot (Hnames _ Hx)). }
  apply processFormData_one_root; try assumption.
  - destruct items; [congruence | discriminate].
  - rewrite Hfields. apply (process_group_named _ Hnames Hnd).
Qed.

Lemma X20_object_group_witness :
  processFormData
    (map (named_entry "user") [("name", "Ann"); ("nick", " "); ("email", "a@b.c")])
  = Ok [("user",
         VObject KPlain
                 (map named_prop
                      (filter has_text [("name", "Ann"); ("nick", " "); ("email", "a@b.c")])))].
Proof.
  apply (X20_object_group "user" [("name", "Ann"); ("nick", " "); ("email", "a@b.c")]).
  - split; [discriminate | reflexivity].
  - reflexivity.
  - discriminate.
  - repeat constructor; simpl; discriminate.
  - repeat constructor; simpl; discriminate.
  - simpl. repeat constructor; simpl; intuition discriminate.
Defined.

(** ** Values sorted by index *)

Lemma insert_idx_perm (x : Z * Value) (l : list (Z * Value)) :
  Permutation (insert_idx x l) (x :: l).
Proof.
  induction l as [|y l IH]; simpl; [reflexivity|].
  destruct (fst x <? fst y)%Z; [reflexivity|].
  rewrite IH. apply perm_swap.
Qed.

Lemma fold_insert_idx_perm (l acc : list (Z * Value)) :
  Permutation (fold_left (fun acc x => insert_idx x acc) l acc) (acc ++ l).
Proof.
  revert acc. induction l as [|x l IH]; intros acc; simpl.
  - rewrite app_nil_r. reflexivity.
  - rewrite IH, insert_idx_perm. apply Permutation_middle.
Qed.

Lemma insert_idx_sorted (x : Z * Value) (l : list (Z * Value)) :
  StronglySorted lt_idx l ->
  ~ In (fst x) (map fst l) ->
  StronglySorted lt_idx (insert_idx x l).
Proof.
  induction 1 as [|y l Hl IH Hy]; simpl; intros Hx.
  - repeat constructor.
  - destruct (Z.ltb_spec (fst x) (fst y)) as [Hlt|Hge].
    + constructor; [constructor; assumption|].
      constructor; [exact Hlt|].
      eapply Forall_impl; [|exact Hy]. unfold lt_idx. intros z Hz. lia.
    + constructor; [apply IH; tauto|].
      eapply Permutation_Forall; [symmetry; apply insert_idx_perm|].
      constructor; [|exact Hy]. unfold lt_idx.
      assert (fst y <> fst x) by tauto. lia.
Qed.

Lemma insert_idx_last (x : Z * Value) (l : list (Z * Value)) :
  Forall (fun y => lt_idx y x) l -> insert_idx x l = l ++ [x].
Proof.
  induction 1 as [|y l Hy _ IH]; simpl; [reflexivity|].
  unfold lt_idx in Hy. destruct (Z.ltb_spec (fst x) (fst y)); [lia|].
  rewrite IH. reflexivity.
Qed.

Lemma sorted_idx_NoDup (l : list (Z * Value)) :
  StronglySorted lt_idx l -> NoDup (map fst l).
Proof.
  induction 1 as [|x l _ IH Hx]; simpl; constructor; [|exact IH].
  intros Hin. apply in_map_iff in Hin as (y & Hy & Hin).
  rewrite Forall_forall in Hx. specialize (Hx _ Hin). unfold lt_idx in Hx. lia.
Qed.

Lemma sorted_idx_length_bound (l : list (Z * Value)) :
  forall lo hi,
    (lo <= hi)%Z ->
    StronglySorted lt_idx l ->
    Forall (fun x => (lo <= fst x < hi)%Z) l ->
    (lo + Z.of_nat (List.length l) <= hi)%Z.
Proof.
  induction l as [|x l IH]; intros lo hi Hlohi Hs Hr; simpl; [lia|].
  inversion Hs as [|? ? Hs' Hx]; subst. inversion Hr as [|? ? Hxr Hr']; subst.
  assert (H := IH (fst x + 1)%Z hi ltac:(lia) Hs').
  assert (Hr2 : Forall (fun y => (fst x + 1 <= fst y < hi)%Z) l).
  { rewrite Forall_forall in *. intros y Hy. specialize (Hx y Hy). specialize (Hr' y Hy).
    unfold lt_idx in Hx. lia. }
  specialize (H Hr2). lia.
Qed.

Lemma lookup_idx_props_None (n : Z) (l : list (Z * Value)) :
  (0 <= n)%Z -> Forall in_range l -> ~ In n (map fst l) ->
  Obj.lookup (Num.to_string n) (map idx_prop l) = None.
Proof.
  intros Hn. induction 1 as [|[m v] l Hm _ IH]; simpl; intros Hin; [reflexivity|].
  unfold in_range in Hm. cbn [fst] in Hm.
  destruct (String.eqb_spec (Num.to_string n) (Num.to_string m)) as [E|E].
  - exfalso. apply Hin. left. symmetry. apply to_string_inj; auto; lia.
  - apply IH. tauto.
Qed.

Lemma NoDup_keys_idx_props (l : list (Z * Value)) :
  Forall in_range l -> NoDup (map fst l) -> NoDup (Obj.keys (map idx_prop l)).
Proof.
  intros Hv Hnd. unfold Obj.keys. rewrite map_map. cbn [idx_prop fst].
  induction Hv as [|[m t] l Hm Hv IH]; simpl; [constructor|].
  inversion Hnd as [|? ? Hnotin Hnd']; subst. constructor; [|apply IH; exact Hnd'].
  intros Hin. apply in_map_iff in Hin as ([m' t'] & Heq & Hin').
  apply Hnotin. apply in_map_iff. exists (m', t'). split; [|exact Hin'].
  rewrite Forall_forall in Hv. pose proof (Hv _ Hin') as Hm'.
  unfold in_range in *. simpl in *. apply to_string_inj; auto; lia.
Qed.

Lemma lookup_idx_props_Some (x : Z * Value) (l : list (Z * Value)) :
  Forall in_range l -> NoDup (map fst l) -> In x l ->
  Obj.lookup (Num.to_string (fst x)) (map idx_prop l) = Some (snd x).
Proof.
  intros Hv Hnd Hin. apply In_lookup_Some.
  - apply NoDup_keys_idx_props; assumption.
  - change (Num.to_string (fst x), snd x) with (idx_prop x). apply in_map. exact Hin.
Qed.

Lemma insert_idx_props (x : Z * Value) (l : list (Z * Value)) :
  in_range x -> Forall in_range l ->
  Obj.insert (fst (idx_prop x)) (snd (idx_prop x)) (map idx_prop l)
  = map idx_prop (insert_idx x l).
Proof.
  intros Hx. induction 1 as [|y l Hy _ IH]; simpl; [reflexivity|].
  rewrite comes_before_to_string by assumption.
  destruct (fst x <? fst y)%Z; simpl; [reflexivity|].
  f_equal. exact IH.
Qed.

Lemma put_idx_props (x : Z * Value) (l : list (Z * Value)) :
  in_range x -> Forall in_range l -> ~ In (fst x) (map fst l) ->
  Obj.put (Num.to_string (fst x)) (snd x) (map idx_prop l) = map idx_prop (insert_idx x l).
Proof.
  intros Hx Hl Hin. unfold Obj.put.
  rewrite lookup_idx_props_None; [|apply Hx|exact Hl|exact Hin].
  apply (insert_idx_props x l Hx Hl).
Qed.

Lemma sort_keys_sorted_idx (l : list (Z * Value)) :
  Forall in_range l ->
  StronglySorted lt_idx l ->
  sort_keys (Obj.keys (map idx_prop l)) = Obj.keys (map idx_prop l).
Proof.
  intros Hv Hs. induction Hs as [|x l Hl IH Hx]; [reflexivity|].
  inversion Hv as [|? ? Hxr Hv']; subst.
  cbn [map Obj.keys sort_keys]. fold (Obj.keys (map idx_prop l)). rewrite (IH Hv').
  destruct l as [|y l]; [reflexivity|].
  cbn [map Obj.keys insert_key idx_prop fst].
  inversion Hv' as [|? ? Hyr _]; subst. inversion Hx as [|? ? Hxy _]; subst.
  unfold lt_idx in Hxy. unfold in_range in *.
  rewrite compare_keys_to_string by lia.
  destruct (Z.ltb_spec 0 (fst x - fst y)); [lia | reflexivity].
Qed.

Lemma fold_place_index_idx (nobj : props) (l2 : list (Z * Value)) :
  forall l1 len,
    StronglySorted lt_idx (l1 ++ l2) ->
    Forall in_range (l1 ++ l2) ->
    (forall x, In x l2 -> Obj.get (VObject KPlain nobj) (Num.to_string (fst x)) = snd x) ->
    Forall (fun x => (fst x < len)%Z) l1 ->
    exists len',
      fold_left (place_index nobj) (Obj.keys (map idx_prop l2))
                (VObject (KArray len) (map idx_prop l1))
      = VObject (KArray len') (map idx_prop (l1 ++ l2))
      /\ Forall (fun x => (fst x < len')%Z) (l1 ++ l2).
Proof.
  induction l2 as [|x l2 IH]; intros l1 len Hs Hv Hget Hlen.
  - exists len. rewrite app_nil_r. split; [reflexivity | exact Hlen].
  - pose proof (sorted_app_before _ _ _ _ Hs) as Hbefore.
    assert (Hx : in_range x)
      by (apply Forall_app in Hv as [_ Hv]; inversion Hv; assumption).
    assert (Hv1 : Forall in_range l1) by (apply Forall_app in Hv as [Hv _]; exact Hv).
    assert (Hnotin : ~ In (fst x) (map fst l1)).
    { intros Hin. apply in_map_iff in Hin as (y & Hy & Hin).
      rewrite Forall_forall in Hbefore. specialize (Hbefore _ Hin).
      unfold lt_idx in Hbefore. lia. }
    assert (Hstep : place_index nobj (VObject (KArray len) (map idx_prop l1))
                                (Num.to_string (fst x))
                    = VObject (KArray (Z.max len (fst x + 1))) (map idx_prop (l1 ++ [x]))).
    { unfold place_index. rewrite (Hget x (or_introl eq_refl)).
      rewrite index_key_to_string by (unfold in_range in Hx; lia).
      unfold Obj.assign. rewrite array_index_to_string by apply Hx.
      rewrite <- (insert_idx_last x l1 Hbefore).
      rewrite <- (put_idx_props x l1 Hx Hv1 Hnotin). reflexivity. }
    cbn [map Obj.keys fold_left idx_prop fst].
    fold (Obj.keys (map idx_prop l2)). rewrite Hstep.
    replace (l1 ++ x :: l2) with ((l1 ++ [x]) ++ l2)
      by (rewrite <- app_assoc; reflexivity).
    apply IH.
    + rewrite <- app_assoc. exact Hs.
    + rewrite <- app_assoc. exact Hv.
    + intros y Hin. apply Hget. right. exact Hin.
    + apply Forall_app. split.
      * eapply Forall_impl; [|exact Hlen]. intros y Hy. simpl in Hy. lia.
      * constructor; [lia | constructor].
Qed.

Lemma elements_idx_props (len : Z) (l : list (Z * Value)) :
  Forall in_range l ->
  Forall (fun x => (fst x < len)%Z) l ->
  Obj.elements len (map idx_prop l) = map snd l.
Proof.
  unfold Obj.elements, Obj.values.
  induction 1 as [|x l Hx _ IH]; intros Hlen; [reflexivity|].
  inversion Hlen as [|? ? Hxl Hlen']; subst.
  cbn [map filter idx_prop fst]. rewrite array_index_to_string by exact Hx.
  destruct (Z.ltb_spec (fst x) len); [|lia].
  cbn [map snd]. f_equal. apply IH. exact Hlen'.
Qed.

(** [convertToArray] on an object whose keys are distinct array indices
    in ascending order and whose values are defined: the dense array of
    the values. *)
Lemma convert_idx_props (l : list (Z * Value)) :
  StronglySorted lt_idx l ->
  Forall in_range l ->
  Forall (fun x => is_undefined (snd x) = false) l ->
  convert_normalized (map idx_prop l) = Obj.of_list (map snd l).
Proof.
  intros Hs Hv Hdef.
  rewrite convert_normalized_unfold, (sort_keys_sorted_idx _ Hv Hs).
  destruct (fold_place_index_idx (map idx_prop l) l [] 0) as (len & Hfold & Hlen);
    try assumption.
  - intros x Hin. cbn [Obj.get].
    rewrite (lookup_idx_props_Some x l); try assumption; [reflexivity|].
    apply sorted_idx_NoDup. exact Hs.
  - constructor.
  - change empty_array with (VObject (KArray 0) (map idx_prop [])).
    rewrite Hfold. cbn [app] in *.
    rewrite (elements_idx_props _ _ Hv Hlen), filter_all; [reflexivity|].
    apply Forall_forall. intros v Hin. apply in_map_iff in Hin as (x & <- & Hx).
    rewrite Forall_forall in Hdef. rewrite (Hdef _ Hx). reflexivity.
Qed.

(** ** Containers on the way of a write *)







(** ** Lists of records *)

Lemma replace_replace {A : Type} (k : string) (v w : A) (ps : list (string * A)) :
  Obj.replace k v (Obj.replace k w ps) = Obj.replace k v ps.
Proof.
  induction ps as [|[k' v'] ps IH]; [reflexivity|].
  cbn [Obj.replace]. destruct (String.eqb k k') eqn:E; cbn [Obj.replace].
  - rewrite String.eqb_refl. reflexivity.
  - rewrite E, IH. reflexivity.
Qed.

Lemma replace_insert {A : Type} (k : string) (v w : A) (ps : list (string * A)) :
  Obj.lookup k ps = None ->
  Obj.replace k v (Obj.insert k w ps) = Obj.insert k v ps.
Proof.
  induction ps as [|[k' v'] ps IH]; intros Hl.
  - cbn [Obj.insert Obj.replace]. rewrite String.eqb_refl. reflexivity.
  - cbn [Obj.lookup] in Hl. destruct (String.eqb k k') eqn:E; [discriminate|].
    cbn [Obj.insert]. destruct (Obj.comes_before k k'); cbn [Obj.replace].
    + rewrite String.eqb_refl. reflexivity.
    + rewrite E, (IH Hl). reflexivity.
Qed.

Lemma put_put {A : Type} (k : string) (v w : A) (ps : list (string * A)) :
  Obj.put k v (Obj.put k w ps) = Obj.put k v ps.
Proof.
  unfold Obj.put at 1. rewrite lookup_put_same. unfold Obj.put.
  destruct (Obj.lookup k ps) eqn:E; [apply replace_replace | apply replace_insert, E].
Qed.

Lemma fragments_record_key (root d name : string) :
  proper_fragment root -> proper_fragment d -> proper_fragment name ->
  Str.fragments (root ++ "[" ++ d ++ "]." ++ name)%string = [root; d; name].
Proof.
  intros [Hr Hroot] [Hdn Hd] [Hn Hname]. unfold Str.fragments, Str.split.
  rewrite (split_aux_no_separators root _ _ Hroot).
  cbn [append Str.split_aux]. change (Str.is_separator "[") with true. cbv iota.
  rewrite (split_aux_no_separators d _ _ Hd).
  cbn [append Str.split_aux]. change (Str.is_separator "]") with true.
  change (Str.is_separator ".") with true. cbv iota.
  rewrite <- (append_empty_r name) at 1.
  rewrite (split_aux_no_separators name _ _ Hname).
  cbn [append Str.split_aux filter].
  destruct root; [congruence|]. destruct d; [congruence|]. destruct name; [congruence|].
  reflexivity.
Qed.

Lemma to_string_proper (n : Z) : (0 <= n)%Z -> proper_fragment (Num.to_string n).
Proof.
  intros Hn. split; [apply to_string_nonempty|].
  apply all_digits_no_separators, all_digits_to_string, Hn.
Qed.

Lemma record_entry_field (root : string) (n : Z) (item : string * string) :
  proper_fragment root -> (0 <= n)%Z -> proper_name item ->
  to_field (record_entry root n item) = record_field n item
  /\ base_name (Str.fragments (fst (record_entry root n item))) = root
  /\ is_simple_key (fst (record_entry root n item)) = false.
Proof.
  intros Hroot Hn [Hname _]. unfold to_field, record_entry. cbn [fst snd].
  rewrite (fragments_record_key _ _ _ Hroot (to_string_proper n Hn) Hname).
  split; [reflexivity|]. split; [reflexivity|].
  unfold is_simple_key.
  change (root ++ "[" ++ Num.to_string n ++ "]." ++ fst item)%string
    with (root ++ String "[" (Num.to_string n ++ "]." ++ fst item))%string.
  rewrite includes_bracket. apply andb_false_r.
Qed.

(** Placing a field of a record whose object is already there, and of
    one whose object is yet to be made. *)
Lemma place_record_field_existing (qs cps : props) (n : Z) (item : string * string) :
  proper_name item ->
  Obj.lookup (Num.to_string n) qs = Some (VObject KPlain cps) ->
  place_field (Ok (VObject KPlain qs)) (record_field n item)
  = Ok (VObject KPlain
          (if has_text item
           then Obj.put (Num.to_string n)
                        (VObject KPlain (Obj.put (fst item) (VString (snd item)) cps)) qs
           else qs)).
Proof.
  intros [_ Hnum] Hl. unfold place_field, record_field, setNestedValue, has_text.
  cbn [bind path value isEmptyValue].
  destruct (Str.trim_is_empty (snd item)); [reflexivity|]. cbn [negb].
  rewrite setNestedValue_from_step. cbn [Obj.get]. rewrite Hl, Hnum.
  change (not_a_container (VObject KPlain cps)) with false. cbn [andb bind].
  cbn [Obj.get]. rewrite Hl. reflexivity.
Qed.

Lemma place_record_field_missing (qs : props) (n : Z) (item : string * string) :
  proper_name item ->
  Obj.lookup (Num.to_string n) qs = None ->
  place_field (Ok (VObject KPlain qs)) (record_field n item)
  = Ok (VObject KPlain
          (if has_text item
           then Obj.put (Num.to_string n)
                        (VObject KPlain (Obj.put (fst item) (VString (snd item)) [])) qs
           else qs)).
Proof.
  intros [_ Hnum] Hl. unfold place_field, record_field, setNestedValue, has_text.
  cbn [bind path value isEmptyValue].
  destruct (Str.trim_is_empty (snd item)); [reflexivity|]. cbn [negb].
  rewrite setNestedValue_from_step. cbn [Obj.get]. rewrite Hl, Hnum.
  change (not_a_container VUndefined) with true. cbv iota.
  cbn [Obj.set Obj.assign bind Obj.get]. rewrite lookup_put_same.
  cbn [setNestedValue_from]. unfold empty_object.
  cbn [Obj.set Obj.assign bind Obj.write_back].
  rewrite put_put. reflexivity.
Qed.

Lemma fold_record_existing (n : Z) (fs : list (string * string)) :
  Forall proper_name fs ->
  forall qs cps,
    Obj.lookup (Num.to_string n) qs = Some (VObject KPlain cps) ->
    fold_left place_field (map (record_field n) fs) (Ok (VObject KPlain qs))
    = Ok (VObject KPlain
            (Obj.put (Num.to_string n)
                     (VObject KPlain
                        (fold_left (fun acc kv => Obj.put (fst kv) (snd kv) acc)
                                   (map named_prop (filter has_text fs)) cps))
                     qs)).
Proof.
  induction 1 as [|x fs Hx _ IH]; intros qs cps Hl.
  - cbn [map filter fold_left]. rewrite (put_same _ _ _ Hl). reflexivity.
  - cbn [map fold_left filter]. rewrite (place_record_field_existing qs cps n x Hx Hl).
    destruct (has_text x); [|apply IH, Hl].
    rewrite (IH _ (Obj.put (fst x) (VString (snd x)) cps)) by apply lookup_put_same.
    rewrite put_put. reflexivity.
Qed.

Lemma fold_record_missing (n : Z) (fs : list (string * string)) :
  Forall proper_name fs ->
  forall qs,
    Obj.lookup (Num.to_string n) qs = None ->
    fold_left place_field (map (record_field n) fs) (Ok (VObject KPlain qs))
    = Ok (VObject KPlain
            (match filter has_text fs with
             | [] => qs
             | kept =>
                 Obj.put (Num.to_string n)
                         (VObject KPlain
                            (fold_left (fun acc kv => Obj.put (fst kv) (snd kv) acc)
                                       (map named_prop kept) []))
                         qs
             end)).
Proof.
  induction 1 as [|x fs Hx Hfs IH]; intros qs Hl; [reflexivity|].
  cbn [map fold_left filter]. rewrite (place_record_field_missing qs n x Hx Hl).
  destruct (has_text x); [|apply IH, Hl].
  rewrite (fold_record_existing n fs Hfs _ (Obj.put (fst x) (VString (snd x)) []))
    by apply lookup_put_same.
  rewrite put_put. reflexivity.
Qed.

Lemma record_object_settled (r : record) :
  proper_record r ->
  VObject KPlain
          (fold_left (fun acc kv => Obj.put (fst kv) (snd kv) acc)
                     (map named_prop (filter has_text (snd r))) [])
  = record_object r
  /\ normalizeStructure (record_object r) = record_object r.
Proof.
  intros (_ & Hnames & Hnd). unfold record_object.
  set (kept := filter has_text (snd r)) in *.
  assert (Hkept : Forall proper_name kept) by (apply Forall_filter, Hnames).
  assert (Hkeys : NoDup (Obj.keys (map named_prop kept)))
    by (unfold Obj.keys; rewrite map_map; exact Hnd).
  split.
  - rewrite (fold_put_reproduces (map named_prop kept) []);
      [reflexivity | apply ordered_names, Hkept | exact Hkeys].
  - rewrite normalizeStructure_object, (allNumericKeys_named _ Hkept).
    rewrite normalize_values_named, collect_defined_unfold.
    rewrite (fold_keep_defined_reproduces (map named_prop kept) []); [reflexivity | | |].
    + apply ordered_names, Hkept.
    + exact Hkeys.
    + apply Forall_forall. intros kv Hin. apply in_map_iff in Hin as (x & <- & _).
      reflexivity.
Qed.

Lemma fold_insert_idx_sorted (l : list (Z * Value)) :
  forall acc,
    StronglySorted lt_idx acc ->
    NoDup (map fst (acc ++ l)) ->
    StronglySorted lt_idx (fold_left (fun acc x => insert_idx x acc) l acc).
Proof.
  induction l as [|x l IH]; intros acc Hacc Hnd; simpl; [exact Hacc|].
  assert (Hp : Permutation (map fst (acc ++ x :: l)) (map fst (insert_idx x acc ++ l))).
  { apply Permutation_map. rewrite insert_idx_perm. symmetry. apply Permutation_middle. }
  apply IH.
  - apply insert_idx_sorted; [exact Hacc|].
    rewrite map_app in Hnd. simpl in Hnd. apply NoDup_remove_2 in Hnd.
    intros Hin. apply Hnd. apply in_or_app. left. exact Hin.
  - eapply Permutation_NoDup; [exact Hp | exact Hnd].
Qed.

Lemma NoDup_map_filter {A B : Type} (f : A -> B) (g : A -> bool) (l : list A) :
  NoDup (map f l) -> NoDup (map f (filter g l)).
Proof.
  induction l as [|x l IH]; intros H; [constructor|].
  cbn [map] in H. inversion H as [|? ? Hx Hl]; subst. cbn [filter].
  destruct (g x); [|apply IH, Hl]. cbn [map]. constructor; [|apply IH, Hl].
  intros Hin. apply Hx. apply in_map_iff in Hin as (y & Hy & Hin).
  apply filter_In in Hin as [Hin _]. apply in_map_iff. exists y. split; assumption.
Qed.

Lemma keep_record_sort (records : list record) :
  forall acc,
    fold_left keep_record records acc
    = fold_left (fun acc x => insert_idx x acc)
                (map record_value (filter has_fields records)) acc.
Proof.
  induction records as [|r records IH]; intros acc; [reflexivity|].
  cbn [fold_left filter]. unfold keep_record at 2.
  destruct (has_fields r); [cbn [map fold_left]|]; apply IH.
Qed.

Lemma fold_records (records : list record) :
  Forall proper_record records ->
  NoDup (map fst records) ->
  forall acc,
    Forall in_range acc ->
    (forall r, In r records -> ~ In (fst r) (map fst acc)) ->
    fold_left place_field (flat_map record_fields records)
              (Ok (VObject KPlain (map idx_prop acc)))
    = Ok (VObject KPlain (map idx_prop (fold_left keep_record records acc))).
Proof.
  induction 1 as [|r records Hr Hrs IH]; intros Hnd acc Hacc Hnew; [reflexivity|].
  cbn [map] in Hnd. inversion Hnd as [|? ? Hfresh Hnd']; subst.
  change (flat_map record_fields (r :: records))
    with (record_fields r ++ flat_map record_fields records).
  rewrite fold_left_app.
  change (record_fields r) with (map (record_field (fst r)) (snd r)).
  cbn [fold_left].
  pose proof Hr as (Hrange & Hnames & _).
  assert (Hnone : Obj.lookup (Num.to_string (fst r)) (map idx_prop acc) = None).
  { apply lookup_idx_props_None; [lia | exact Hacc|]. apply Hnew. left. reflexivity. }
  rewrite (fold_record_missing (fst r) (snd r) Hnames _ Hnone).
  destruct (record_object_settled r Hr) as [Hobj _].
  unfold keep_record at 2. unfold has_fields.
  destruct (filter has_text (snd r)) as [|x kept] eqn:Hkept.
  - apply IH; [exact Hnd' | exact Hacc|].
    intros r' Hin. apply Hnew. right. exact Hin.
  - rewrite Hobj.
    change (Obj.put (Num.to_string (fst r)) (record_object r) (map idx_prop acc))
      with (Obj.put (Num.to_string (fst (record_value r))) (snd (record_value r))
                    (map idx_prop acc)).
    rewrite put_idx_props; [|exact Hrange | exact Hacc | apply Hnew; left; reflexivity].
    apply IH; [exact Hnd'| |].
    + eapply Permutation_Forall; [symmetry; apply insert_idx_perm|].
      constructor; [exact Hrange | exact Hacc].
    + intros r' Hin Hin'.
      apply (Permutation_in _ (Permutation_map fst (insert_idx_perm (record_value r) acc)))
        in Hin'.
      cbn [map record_value fst] in Hin'. destruct Hin' as [Heq | Hin'].
      * apply Hfresh. rewrite Heq. apply in_map. exact Hin.
      * apply (Hnew r' (or_intror Hin)). exact Hin'.
Qed.

Lemma keep_item_record (r : record) :
  has_fields r = true -> keep_item (record_object r) = true.
Proof.
  unfold has_fields, record_object, keep_item.
  destruct (filter has_text (snd r)) as [|x kept] eqn:Hkept; [discriminate|]. intros _.
  assert (Hx : has_text x = true).
  { assert (Hin : In x (filter has_text (snd r))) by (rewrite Hkept; left; reflexivity).
    apply filter_In in Hin. apply Hin. }
  cbn [map Obj.values named_prop snd existsb is_null negb andb].
  unfold has_text in Hx. rewrite Hx. reflexivity.
Qed.

Lemma process_group_records (records : list record) :
  Forall proper_record records ->
  NoDup (map fst records) ->
  process_group (flat_map record_fields records)
  = Ok match filter has_fields records with
       | [] => empty_object
       | kept => Obj.of_list (map snd (sort_idx (map record_value kept)))
       end.
Proof.
  intros Hrs Hnd.
  set (kept := filter has_fields records).
  set (sorted := sort_idx (map record_value kept)).
  assert (Hperm : Permutation sorted (map record_value kept))
    by apply (fold_insert_idx_perm (map record_value kept) []).
  assert (Hkept : Forall (fun r => proper_record r /\ has_fields r = true) kept).
  { apply Forall_forall. intros r Hin. apply filter_In in Hin as [Hin Hf].
    rewrite Forall_forall in Hrs. split; [apply Hrs, Hin | exact Hf]. }
  assert (Hvalues : Forall (fun x => in_range x /\ normalizeStructure (snd x) = snd x
                                     /\ keep_item (snd x) = true
                                     /\ is_undefined (snd x) = false) sorted).
  { eapply Permutation_Forall; [symmetry; exact Hperm|].
    apply Forall_forall. intros x Hin. apply in_map_iff in Hin as (r & <- & Hr).
    rewrite Forall_forall in Hkept. destruct (Hkept _ Hr) as [Hp Hf].
    split; [apply Hp|]. split; [apply (record_object_settled r Hp)|].
    split; [apply keep_item_record, Hf | reflexivity]. }
  assert (Hsorted : StronglySorted lt_idx sorted).
  { apply fold_insert_idx_sorted; [constructor|]. cbn [app].
    rewrite map_map. cbn [record_value fst]. apply NoDup_map_filter, Hnd. }
  assert (Hrange : Forall in_range sorted)
    by (eapply Forall_impl; [|exact Hvalues]; intros x Hx; apply Hx).
  rewrite process_group_unfold. unfold empty_object.
  change (@nil (string * Value)) with (map idx_prop []).
  rewrite (fold_records records Hrs Hnd []); [|constructor | intros r _ []].
  rewrite keep_record_sort. fold kept. fold (sort_idx (map record_value kept)). fold sorted.
  cbn [bind].
  assert (Hempty : kept = [] -> sorted = []) by (intros E; subst sorted; rewrite E; reflexivity).
  destruct kept as [|r0 kept'] eqn:Ekept.
  - rewrite (Hempty eq_refl). reflexivity.
  - assert (Hne : sorted <> []).
    { intros E. rewrite E in Hperm. apply Permutation_nil in Hperm. discriminate. }
    rewrite normalizeStructure_object.
    assert (Hnum : allNumericKeys (Obj.keys (map idx_prop sorted)) = true).
    { destruct sorted as [|x l]; [congruence|].
      cbn [map Obj.keys allNumericKeys]. apply forallb_forall. intros k Hk.
      change (fst (idx_prop x) :: map fst (map idx_prop l))
        with (map fst (map idx_prop (x :: l))) in Hk.
      rewrite map_map in Hk. apply in_map_iff in Hk as (y & <- & Hy).
      rewrite Forall_forall in Hrange. pose proof (Hrange _ Hy) as Hr.
      apply isNumericKey_to_string. unfold in_range in Hr. lia. }
    rewrite Hnum. unfold convertToArray.
    assert (Hnorm : normalize_values (map idx_prop sorted) = map idx_prop sorted).
    { unfold normalize_values. rewrite map_map. apply map_ext_in. intros x Hx.
      rewrite Forall_forall in Hvalues. destruct (Hvalues _ Hx) as (_ & Hn & _).
      cbn [idx_prop fst snd]. rewrite Hn. reflexivity. }
    rewrite Hnorm, (convert_idx_props sorted Hsorted Hrange)
      by (eapply Forall_impl; [|exact Hvalues]; intros x Hx; apply Hx).
    unfold Obj.of_list at 1.
    assert (Harr : forallb (fun field => match path field with
                                         | [] => false
                                         | first :: _ => isNumericKey first
                                         end) (flat_map record_fields records) = true).
    { apply forallb_forall. intros f Hf. apply in_flat_map in Hf as (r & Hr & Hf).
      apply in_map_iff in Hf as (item & <- & _). cbn [record_field path].
      rewrite Forall_forall in Hrs. destruct (Hrs _ Hr) as (Hn & _).
      apply isNumericKey_to_string. lia. }
    rewrite Harr, elements_index_from.
    + rewrite filter_all; [reflexivity|].
      apply Forall_forall. intros v Hin. apply in_map_iff in Hin as (x & <- & Hx).
      rewrite Forall_forall in Hvalues. apply (Hvalues _ Hx).
    + lia.
    + lia.
    + rewrite length_map.
      apply (sorted_idx_length_bound sorted 0 4294967295); [lia | exact Hsorted|].
      exact Hrange.
Qed.

(** X21: a list of records.  For the entries [root[n].name = s] of one
    group whose base name [root] is not a name that [Object.prototype]
    defines, listed record by record, the indices [n] being pairwise
    distinct array indices and the names of a record being fragments
    that are not numeric, none of them "__proto__" (those kept pairwise
    distinct), the value of the group is the dense array, in ascending
    order of index, of the objects made of the fields whose value is not
    blank; a record all of whose values are blank gives no element, and
    when no record is left the group is the empty object. *)
Theorem X21_list_of_records (root : string) (records : list record) :
  proper_fragment root ->
  Obj.inherited root = false ->
  Forall proper_record records ->
  Forall (fun r : record => Forall (fun item => fst item <> "__proto__") (snd r)) records ->
  NoDup (map fst records) ->
  flat_map (record_entries root) records <> [] ->
  processFormData (flat_map (record_entries root) records)
  = Ok [(root,
         match filter has_fields records with
         | [] => empty_object
         | kept => Obj.of_list (map snd (sort_idx (map record_value kept)))
         end)].
Proof.
  intros Hroot Hown Hrs _ Hnd Hne.
  assert (Hentry : forall kv, In kv (flat_map (record_entries root) records) ->
                              exists r item, In r records /\ In item (snd r)
                                             /\ kv = record_entry root (fst r) item
                                             /\ (0 <= fst r)%Z /\ proper_name item).
  { intros kv Hin. apply in_flat_map in Hin as (r & Hr & Hin).
    apply in_map_iff in Hin as (item & <- & Hitem). exists r, item.
    rewrite Forall_forall in Hrs. destruct (Hrs _ Hr) as (Hn & Hnames & _).
    rewrite Forall_forall in Hnames.
    split; [exact Hr|]. split; [exact Hitem|]. split; [reflexivity|].
    split; [lia | apply Hnames, Hitem]. }
  assert (Hnested : Forall (fun kv => is_simple_key (fst kv) = false)
                           (flat_map (record_entries root) records)).
  { apply Forall_forall. intros kv Hin.
    destruct (Hentry kv Hin) as (r & item & _ & _ & -> & Hn & Hname).
    apply (record_entry_field root (fst r) item Hroot Hn Hname). }
  assert (Hbase : Forall (fun kv => base_name (Str.fragments (fst kv)) = root)
                         (flat_map (record_entries root) records)).
  { apply Forall_forall. intros kv Hin.
    destruct (Hentry kv Hin) as (r & item & _ & _ & -> & Hn & Hname).
    apply (record_entry_field root (fst r) item Hroot Hn Hname). }
  assert (Hfields : map to_field (flat_map (record_entries root) records)
                    = flat_map record_fields records).
  { clear Hne Hnested Hbase Hentry Hnd.
    induction Hrs as [|r records (Hn & Hnames & _) _ IH]; [reflexivity|].
    cbn [flat_map]. rewrite map_app, IH. f_equal.
    unfold record_entries, record_fields. rewrite map_map. apply map_ext_in.
    intros item Hitem. rewrite Forall_forall in Hnames.
    apply (record_entry_field root (fst r) item Hroot); [lia | apply Hnames, Hitem]. }
  apply processFormData_one_root; try assumption.
  rewrite Hfields. apply (process_group_records _ Hrs Hnd).
Qed.

Lemma X21_list_of_records_witness :
  processFormData
    (flat_map (record_entries "profile")
              [(2%Z, [("name", "Cy"); ("email", " ")]);
               (0%Z, [("name", "Ann"); ("email", "a@b.c")]);
               (1%Z, [("name", " ")])])
  = Ok [("profile",
         match filter has_fields [(2%Z, [("name", "Cy"); ("email", " ")]);
                                   (0%Z, [("name", "Ann"); ("email", "a@b.c")]);
                                   (1%Z, [("name", " ")])] with
         | [] => empty_object
         | kept => Obj.of_list (map snd (sort_idx (map record_value kept)))
         end)].
Proof.
  apply (X21_list_of_records "profile").
  - split; [discriminate | reflexivity].
  - reflexivity.
  - repeat constructor; simpl; try lia; try discriminate; intuition discriminate.
  - repeat constructor; simpl; discriminate.
  - simpl. repeat constructor; simpl; intuition lia.
  - discriminate.
Defined.

(** ** Writing twice at the same path *)

Lemma assign_assign (kd : kind) (ps : props) (k : string) (v1 v2 : Value)
      (kd1 : kind) (ps1 : props) :
  Obj.assign kd ps k v1 = VObject kd1 ps1 ->
  Obj.assign kd1 ps1 k v2 = Obj.assign kd ps k v2.
Proof.
  unfold Obj.assign. destruct kd as [|len|name]; try destruct (Num.array_index k) as [i|];
    intros H; inversion H; subst; rewrite ?put_put; try reflexivity.
  f_equal. f_equal. lia.
Qed.

Lemma setValue_from_descend_all (kd : kind) (ps : props) (segment nextSegment : PathSegment)
      (rest : list PathSegment) :
  String.eqb (property_key segment) "length" = false ->
  exists kd1 ps1 kd0 ps0,
    forall value,
      setValue_from (VObject kd ps) (segment :: nextSegment :: rest) value
      = (child <- setValue_from (VObject kd0 ps0) (nextSegment :: rest) value ;;
         Ok (Obj.write_back (VObject kd1 ps1) (property_key segment) child)).
Proof.
  intros Hk.
  destruct (not_a_container (Obj.get (VObject kd ps) (property_key segment))) eqn:Hc.
  - destruct (assign_is_object kd ps (property_key segment)
                (VObject (fresh_kind nextSegment) [])) as (kd1 & ps1 & Ha).
    exists kd1, ps1, (fresh_kind nextSegment), []. intros value.
    rewrite setValue_from_step, Hc, (set_object_ok _ _ _ _ Hk), fresh_container.
    cbn [bind]. rewrite (get_assign_same _ _ _ _ Hk), Ha. reflexivity.
  - destruct (container_is_object _ Hc) as (kd0 & ps0 & Hget).
    exists kd, ps, kd0, ps0. intros value.
    rewrite setValue_from_step, Hc. cbn [bind]. rewrite Hget. reflexivity.
Qed.

Lemma set_twice_walk (segments : list PathSegment) (v1 v2 : Value) :
  Forall (fun s => String.eqb (property_key s) "length" = false) segments ->
  forall kd ps,
  exists kd1 ps1,
    setValue_from (VObject kd ps) segments v1 = Ok (VObject kd1 ps1)
    /\ setValue_from (VObject kd1 ps1) segments v2 = setValue_from (VObject kd ps) segments v2.
Proof.
  induction segments as [|segment rest IH]; intros Hkeys kd ps.
  - cbn [setValue_from]. rewrite !(set_object_ok _ _ _ _ (eq_refl : String.eqb "undefined" "length" = false)).
    destruct (assign_is_object kd ps "undefined" v1) as (kd1 & ps1 & Ha).
    exists kd1, ps1. rewrite Ha. split; [reflexivity|].
    rewrite (set_object_ok _ _ _ _ (eq_refl : String.eqb "undefined" "length" = false)).
    rewrite (assign_assign _ _ _ _ _ _ _ Ha). reflexivity.
  - inversion Hkeys as [|? ? Hk Hrest]; subst.
    destruct rest as [|nextSegment rest'].
    + cbn [setValue_from]. rewrite !(set_object_ok _ _ _ _ Hk).
      destruct (assign_is_object kd ps (property_key segment) v1) as (kd1 & ps1 & Ha).
      exists kd1, ps1. rewrite Ha. split; [reflexivity|].
      rewrite (set_object_ok _ _ _ _ Hk), (assign_assign _ _ _ _ _ _ _ Ha). reflexivity.
    + destruct (setValue_from_descend_all kd ps segment nextSegment rest' Hk)
        as (kd1 & ps1 & kd0 & ps0 & Hstep).
      destruct (IH Hrest kd0 ps0) as (kdc & psc & Hfirst & Hsecond).
      rewrite !Hstep, Hfirst. cbn [bind Obj.write_back].
      eexists; eexists. split; [reflexivity|].
      rewrite setValue_from_step.
      rewrite (get_key_ok _ _ _ (key_ok_any kd1 _ Hk)), lookup_put_same.
      change (not_a_container (VObject kdc psc)) with false. cbv iota. cbn [bind].
      rewrite (get_key_ok _ _ _ (key_ok_any kd1 _ Hk)), lookup_put_same, Hsecond.
      destruct (setValue_from (VObject kd0 ps0) (nextSegment :: rest') v2) as [child|e];
        [|reflexivity].
      cbn [bind Obj.write_back]. rewrite put_put. reflexivity.
Qed.

(** X22: the last write wins.  On a root object that holds no [File]
    and a path none of whose fragments is the name "length" or
    "__proto__", writing a value and then another at the same path leaves
    exactly the structure that writing the second value alone leaves; in
    particular writing the same value twice changes nothing more than
    writing it once. *)
Theorem X22_setValue_last_write_wins (kd : kind) (ps : props) (p : string) (v1 v2 : Value) :
  file_free (VObject kd ps) = true ->
  parsePath p = Ok (map classify (Str.fragments p)) ->
  ~ In "length" (Str.fragments p) ->
  proto_free p = true ->
  exists root,
    setValue (VObject kd ps) p v1 = Ok root
    /\ setValue root p v2 = setValue (VObject kd ps) p v2
    /\ setValue root p v1 = Ok root.
Proof.
  intros _ Hparse Hlen _. unfold setValue. cbn [truthy negb]. rewrite Hparse. cbn [bind].
  pose proof (keys_not_length _ Hlen) as Hkeys.
  destruct (set_twice_walk _ v1 v2 Hkeys kd ps) as (kd1 & ps1 & Hfirst & Hsecond).
  destruct (set_twice_walk _ v1 v1 Hkeys kd ps) as (kd1' & ps1' & Hfirst' & Hsame).
  rewrite Hfirst in Hfirst'. inversion Hfirst'; subst kd1' ps1'.
  exists (VObject kd1 ps1). rewrite Hfirst. cbn [truthy negb bind].
  split; [reflexivity|]. split; [exact Hsecond|]. rewrite Hsame. exact Hfirst.
Qed.

Lemma X22_setValue_last_write_wins_witness :
  exists root,
    setValue (VObject KPlain [("user", VObject KPlain [("tags", VString "none")])])
             "user.tags[1]" (VString "a") = Ok root
    /\ setValue root "user.tags[1]" (VString "b")
       = setValue (VObject KPlain [("user", VObject KPlain [("tags", VString "none")])])
                  "user.tags[1]" (VString "b")
    /\ setValue root "user.tags[1]" (VString "a") = Ok root.
Proof.
  apply (X22_setValue_last_write_wins KPlain _ "user.tags[1]").
  - reflexivity.
  - reflexivity.
  - change (Str.fragments "user.tags[1]") with ["user"; "tags"; "1"].
    intros [H | [H | [H | []]]]; discriminate.
  - reflexivity.
Defined.

(** ** A single dotted path *)

Lemma dotted_cons (f g : string) (fs : list string) :
  dotted (f :: g :: fs) = (f ++ String "." (dotted (g :: fs)))%string.
Proof. reflexivity. Qed.

Lemma fragments_dotted (fs : list string) :
  Forall proper_fragment fs ->
  filter Str.nonempty (Str.split_aux (dotted fs) EmptyString) = fs.
Proof.
  induction 1 as [|f fs [Hne Hf] Hfs IH]; [reflexivity|].
  destruct fs as [|g fs'].
  - cbn [dotted]. rewrite <- (append_empty_r f) at 1.
    rewrite (split_aux_no_separators f _ _ Hf). cbn [append Str.split_aux filter].
    destruct f; [congruence | reflexivity].
  - rewrite dotted_cons, (split_aux_no_separators f _ _ Hf).
    cbn [append Str.split_aux]. change (Str.is_separator ".") with true. cbv iota.
    cbn [filter]. rewrite IH. destruct f; [congruence | reflexivity].
Qed.

Lemma includes_dotdot_skip (f s : string) :
  no_separators f = true ->
  Str.includes_dotdot (f ++ s)%string = Str.includes_dotdot s.
Proof.
  induction f as [|c f IH]; intros H; [reflexivity|].
  cbn [no_separators] in H. apply andb_true_iff in H as [Hc Hf].
  rewrite <- (IH Hf). cbn [append].
  destruct c as [[] [] [] [] [] [] [] []]; try reflexivity; discriminate Hc.
Qed.

Lemma includes_dotdot_dot (c : ascii) (s : string) :
  Str.is_separator c = false ->
  Str.includes_dotdot (String "." (String c s)) = Str.includes_dotdot (String c s).
Proof.
  intros Hc. destruct c as [[] [] [] [] [] [] [] []]; try reflexivity; discriminate Hc.
Qed.

Lemma dotted_head (f : string) (fs : list string) :
  proper_fragment f ->
  exists c s, dotted (f :: fs) = String c s /\ Str.is_separator c = false.
Proof.
  intros [Hne Hf]. destruct f as [|c f]; [congruence|].
  cbn [no_separators] in Hf. apply andb_true_iff in Hf as [Hc _].
  apply negb_true_iff in Hc.
  destruct fs; eexists; eexists; (split; [reflexivity | exact Hc]).
Qed.

Lemma parsePath_dotted (fs : list string) :
  Forall name_fragment fs -> fs <> [] ->
  parsePath (dotted fs) = Ok (map SegName fs).
Proof.
  intros Hfs Hne.
  assert (Hproper : Forall proper_fragment fs)
    by (eapply Forall_impl; [|exact Hfs]; intros f Hf; apply Hf).
  assert (Hdd : Str.includes_dotdot (dotted fs) = false).
  { clear Hne Hfs. induction Hproper as [|f fs Hf Hrest IH]; [reflexivity|].
    destruct fs as [|g fs'].
    - cbn [dotted]. rewrite <- (append_empty_r f).
      apply (includes_dotdot_skip f EmptyString), Hf.
    - rewrite dotted_cons, (includes_dotdot_skip f _ (proj2 Hf)).
      inversion Hrest as [|? ? Hg _]; subst.
      destruct (dotted_head g fs' Hg) as (c & s & Heq & Hc).
      rewrite Heq in *. rewrite (includes_dotdot_dot c s Hc). exact IH. }
  unfold parsePath. rewrite Hdd.
  assert (Hnonempty : Str.nonempty (dotted fs) = true).
  { destruct fs as [|f fs']; [congruence|].
    inversion Hproper as [|? ? Hf _]; subst.
    destruct (dotted_head f fs' Hf) as (c & s & -> & _). reflexivity. }
  rewrite Hnonempty. cbn [negb]. unfold Str.fragments, Str.split.
  rewrite (fragments_dotted fs Hproper). f_equal.
  apply map_ext_in. intros f Hin. rewrite Forall_forall in Hfs.
  destruct (Hfs _ Hin) as [_ Hnum]. unfold classify, isNumericKey in *.
  destruct (Num.parseInt f); [discriminate | reflexivity].
Qed.

Lemma createNestedStructure_names (fs : list string) (v : Value) :
  forall f,
    createNestedStructure_from (VObject KPlain []) (map SegName (f :: fs)) v
    = Ok (VObject KPlain [(f, nest fs v)]).
Proof.
  induction fs as [|g fs IH]; intros f; [reflexivity|].
  cbn [map]. rewrite createNestedStructure_from_step.
  cbn [property_key is_number Obj.set Obj.assign bind]. unfold empty_object.
  change (Obj.put f (VObject KPlain []) []) with [(f, VObject KPlain [])].
  cbn [Obj.get Obj.lookup]. rewrite String.eqb_refl.
  change (SegName g :: map SegName fs) with (map SegName (g :: fs)). rewrite IH.
  cbn [bind Obj.write_back]. unfold Obj.put. cbn [Obj.lookup].
  rewrite String.eqb_refl. cbn [Obj.replace]. rewrite String.eqb_refl. reflexivity.
Qed.

Lemma setNestedValue_names (fs : list string) (v : Value) :
  Forall name_fragment fs ->
  forall f,
    setNestedValue_from (VObject KPlain []) (f :: fs) v
    = Ok (VObject KPlain [(f, nest fs v)]).
Proof.
  induction 1 as [|g fs [_ Hg] _ IH]; intros f; [reflexivity|].
  rewrite setNestedValue_from_step. cbn [Obj.get Obj.lookup].
  change (not_a_container VUndefined) with true. cbv iota. rewrite Hg.
  cbn [Obj.set Obj.assign bind]. unfold empty_object.
  change (Obj.put f (VObject KPlain []) []) with [(f, VObject KPlain [])].
  cbn [Obj.get Obj.lookup]. rewrite String.eqb_refl, IH.
  cbn [bind Obj.write_back]. unfold Obj.put. cbn [Obj.lookup].
  rewrite String.eqb_refl. cbn [Obj.replace]. rewrite String.eqb_refl. reflexivity.
Qed.

Lemma normalize_nest (fs : list string) (s : string) :
  Forall name_fragment fs ->
  normalizeStructure (nest fs (VString s)) = nest fs (VString s).
Proof.
  induction 1 as [|f fs [_ Hf] _ IH]; [reflexivity|].
  cbn [nest fold_right]. fold (nest fs (VString s)).
  rewrite normalizeStructure_object.
  cbn [Obj.keys map fst allNumericKeys forallb]. rewrite Hf. cbn [andb].
  unfold normalize_values. cbn [map fst snd]. rewrite IH.
  rewrite collect_defined_unfold. cbn [fold_left]. unfold keep_defined. cbn [fst snd].
  destruct fs; reflexivity.
Qed.

(** X23: the two modules build the same structure from one dotted
    path.  For a key [root.f1. ... .fn], n >= 1, whose fragments are
    names (non-empty, free of separators, not numeric), the first not a
    name that [Object.prototype] defines and the others not "__proto__",
    and a value that is a string and not blank, [processFormData] on the
    single entry returns the properties of the object that
    [createFromPath] returns for that key and value: the chain of objects
    along the path. *)
Theorem X23_dotted_entry_is_createFromPath (root : string) (rest : list string)
        (s : string) :
  Forall name_fragment (root :: rest) ->
  Obj.inherited root = false ->
  forallb (fun f => negb (String.eqb f "__proto__")) rest = true ->
  rest <> [] ->
  Str.trim_is_empty s = false ->
  processFormData [(dotted (root :: rest), VString s)]
  = Ok [(root, nest rest (VString s))]
  /\ createFromPath (dotted (root :: rest)) (VString s)
     = Ok (VObject KPlain [(root, nest rest (VString s))]).
Proof.
  intros Hall Hown _ Hne Hs. inversion Hall as [|? ? Hroot Hrest]; subst.
  assert (Hproper : Forall proper_fragment (root :: rest))
    by (eapply Forall_impl; [|exact Hall]; intros f Hf; apply Hf).
  assert (Hfrag : Str.fragments (dotted (root :: rest)) = root :: rest)
    by apply (fragments_dotted _ Hproper).
  split.
  - destruct rest as [|g rest']; [congruence|].
    assert (Hsimple : is_simple_key (dotted (root :: g :: rest')) = false).
    { unfold is_simple_key. rewrite dotted_cons, includes_dot. reflexivity. }
    assert (Hfield : to_field (dotted (root :: g :: rest'), VString s)
                     = {| path := g :: rest'; value := VString s |})
      by (unfold to_field; cbn [fst snd]; rewrite Hfrag; reflexivity).
    apply processFormData_one_root;
      [exact Hown | discriminate | repeat constructor; exact Hsimple
      | repeat constructor; cbn [fst]; rewrite Hfrag; reflexivity |].
    cbn [map]. rewrite Hfield.
    rewrite process_group_unfold. cbn [fold_left]. unfold place_field at 1.
    cbn [bind path value]. unfold setNestedValue. cbn [isEmptyValue]. rewrite Hs.
    unfold empty_object. rewrite (setNestedValue_names rest' (VString s)) by
        (inversion Hrest; assumption).
    cbn [bind].
    change (VObject KPlain [(g, nest rest' (VString s))]) with (nest (g :: rest') (VString s)).
    rewrite (normalize_nest (g :: rest') s Hrest). reflexivity.
  - unfold createFromPath. rewrite (parsePath_dotted _ Hall) by discriminate.
    cbn [bind]. unfold createNestedStructure, empty_object.
    apply createNestedStructure_names.
Qed.

Lemma X23_dotted_entry_is_createFromPath_witness :
  processFormData [(dotted ["user"; "address"; "city"], VString "Rome")]
  = Ok [("user", nest ["address"; "city"] (VString "Rome"))]
  /\ createFromPath (dotted ["user"; "address"; "city"]) (VString "Rome")
     = Ok (VObject KPlain [("user", nest ["address"; "city"] (VString "Rome"))]).
Proof.
  apply (X23_dotted_entry_is_createFromPath "user" ["address"; "city"] "Rome").
  - repeat constructor; discriminate.
  - reflexivity.
  - reflexivity.
  - discriminate.
  - reflexivity.
Defined.
